(** * Uptane TUF repository verifier: src/uptane/tufrepository.cc

    A shallow embedding of [Uptane::TufRepository], of the test driver
    tests/uptane_vector_tests.cc, and the properties of the trust
    pipeline.  The C++ object, the directory tree and the list of HTTP
    requests are threaded through a state-and-exception monad; jsoncpp
    values are an inductive type with the accessors the source calls;
    pathnames are resolved name by name, as the operating system
    resolves them. *)

From stdpp Require Import base gmap strings list pretty.
From Stdlib Require Import ZArith Lia.

Open Scope Z_scope.

#[local] Set Warnings "-register-all".

(** ** jsoncpp values *)

Module Json.

(** [Json::Value], with the accessors as jsoncpp 1.x defines them.
    Objects keep their members in iteration order, which in jsoncpp is
    the order of the keys (the members live in a [std::map]).  Floating
    point values are outside the model. *)
Inductive Value :=
| nullValue
| intValue (i : Z)
| uintValue (u : Z)
| stringValue (s : string)
| booleanValue (b : bool)
| arrayValue (elems : list Value)
| objectValue (members : list (string * Value)).

(** The position of a value's type in [enum ValueType]. *)
Definition type_rank (v : Value) : Z :=
  match v with
  | nullValue => 0
  | intValue _ => 1
  | uintValue _ => 2
  | stringValue _ => 4
  | booleanValue _ => 5
  | arrayValue _ => 6
  | objectValue _ => 7
  end.

Fixpoint find (key : string) (members : list (string * Value)) : option Value :=
  match members with
  | [] => None
  | (k, v) :: rest => if String.eqb k key then Some v else find key rest
  end.

(** [operator[](key) const]: the member, or null when there is none.
    [None] stands for the [Json::LogicError] raised on a value that is
    neither null nor an object. *)
Definition get (key : string) (v : Value) : option Value :=
  match v with
  | nullValue => Some nullValue
  | objectValue ms => Some (default nullValue (find key ms))
  | _ => None
  end.

(** Insertion of a new member at its place in the key order. *)
Fixpoint insert_member (key : string) (x : Value) (members : list (string * Value))
  : list (string * Value) :=
  match members with
  | [] => [(key, x)]
  | (k, v) :: rest =>
      if String.ltb key k then (key, x) :: (k, v) :: rest
      else (k, v) :: insert_member key x rest
  end.

(** Replacement of the value of an existing member. *)
Fixpoint set_member (key : string) (x : Value) (members : list (string * Value))
  : list (string * Value) :=
  match members with
  | [] => []
  | (k, v) :: rest =>
      if String.eqb k key then (k, x) :: rest else (k, v) :: set_member key x rest
  end.

(** [operator[](key)] on a value that is not const: a null value becomes
    an object, and a missing member is created as null.  The result is
    the value after the call and the member referred to. *)
Definition resolve (key : string) (v : Value) : option (Value * Value) :=
  match v with
  | nullValue => Some (objectValue [(key, nullValue)], nullValue)
  | objectValue ms =>
      match find key ms with
      | Some x => Some (v, x)
      | None => Some (objectValue (insert_member key nullValue ms), nullValue)
      end
  | _ => None
  end.

(** [v[key] = x] on a value that is not const. *)
Definition assign (key : string) (x : Value) (v : Value) : option Value :=
  match resolve key v with
  | Some (objectValue ms, _) => Some (objectValue (set_member key x ms))
  | _ => None
  end.

(** [isMember(key)]. *)
Definition isMember (key : string) (v : Value) : option bool :=
  match v with
  | nullValue => Some false
  | objectValue ms => Some (bool_decide (is_Some (find key ms)))
  | _ => None
  end.

(** [removeMember(key)]: the value after the call. *)
Definition removeMember (key : string) (v : Value) : option Value :=
  match v with
  | nullValue => Some nullValue
  | objectValue ms =>
      Some (objectValue (filter (λ kv, negb (String.eqb (fst kv) key)) ms))
  | _ => None
  end.

(** [size()]: the number of elements of an array or members of an
    object, 0 for every other value. *)
Definition size (v : Value) : Z :=
  match v with
  | arrayValue xs => Z.of_nat (length xs)
  | objectValue ms => Z.of_nat (length ms)
  | _ => 0
  end.

Fixpoint index_from (n : nat) (xs : list Value) : list (Value * Value) :=
  match xs with
  | [] => []
  | x :: rest => (uintValue (Z.of_nat n), x) :: index_from (S n) rest
  end.

(** The pairs [(it.key(), *it)] visited from [begin()] to [end()]. *)
Definition items (v : Value) : list (Value * Value) :=
  match v with
  | arrayValue xs => index_from 0 xs
  | objectValue ms => map (λ kv, (stringValue (fst kv), snd kv)) ms
  | _ => []
  end.

(** [asString()]. *)
Definition asString (v : Value) : option string :=
  match v with
  | nullValue => Some ""%string
  | stringValue s => Some s
  | booleanValue b => Some (if b then "true" else "false")%string
  | intValue i => Some (pretty i)
  | uintValue u => Some (pretty u)
  | arrayValue _ | objectValue _ => None
  end.

Definition minInt : Z := - 2 ^ 31.
Definition maxInt : Z := 2 ^ 31 - 1.

(** [asInt()]. *)
Definition asInt (v : Value) : option Z :=
  match v with
  | nullValue => Some 0
  | intValue i => if (minInt <=? i) && (i <=? maxInt) then Some i else None
  | uintValue u => if u <=? maxInt then Some u else None
  | booleanValue b => Some (if b then 1 else 0)
  | stringValue _ | arrayValue _ | objectValue _ => None
  end.

(** [asUInt64()]. *)
Definition asUInt64 (v : Value) : option Z :=
  match v with
  | nullValue => Some 0
  | intValue i => if 0 <=? i then Some i else None
  | uintValue u => Some u
  | booleanValue b => Some (if b then 1 else 0)
  | stringValue _ | arrayValue _ | objectValue _ => None
  end.

(** The order behind [operator<]: first the types, then the payloads;
    containers first by size, then member by member. *)
Fixpoint compare (a b : Value) {struct a} : comparison :=
  match a, b with
  | nullValue, nullValue => Eq
  | intValue x, intValue y => Z.compare x y
  | uintValue x, uintValue y => Z.compare x y
  | stringValue x, stringValue y => String.compare x y
  | booleanValue x, booleanValue y => Bool.compare x y
  | arrayValue xs, arrayValue ys =>
      match Nat.compare (length xs) (length ys) with
      | Eq =>
          (fix go (l r : list Value) : comparison :=
             match l, r with
             | x :: l', y :: r' =>
                 match compare x y with Eq => go l' r' | c => c end
             | _, _ => Eq
             end) xs ys
      | c => c
      end
  | objectValue xs, objectValue ys =>
      match Nat.compare (length xs) (length ys) with
      | Eq =>
          (fix go (l r : list (string * Value)) : comparison :=
             match l, r with
             | (j, x) :: l', (k, y) :: r' =>
                 match String.compare j k with
                 | Eq => match compare x y with Eq => go l' r' | c => c end
                 | c => c
                 end
             | _, _ => Eq
             end) xs ys
      | c => c
      end
  | _, _ => Z.compare (type_rank a) (type_rank b)
  end.

(** [a < b]. *)
Definition lt (a b : Value) : bool :=
  match compare a b with Lt => true | _ => false end.

(** [a > b], which jsoncpp defines as [b < a]. *)
Definition gt (a b : Value) : bool := lt b a.

(** [v == s] for a string [s]. *)
Definition eq_string (v : Value) (s : string) : bool :=
  match v with
  | stringValue s' => String.eqb s' s
  | _ => false
  end.

End Json.

Import Json.

(** ** Strings and paths *)

(** [::tolower] in the C locale, which is also what
    [boost::algorithm::to_lower_copy] applies to each character. *)
Definition tolower (c : Ascii.ascii) : Ascii.ascii :=
  let n := Ascii.N_of_ascii c in
  if ((65 <=? n) && (n <=? 90))%N then Ascii.ascii_of_N (n + 32) else c.

Fixpoint to_lower_copy (s : string) : string :=
  match s with
  | EmptyString => EmptyString
  | String c rest => String (tolower c) (to_lower_copy rest)
  end.

(** A [boost::filesystem::path] as the operands that [operator/] has
    put together, the first being the pathname it started from.  In
    Boost.Filesystem 3, [p / q] is [p] when [q] is empty and otherwise
    the pathname of [p], a separator unless one is there already, and the
    pathname of [q]. *)
Definition path : Type := list string.

(** The separator of names, the character [/]. *)
Definition separator : Ascii.ascii := Ascii.ascii_of_nat 47.

(** The names of a pathname: the pieces between its separators. *)
Fixpoint split_names (s : string) : list string :=
  match s with
  | EmptyString => [EmptyString]
  | String c rest =>
      if Ascii.eqb c separator then EmptyString :: split_names rest
      else match split_names rest with
           | x :: xs => String c x :: xs
           | [] => [String c EmptyString]
           end
  end.

(** What the operating system is given of a string: [c_str()], which
    ends at the first character 0. *)
Fixpoint c_str (s : string) : string :=
  match s with
  | EmptyString => EmptyString
  | String c rest =>
      if Ascii.eqb c Ascii.zero then EmptyString else String c (c_str rest)
  end.

Fixpoint has_nul (s : string) : bool :=
  match s with
  | EmptyString => false
  | String c rest => Ascii.eqb c Ascii.zero || has_nul rest
  end.

(** The names that the operating system sees in a path: those of its
    operands that are not empty, up to the first character 0.  Where an
    operand begins or ends with a separator the list has an empty name
    that the pathname need not have; an empty name stays in the
    directory reached, as [step] has it. *)
Fixpoint names (p : path) : list string :=
  match p with
  | [] => []
  | q :: rest =>
      if String.eqb q "" then names rest
      else if has_nul q then split_names (c_str q)
      else split_names q ++ names rest
  end.

(** The pathname that the operating system is given is empty. *)
Definition empty_pathname (p : path) : bool :=
  bool_decide (names p = [] ∨ names p = [EmptyString]).

(** The pathname begins with a separator. *)
Fixpoint is_absolute (p : path) : bool :=
  match p with
  | [] => false
  | q :: rest => if String.eqb q "" then is_absolute rest else String.prefix "/" q
  end.

Fixpoint has_separator (s : string) : bool :=
  match s with
  | EmptyString => false
  | String c rest => Ascii.eqb c separator || has_separator rest
  end.

(** A name as a directory holds them: not empty, without a separator
    or a character 0, and neither [.] nor [..]. *)
Definition plain (n : string) : bool :=
  negb (String.eqb n "") && negb (String.eqb n ".") && negb (String.eqb n "..")
  && negb (has_separator n) && negb (has_nul n).

(** No operand of the path holds a character 0. *)
Definition clean (p : path) : bool := forallb (λ q, negb (has_nul q)) p.

(** A place in the directory tree: the names that lead to it from the
    root directory. *)
Definition location : Type := list string.

(** The directory that holds a place; the root directory holds itself. *)
Definition parent_path (l : location) : location := take (length l - 1)%nat l.

(** The directory tree: which directories exist besides the root, what
    each regular file holds, and the working directory of the process.
    There are no links, every directory may be searched and written, and
    names are within the lengths that the file system allows.
    The tree is taken to be well formed: the directory that holds a
    directory or a file exists, and no place is both. *)
Record FileSystem := mkFileSystem {
  dirs : gset location;
  files : gmap location string;
  cwd : location
}.

Definition is_directory (l : location) (d : FileSystem) : bool :=
  bool_decide (l = [] ∨ l ∈ dirs d).

(** One name further from a directory: the empty name and [.] stay,
    [..] leads to the directory that holds it. *)
Definition step (cur : location) (name : string) : location :=
  if String.eqb name "" || String.eqb name "." then cur
  else if String.eqb name ".." then parent_path cur
  else cur ++ [name].

(** Pathname resolution: every name is looked up in a directory, so the
    place reached before it has to be one. *)
Fixpoint walk (d : FileSystem) (cur : location) (ns : list string) : option location :=
  match ns with
  | [] => Some cur
  | n :: rest => if is_directory cur d then walk d (step cur n) rest else None
  end.

(** Where a pathname starts: at the root directory when it is absolute,
    at the working directory otherwise. *)
Definition start_of (p : path) (d : FileSystem) : location :=
  if is_absolute p then [] else cwd d.

(** The place that a path leads to, which need not exist; none when a
    name on the way is not a directory, and none for the empty
    pathname. *)
Definition locate (p : path) (d : FileSystem) : option location :=
  if empty_pathname p then None else walk d (start_of p d) (names p).

(** The place that the names of a path lead to, which for the empty
    pathname is the directory where it starts. *)
Definition reach (p : path) (d : FileSystem) : option location :=
  walk d (start_of p d) (names p).

(** [boost::filesystem::exists]. *)
Definition fs_exists (p : path) (d : FileSystem) : bool :=
  match locate p d with
  | Some l => is_directory l d || bool_decide (is_Some (files d !! l))
  | None => false
  end.

(** [mkdir] along the names of a pathname: a name that is a directory is
    entered, a name that is nothing yet becomes a directory, and a
    regular file in the way makes it fail, the directories made so far
    staying. *)
Fixpoint make_directories (cur : location) (ns : list string) (d : FileSystem)
  : bool * FileSystem :=
  match ns with
  | [] => (true, d)
  | n :: rest =>
      if is_directory cur d then
        let next := step cur n in
        if is_directory next d then make_directories next rest d
        else if bool_decide (is_Some (files d !! next)) then (false, d)
        else make_directories next rest
               (mkFileSystem ({[next]} ∪ dirs d) (files d) (cwd d))
      else (false, d)
  end.

(** [boost::filesystem::create_directories]: the directory and every
    missing ancestor; [false] stands for the [filesystem_error] that it
    throws when a directory cannot be made. *)
Definition create_directories (p : path) (d : FileSystem) : bool * FileSystem :=
  if empty_pathname p then (false, d)
  else make_directories (start_of p d) (names p) d.

(** The pathname itself, as Boost.Filesystem 3 puts it together:
    [p / q] is [p] when [q] is empty, and otherwise [p], a separator
    unless [p] is empty or ends with one or [q] begins with one, and
    [q]. *)
Fixpoint ends_with_separator (s : string) : bool :=
  match s with
  | EmptyString => false
  | String c rest =>
      match rest with
      | EmptyString => Ascii.eqb c separator
      | String _ _ => ends_with_separator rest
      end
  end.

Definition slash (p q : string) : string :=
  if String.eqb q "" then p
  else if String.eqb p "" || ends_with_separator p || String.prefix "/" q then p +:+ q
  else p +:+ "/" +:+ q.

Definition pathname (p : path) : string := foldl slash "" p.

(** The resolution of a pathname as the operating system is given it,
    and [create_directories] on it; [locate] and [create_directories]
    above are shown to agree with them. *)
Definition locate_pathname (s : string) (d : FileSystem) : option location :=
  let given := c_str s in
  if String.eqb given "" then None
  else walk d (if String.prefix "/" given then [] else cwd d) (split_names given).

Definition create_directories_pathname (s : string) (d : FileSystem)
  : bool * FileSystem :=
  let given := c_str s in
  if String.eqb given "" then (false, d)
  else make_directories (if String.prefix "/" given then [] else cwd d)
                        (split_names given) d.

(** The place where an [std::ofstream] on [p] writes: none when the
    pathname leads nowhere or to a directory, in which case opening
    fails. *)
Definition opens (p : path) (d : FileSystem) : option location :=
  l ← locate p d; if is_directory l d then None else Some l.

(** [std::ofstream file(p); file << s; file.close()].  When opening
    fails the writes are dropped without an error. *)
Definition write_file (p : path) (s : string) (d : FileSystem) : FileSystem :=
  match opens p d with
  | Some l => mkFileSystem (dirs d) (<[l := s]> (files d)) (cwd d)
  | None => d
  end.

(** The bytes an [std::ifstream] reads: nothing from a file that cannot
    be opened. *)
Definition read_file (p : path) (d : FileSystem) : string :=
  match locate p d with
  | Some l => default ""%string (files d !! l)
  | None => ""%string
  end.

(** ** Collaborators declared outside tufrepository.cc *)

(** Modelled from the spec: the public key of crypto.h, which is not
    among the sources: a key carries its [keytype] and its [value]; the
    constructor takes the value and the key type as written in the
    document. *)
Record PublicKey := mkPublicKey {
  value : string;
  type : string
}.

Inductive HashType := sha256 | sha512 | unknownAlgorithm.

(** Modelled from the spec: the hash of a target descriptor (one of
    SHA-512 or SHA-256 with its expected digest); a default constructed
    [Hasher] has no algorithm. *)
Record Hasher := mkHasher {
  hash_type : HashType;
  hash_digest : string
}.

Definition Hasher_default : Hasher := mkHasher unknownAlgorithm "".

(** Modelled from the spec: the target descriptor
    [{name, length, hash, custom}], built by
    [Target(custom, filename, length, hash)]. *)
Record Target := mkTarget {
  custom_ : Value;
  filename_ : string;
  length_ : Z;
  hash_ : Hasher
}.

(** Modelled from the spec: the bounds on a role's threshold, declared in
    tufrepository.h, which is not among the sources:
    [kMinSignatures = 1] and [kMaxSignatures = 1000]. *)
Definition kMinSignatures : Z := 1.
Definition kMaxSignatures : Z := 1000.

(** The functions of other translation units that the verifier calls. *)
Record Externals := mkExternals {
  (** [Crypto::VerifySignature(key, signature, message)] *)
  VerifySignature : PublicKey → string → string → bool;
  (** [Json::FastWriter().write(value)] *)
  FastWriter_write : Value → string;
  (** [stream << value] *)
  stream_write : Value → string;
  (** [Utils::parseJSONFile], applied to the bytes of the file *)
  parseJSON : string → Value;
  (** [Hasher::matchWith(content)] *)
  matchWith : Hasher → string → bool
}.

(** What the server answers: [HttpClient::getJson] and
    [HttpClient::get] as functions of the URL. *)
Record HttpClient := mkHttpClient {
  http_getJson : string → Value;
  http_get : string → string
}.

Inductive Request :=
| GetJson (url : string)
| Get (url : string).

(** ** The repository object and the exceptions *)

(** The exceptions of the verifier, and those of the libraries that pass
    through it: [Json::LogicError] and
    [boost::filesystem::filesystem_error]. *)
Inductive Exception :=
| SecurityException (name msg : string)
| IllegalThreshold (name msg : string)
| OversizedTarget (name : string)
| TargetHashMismatch (name : string)
| LogicError
| filesystem_error.

(** The members of the class.  Modelled from the spec: the class is
    declared in tufrepository.h, which is not among the sources; the
    trust state is [{keys: keyid → PublicKey, thresholds: role →
    integer}], here the two [std::map]s that [count], [insert] and
    [operator[]] are called on. *)
Record TufRepository := mkTufRepository {
  name_ : string;
  path_ : path;
  base_url_ : string;
  keys_ : gmap string PublicKey;
  thresholds_ : gmap string Z;
  targets_ : list Target;
  timestamp_signed_ : Value
}.

(** Everything a member function can read or change: the object, the
    file system, and the requests sent so far (oldest first). *)
Record World := mkWorld {
  repo : TufRepository;
  fs : FileSystem;
  requests : list Request
}.

Definition with_keys (ks : gmap string PublicKey) (r : TufRepository) : TufRepository :=
  mkTufRepository (name_ r) (path_ r) (base_url_ r) ks (thresholds_ r)
                  (targets_ r) (timestamp_signed_ r).

Definition with_thresholds (ts : gmap string Z) (r : TufRepository) : TufRepository :=
  mkTufRepository (name_ r) (path_ r) (base_url_ r) (keys_ r) ts
                  (targets_ r) (timestamp_signed_ r).

Definition with_targets (l : list Target) (r : TufRepository) : TufRepository :=
  mkTufRepository (name_ r) (path_ r) (base_url_ r) (keys_ r) (thresholds_ r)
                  l (timestamp_signed_ r).

Definition with_timestamp_signed (v : Value) (r : TufRepository) : TufRepository :=
  mkTufRepository (name_ r) (path_ r) (base_url_ r) (keys_ r) (thresholds_ r)
                  (targets_ r) v.

(** ** The monad of member functions *)

Inductive Outcome (A : Type) :=
| Done (a : A)
| Throw (e : Exception).
Arguments Done {A} a.
Arguments Throw {A} e.

Definition M (A : Type) : Type := World → Outcome A * World.

Definition ret {A} (a : A) : M A := λ w, (Done a, w).

Definition bind {A B} (f : A → M B) (m : M A) : M B := λ w,
  match m w with
  | (Done a, w') => f a w'
  | (Throw e, w') => (Throw e, w')
  end.

#[global] Instance M_ret : MRet M := @ret.
#[global] Instance M_bind : MBind M := @bind.

Definition throw {A} (e : Exception) : M A := λ w, (Throw e, w).

(** A jsoncpp accessor: its failure is a [Json::LogicError]. *)
Definition json {A} (o : option A) : M A :=
  match o with
  | Some a => mret a
  | None => throw LogicError
  end.

Definition this : M TufRepository := λ w, (Done (repo w), w).

Definition update (f : TufRepository → TufRepository) : M unit :=
  λ w, (Done tt, mkWorld (f (repo w)) (fs w) (requests w)).

Definition update_fs (f : FileSystem → FileSystem) : M unit :=
  λ w, (Done tt, mkWorld (repo w) (f (fs w)) (requests w)).

(** [boost::filesystem::create_directories(p)] *)
Definition make_path (p : path) : M unit :=
  λ w, let made := create_directories p (fs w) in
       (if made.1 then Done tt else Throw filesystem_error,
        mkWorld (repo w) made.2 (requests w)).

Definition send (r : Request) : M unit :=
  λ w, (Done tt, mkWorld (repo w) (fs w) (requests w ++ [r])).

(** A [for] loop over a container: the body runs on each element in
    turn, and an exception leaves the loop. *)
Fixpoint for_each {A} (l : list A) (body : A → M unit) : M unit :=
  match l with
  | [] => mret tt
  | x :: rest => body x ;; for_each rest body
  end.

(** [std::map::insert]: an entry whose key is present is left alone. *)
Definition map_insert {V} (k : string) (v : V) (m : gmap string V) : gmap string V :=
  match m !! k with
  | Some _ => m
  | None => <[k := v]> m
  end.

(** ** TufRepository's member functions *)

Section MemberFunctions.

Variable ext : Externals.
Variable http : HttpClient.

(** [thresholds_[role]] read through [std::map::operator[]]: a role
    without an entry gets one, with the value 0. *)
Definition thresholds_at (role : string) : M Z :=
  r ← this;
  match thresholds_ r !! role with
  | Some t => mret t
  | None => update (with_thresholds (<[role := 0]> (thresholds_ r)));; mret 0
  end.

Definition getJSON (role : string) : M Value :=
  r ← this;
  let url := base_url_ r +:+ "/" +:+ role in
  send (GetJson url);;
  mret (http_getJson http url).

(** The body of the loop over the signatures of a document.  The
    members that [operator[]] would create as null inside a signature
    that lacks them are not tracked: the document is passed by reference
    to const. *)
Definition check_signature (canonical : string) (it : Value * Value) : M unit :=
  r ← this;
  m ← json (get "method" it.2 ≫= asString);
  let method := to_lower_copy m in
  if negb (String.eqb method "rsassa-pss") && negb (String.eqb method "ed25519") then
    throw (SecurityException (name_ r) ("Unsupported sign method: " +:+ m))
  else
    keyid ← json (get "keyid" it.2 ≫= asString);
    match keys_ r !! keyid with
    | None => throw (SecurityException (name_ r) ("Couldn't find a key: " +:+ keyid))
    | Some key =>
        sig ← json (get "sig" it.2 ≫= asString);
        if negb (VerifySignature ext key sig canonical) then
          throw (SecurityException (name_ r) "Invalid signature, verification failed")
        else mret tt
    end.

Definition verifyRole (tuf_signed : Value) : M unit :=
  r ← this;
  signed ← json (get "signed" tuf_signed);
  type_ ← json (get "_type" signed ≫= asString);
  let role := to_lower_copy type_ in
  signatures ← json (get "signatures" tuf_signed);
  (if size signatures =? 0 then
     throw (SecurityException (name_ r) "Missing signatures, verification failed")
   else
     threshold ← thresholds_at role;
     if size signatures <? threshold then
       throw (SecurityException (name_ r)
                "Signatures count is smaller then threshold, verification failed")
     else mret tt);;
  let canonical := FastWriter_write ext signed in
  for_each (items signatures) (check_signature canonical).

(** The file is [path_ / name_ / (role + ".json")], opened through an
    [std::ofstream]; [write_file] follows its pathname. *)
Definition saveRole (content : Value) : M unit :=
  r ← this;
  type_ ← json ((get "signed" content ≫= get "_type") ≫= asString);
  let role := to_lower_copy type_ in
  update_fs (write_file (path_ r ++ [name_ r; role +:+ ".json"])
                        (stream_write ext content)).

Definition updateRole (role : string) : M Value :=
  content ← getJSON role;
  verifyRole content;;
  saveRole content;;
  mret content.

(** The file is [path_ / name_ / "targets" / target.filename_]. *)
Definition saveTarget (target : Target) : M unit :=
  r ← this;
  (if 0 <? length_ target then
     let url := base_url_ r +:+ "/" +:+ filename_ target in
     send (Get url);;
     let content := http_get http url in
     if length_ target <? Z.of_nat (String.length content) then
       throw (OversizedTarget (name_ r))
     else if negb (matchWith ext (hash_ target) content) then
       throw (TargetHashMismatch (name_ r))
     else
       update_fs (write_file (path_ r ++ [name_ r; "targets"; filename_ target])
                             content)
   else mret tt);;
  update (λ r, with_targets (targets_ r ++ [target]) r).

(** The body of the loop over [signed.keys] of a root document. *)
Definition ingest_key (it : Value * Value) : M unit :=
  r ← this;
  keytype ← json (get "keytype" it.2 ≫= asString);
  let key_type := to_lower_copy keytype in
  if negb (String.eqb key_type "rsa") && negb (String.eqb key_type "ed25519") then
    throw (SecurityException (name_ r) ("Unsupported key type: " +:+ keytype))
  else
    keyid ← json (asString it.1);
    public ← json ((get "keyval" it.2 ≫= get "public") ≫= asString);
    update (with_keys (map_insert keyid (mkPublicKey public keytype) (keys_ r))).

(** The body of the loop over [signed.roles] of a root document. *)
Definition ingest_role (it : Value * Value) : M unit :=
  r ← this;
  role ← json (asString it.1);
  requiredThreshold ← json (get "threshold" it.2 ≫= asInt);
  if requiredThreshold <? kMinSignatures then
    throw (IllegalThreshold (name_ r)
             ("The role " +:+ role +:+ " had an illegal signature threshold."))
  else if kMaxSignatures <? requiredThreshold then
    throw (IllegalThreshold (name_ r)
             "root.json contains a role that requires too many signatures")
  else
    update (with_thresholds (<[role := requiredThreshold]> (thresholds_ r))).

Definition initRoot (content : Value) : M unit :=
  json_keys ← json (get "signed" content ≫= get "keys");
  for_each (items json_keys) ingest_key;;
  json_roles ← json (get "signed" content ≫= get "roles");
  for_each (items json_roles) ingest_role.

Definition updateRoot : M unit :=
  content ← getJSON "root.json";
  initRoot content;;
  verifyRole content;;
  saveRole content.

(** [content] is a local value that is not const, so looking up
    ["signed"] and ["version"] creates them when they are missing; the
    operands of [>] are taken from left to right. *)
Definition checkTimestamp : M bool :=
  content ← updateRole "timestamp.json";
  '(content1, signed0) ← json (resolve "signed" content);
  '(signed1, version) ← json (resolve "version" signed0);
  content2 ← json (assign "signed" signed1 content1);
  r ← this;
  '(remembered, old_version) ← json (resolve "version" (timestamp_signed_ r));
  update (with_timestamp_signed remembered);;
  let is_new := gt version old_version in
  '(_, signed2) ← json (resolve "signed" content2);
  update (with_timestamp_signed signed2);;
  mret is_new.

(** The hash chosen for a target: SHA-512 before SHA-256, and a default
    constructed [Hasher] when the entry has neither. *)
Definition select_hash (hashes : Value) : M Hasher :=
  has512 ← json (isMember "sha512" hashes);
  if has512 : bool then
    h ← json (get "sha512" hashes ≫= asString);
    mret (mkHasher sha512 h)
  else
    has256 ← json (isMember "sha256" hashes);
    if has256 : bool then
      h ← json (get "sha256" hashes ≫= asString);
      mret (mkHasher sha256 h)
    else mret Hasher_default.

(** The body of the loop over [signed.targets] of targets.json. *)
Definition ingest_target (t_it : Value * Value) : M unit :=
  hashes ← json (get "hashes" t_it.2);
  hash ← select_hash hashes;
  custom ← json (get "custom" t_it.2);
  filename ← json (asString t_it.1);
  len ← json (get "length" t_it.2 ≫= asUInt64);
  saveTarget (mkTarget custom filename len hash).

(** The body of the loop over the roles that remain in the snapshot. *)
Definition refresh_role (it : Value * Value) : M unit :=
  role ← json (asString it.1);
  new_content ← updateRole role;
  if eq_string it.1 "targets.json" then
    json_targets ← json (get "signed" new_content ≫= get "targets");
    for_each (items json_targets) ingest_target
  else mret tt.

Definition refresh : M unit :=
  update (with_targets []);;
  is_new ← checkTimestamp;
  if is_new : bool then
    content ← updateRole "snapshot.json";
    updated_roles ← json (get "signed" content ≫= get "meta");
    has_root ← json (isMember "root.json" updated_roles);
    updated_roles ←
      (if has_root : bool then
         root ← updateRole "root.json";
         initRoot root;;
         json (removeMember "root.json" updated_roles)
       else mret updated_roles);
    for_each (items updated_roles) refresh_role
  else mret tt.

(** The constructor, run on the object with its members initialised from
    the arguments; [metadata_path] is [config.uptane.metadata_path].
    The call that hands the TLS credentials to the HTTP client has no
    effect on what is modelled. *)
Definition construct_body : M unit :=
  r ← this;
  make_path (path_ r);;
  d ← (λ w, (Done (fs w), w));
  (if fs_exists (path_ r ++ ["root.json"]) d then
     initRoot (parseJSON ext (read_file (path_ r ++ ["root.json"]) d))
   else mret tt);;
  if fs_exists (path_ r ++ ["timestamp.json"]) d then
    update (with_timestamp_signed
              (parseJSON ext (read_file (path_ r ++ ["timestamp.json"]) d)))
  else
    ts ← json (assign "version" (intValue 0) (timestamp_signed_ r));
    update (with_timestamp_signed ts).

Definition construct (name base_url : string) (metadata_path : path)
    (d : FileSystem) (sent : list Request) : Outcome unit * World :=
  construct_body
    (mkWorld (mkTufRepository name (metadata_path ++ [name]) base_url ∅ ∅ [] nullValue)
             d sent).

(** [getTargets()]. *)
Definition getTargets (w : World) : list Target := targets_ (repo w).

End MemberFunctions.

(** ** Notions used to state the properties *)

Section Notions.

Variable ext : Externals.
Variable http : HttpClient.

Definition supported_method (m : string) : bool :=
  let method := to_lower_copy m in
  String.eqb method "rsassa-pss" || String.eqb method "ed25519".

Definition supported_keytype (t : string) : bool :=
  let key_type := to_lower_copy t in
  String.eqb key_type "rsa" || String.eqb key_type "ed25519".

(** A signature verifies under the trusted keys: its method is
    supported, its keyid is trusted, and the key accepts it on the
    canonical form of the signed part. *)
Definition signature_verifies (keys : gmap string PublicKey) (canonical : string)
    (s : Value) : bool :=
  match get "method" s ≫= asString, get "keyid" s ≫= asString with
  | Some m, Some keyid =>
      supported_method m &&
      match keys !! keyid, get "sig" s ≫= asString with
      | Some key, Some sig => VerifySignature ext key sig canonical
      | _, _ => false
      end
  | _, _ => false
  end.

(** The role of a document, the threshold the trust state has for a
    role (0 when it has none), and the signatures of a document. *)
Definition role_of (doc : Value) : option string :=
  to_lower_copy <$> ((get "signed" doc ≫= get "_type") ≫= asString).

Definition threshold_of (r : TufRepository) (role : string) : Z :=
  default 0 (thresholds_ r !! role).

(** The object after [thresholds_[role]] has been read. *)
Definition touch_threshold (role : string) (r : TufRepository) : TufRepository :=
  match thresholds_ r !! role with
  | Some _ => r
  | None => with_thresholds (<[role := 0]> (thresholds_ r)) r
  end.

Definition signatures_of (doc : Value) : list Value :=
  snd <$> items (default nullValue (get "signatures" doc)).

Definition canonical_of (doc : Value) : string :=
  FastWriter_write ext (default nullValue (get "signed" doc)).

(** The object after [verifyRole]: the threshold of the role has been
    read if the document has a role and a signature. *)
Definition after_verifyRole (doc : Value) (r : TufRepository) : TufRepository :=
  match role_of doc, signatures_of doc with
  | Some role, _ :: _ => touch_threshold role r
  | _, _ => r
  end.

(** What [verifyRole] asks of a document: a role, a signature, as many
    signatures as the threshold of the role, and every signature
    verifying. *)
Definition accepted (r : TufRepository) (doc : Value) : Prop :=
  ∃ role, role_of doc = Some role ∧
    signatures_of doc ≠ [] ∧
    threshold_of r role ≤ Z.of_nat (length (signatures_of doc)) ∧
    forallb (signature_verifies (keys_ r) (canonical_of doc)) (signatures_of doc) = true.


(** The entry that [initRoot] makes for a member of [signed.keys], and
    for a member of [signed.roles]; none when the member is refused. *)
Definition key_entry (it : Value * Value) : option (string * PublicKey) :=
  keytype ← get "keytype" it.2 ≫= asString;
  if supported_keytype keytype then
    keyid ← asString it.1;
    public ← (get "keyval" it.2 ≫= get "public") ≫= asString;
    Some (keyid, mkPublicKey public keytype)
  else None.

Definition role_entry (it : Value * Value) : option (string * Z) :=
  role ← asString it.1;
  threshold ← get "threshold" it.2 ≫= asInt;
  if (kMinSignatures <=? threshold) && (threshold <=? kMaxSignatures)
  then Some (role, threshold) else None.

Definition declared_keys (root : Value) : list (Value * Value) :=
  items (default nullValue (get "signed" root ≫= get "keys")).

Definition declared_roles (root : Value) : list (Value * Value) :=
  items (default nullValue (get "signed" root ≫= get "roles")).

(** Keys added one by one, an already trusted keyid keeping its key;
    thresholds assigned one by one. *)
Definition add_keys (entries : list (string * PublicKey)) (keys : gmap string PublicKey)
  : gmap string PublicKey :=
  foldl (λ m e, map_insert e.1 e.2 m) keys entries.

Definition set_thresholds (entries : list (string * Z)) (ts : gmap string Z)
  : gmap string Z :=
  foldl (λ m e, <[e.1 := e.2]> m) ts entries.

(** [ys] are the entries of the first members of [l], all accepted. *)
Definition entries_of_prefix {A B} (f : A → option B) (ys : list B) (l : list A) : Prop :=
  ∃ n, mapM f (take n l) = Some ys.

(** The entries of the members that come before the first member that
    is refused: all of them when none is. *)
Fixpoint entries_before_refusal {A B} (f : A → option B) (l : list A) : list B :=
  match l with
  | [] => []
  | x :: rest =>
      match f x with
      | Some y => y :: entries_before_refusal f rest
      | None => []
      end
  end.

Definition none_refused {A B} (f : A → option B) (l : list A) : bool :=
  forallb (λ x, bool_decide (is_Some (f x))) l.

(** The version a timestamp carries, null when it has none. *)
Definition version_of (signed : Value) : Value :=
  default nullValue (get "version" signed).

Definition signed_of (doc : Value) : Value :=
  default nullValue (get "signed" doc).

(** The signed part of a timestamp as [checkTimestamp] remembers it: the
    member ["version"] has been looked up, and so exists. *)
Definition remembered_of (doc : Value) : Value :=
  match resolve "version" (signed_of doc) with
  | Some (signed, _) => signed
  | None => signed_of doc
  end.

(** The members of the object that no member function assigns. *)
Definition same_identity (r r' : TufRepository) : Prop :=
  name_ r' = name_ r ∧ path_ r' = path_ r ∧ base_url_ r' = base_url_ r.

(** What stays of the object through a refresh once the timestamp has
    been checked: its identity and the remembered timestamp. *)
Definition same_anchor (r r' : TufRepository) : Prop :=
  same_identity r r' ∧ timestamp_signed_ r' = timestamp_signed_ r.

(** The request for the role document that a member of the snapshot
    names, and the requests that download targets. *)
Definition role_request (base : string) (it : Value * Value) (q : Request) : Prop :=
  ∃ k, asString it.1 = Some k ∧ q = GetJson (base +:+ "/" +:+ k).

Definition is_download (q : Request) : Prop := ∃ url, q = Get url.

(** A file holds these bytes, or it cannot be written. *)
Definition holds (p : path) (s : string) (d : FileSystem) : Prop :=
  match opens p d with
  | Some l => files d !! l = Some s
  | None => True
  end.


Definition timestamp_url (r : TufRepository) : string :=
  base_url_ r +:+ "/" +:+ "timestamp.json".

(** The bytes the server returns for a target. *)
Definition served (target : Target) (w : World) : string :=
  http_get http (base_url_ (repo w) +:+ "/" +:+ filename_ target).

(** Where [saveRole] puts a document, and where the constructor looks
    for the document of a role. *)
Definition save_path (r : TufRepository) (doc : Value) : option path :=
  role ← role_of doc; Some (path_ r ++ [name_ r; role +:+ ".json"]).

Definition load_path (r : TufRepository) (role : string) : path :=
  path_ r ++ [role +:+ ".json"].


(** *** The specification's sentences, as properties of one input *)


(** A document whose role has no threshold in the trust state is
    rejected. *)
Definition rejects_undeclared_role (doc : Value) (w : World) : Prop :=
  ∀ role,
    role_of doc = Some role →
    thresholds_ (repo w) !! role = None →
    (verifyRole ext doc w).1 ≠ Done tt.

(** A refused root leaves the trust state as it was, and an ingested
    root makes it exactly what the root declares. *)
Definition ingests_atomically (content : Value) (w : World) : Prop :=
  (∀ e w',
     initRoot content w = (Throw e, w') →
     keys_ (repo w') = keys_ (repo w) ∧
     thresholds_ (repo w') = thresholds_ (repo w)) ∧
  (∀ w' ks rs,
     initRoot content w = (Done tt, w') →
     mapM key_entry (declared_keys content) = Some ks →
     mapM role_entry (declared_roles content) = Some rs →
     keys_ (repo w') = add_keys ks ∅ ∧
     thresholds_ (repo w') = set_thresholds rs ∅).


(** A second refresh against the same server changes no file and
    returns the same targets. *)
Definition refresh_idempotent (w : World) : Prop :=
  ∀ w1 w2,
    refresh ext http w = (Done tt, w1) →
    refresh ext http w1 = (Done tt, w2) →
    fs w2 = fs w1 ∧ getTargets w2 = getTargets w1.


End Notions.

(** ** A concrete instance: toy collaborators, documents and servers *)

Module Vectors.

Definition quote : string := String (Ascii.ascii_of_nat 34) "".

Definition join (sep : string) (l : list string) : string :=
  match l with
  | [] => ""
  | x :: rest => fold_left (λ acc y, acc +:+ sep +:+ y) rest x
  end.

(** A compact writer, without escapes. *)
Fixpoint write (v : Value) : string :=
  match v with
  | nullValue => "null"
  | intValue i => pretty i
  | uintValue u => pretty u
  | stringValue s => quote +:+ s +:+ quote
  | booleanValue b => if b then "true" else "false"
  | arrayValue xs => "[" +:+ join "," (map write xs) +:+ "]"
  | objectValue ms =>
      "{" +:+ join "," (map (λ kv, quote +:+ fst kv +:+ quote +:+ ":" +:+ write (snd kv)) ms)
          +:+ "}"
  end.

(** Toy collaborators: the signature of a message under a key is the
    key's value followed by the message, the digest of a blob is the blob
    itself, and the parser reads every file as null. *)
Definition ext : Externals :=
  {| VerifySignature := λ key sig msg, String.eqb sig (value key +:+ "/" +:+ msg);
     FastWriter_write := write;
     stream_write := write;
     parseJSON := λ _, nullValue;
     matchWith := λ h content, String.eqb (hash_digest h) content |}.

Definition sign (keyid keyval : string) (signed : Value) : Value :=
  objectValue [("keyid", stringValue keyid); ("method", stringValue "ed25519");
               ("sig", stringValue (keyval +:+ "/" +:+ write signed))].

Definition document (signed : Value) (signatures : list Value) : Value :=
  objectValue [("signatures", arrayValue signatures); ("signed", signed)].

Definition signed_by_k1 (signed : Value) : Value :=
  document signed [sign "k1" "pub1" signed].

Definition key_decl (keytype public : string) : Value :=
  objectValue [("keytype", stringValue keytype);
               ("keyval", objectValue [("public", stringValue public)])].

Definition threshold_decl (t : Z) : Value :=
  objectValue [("threshold", intValue t)].

Definition timestamp_doc (version : Z) : Value :=
  signed_by_k1 (objectValue [("_type", stringValue "Timestamp");
                             ("version", intValue version)]).

Definition snapshot_doc (meta : list (string * Value)) : Value :=
  signed_by_k1 (objectValue [("_type", stringValue "Snapshot");
                             ("meta", objectValue meta);
                             ("version", intValue 2)]).

Definition firmware : Value :=
  objectValue [("hashes", objectValue [("sha256", stringValue "payload!")]);
               ("length", intValue 8)].

Definition targets_signed : Value :=
  objectValue [("_type", stringValue "Targets");
               ("targets", objectValue [("firmware.bin", firmware)]);
               ("version", intValue 2)].

Definition targets_doc : Value := signed_by_k1 targets_signed.

(** A root that declares the single key k2 and is signed by k2 alone. *)
Definition rotated_root_signed : Value :=
  objectValue [("_type", stringValue "Root");
               ("keys", objectValue [("k2", key_decl "ed25519" "pub2")]);
               ("roles", objectValue [("root", threshold_decl 1)]);
               ("version", intValue 2)].

Definition rotated_root : Value :=
  document rotated_root_signed [sign "k2" "pub2" rotated_root_signed].

(** A root whose second key has a key type that is not supported. *)
Definition bad_root : Value :=
  signed_by_k1
    (objectValue [("_type", stringValue "Root");
                  ("keys", objectValue [("k2", key_decl "ed25519" "pub2");
                                        ("k3", key_decl "dsa" "pub3")]);
                  ("roles", objectValue [("root", threshold_decl 1)]);
                  ("version", intValue 2)]).

Definition version_entry : Value := objectValue [("version", intValue 2)].

Definition base : string := "http://server".

(** A server with a timestamp at version 2, a snapshot that lists
    [meta], the targets document, the root [root] and the firmware
    blob. *)
Definition server (root : Value) (meta : list (string * Value)) : HttpClient :=
  {| http_getJson := λ url,
       if String.eqb url (base +:+ "/timestamp.json") then timestamp_doc 2
       else if String.eqb url (base +:+ "/snapshot.json") then snapshot_doc meta
       else if String.eqb url (base +:+ "/targets.json") then targets_doc
       else if String.eqb url (base +:+ "/root.json") then root
       else nullValue;
     http_get := λ url,
       if String.eqb url (base +:+ "/firmware.bin") then "payload!" else "" |}.

Definition plain_server : HttpClient :=
  server rotated_root [("targets.json", version_entry)].

(** The snapshot lists root.json; the served root is signed by its own
    key k2 alone, or by the trusted key k1. *)
Definition rotating_server : HttpClient :=
  server rotated_root
         [("root.json", version_entry); ("targets.json", version_entry)].


(** A server that answers the request for the snapshot with an older
    timestamp document. *)
Definition replaying_server : HttpClient :=
  {| http_getJson := λ url,
       if String.eqb url (base +:+ "/timestamp.json") then timestamp_doc 2
       else if String.eqb url (base +:+ "/snapshot.json") then timestamp_doc 1
       else nullValue;
     http_get := λ _, "" |}.

Definition trusted_keys : gmap string PublicKey :=
  {["k1" := mkPublicKey "pub1" "ed25519"]}.

Definition all_roles (t : Z) : gmap string Z :=
  <["root" := t]> (<["snapshot" := t]> (<["targets" := t]> {["timestamp" := t]})).

Definition director (thresholds : gmap string Z) (remembered : Z) : TufRepository :=
  mkTufRepository "director" ["meta"; "director"] base trusted_keys thresholds []
                  (objectValue [("version", intValue remembered)]).

(** The metadata directory as the constructor leaves it, and with the
    directories that [saveRole] and [saveTarget] write into. *)
Definition empty_fs : FileSystem := mkFileSystem ∅ ∅ [].

Definition bare_fs : FileSystem :=
  (create_directories ["meta"; "director"] empty_fs).2.

Definition prepared_fs : FileSystem :=
  (create_directories ["meta"; "director"; "director"; "targets"] empty_fs).2.

Definition start : World := mkWorld (director (all_roles 1) 0) bare_fs [].

Definition prepared : World := mkWorld (director (all_roles 1) 0) prepared_fs [].

Definition strict : World := mkWorld (director (all_roles 2) 0) bare_fs [].

Definition seen5 : World := mkWorld (director (all_roles 1) 5) bare_fs [].


(** The collaborators with a parser that reads back what the writer
    wrote of the rotated root. *)
Definition reading_ext : Externals :=
  {| VerifySignature := VerifySignature ext;
     FastWriter_write := write;
     stream_write := write;
     parseJSON := λ bytes,
       if String.eqb bytes (write rotated_root) then rotated_root else nullValue;
     matchWith := matchWith ext |}.


Definition undeclared_signed : Value :=
  objectValue [("_type", stringValue "Delegation"); ("version", intValue 1)].

Definition firmware_target : Target :=
  mkTarget nullValue "firmware.bin" 8 (mkHasher sha256 "payload!").

Definition empty_target : Target :=
  mkTarget nullValue "nothing.bin" 0 (mkHasher sha256 "no such digest").

End Vectors.

(** ** Notions for the further properties *)

Section FurtherNotions.

Variable ext : Externals.
Variable http : HttpClient.

(** The world once a request has been sent. *)
Definition after_request (q : Request) (w : World) : World :=
  mkWorld (repo w) (fs w) (requests w ++ [q]).

(** The world once the threshold of a role has been read. *)
Definition after_threshold_read (role : string) (w : World) : World :=
  mkWorld (touch_threshold role (repo w)) (fs w) (requests w).

(** The world whose trust state has taken in key entries and role
    entries. *)
Definition with_trust (ks : list (string * PublicKey)) (rs : list (string * Z))
    (w : World) : World :=
  mkWorld (with_thresholds (set_thresholds rs (thresholds_ (repo w)))
             (with_keys (add_keys ks (keys_ (repo w))) (repo w)))
          (fs w) (requests w).

(** The world once [initRoot] has taken in one key entry, and one role
    entry. *)
Definition take_key (e : string * PublicKey) (w : World) : World :=
  mkWorld (with_keys (map_insert e.1 e.2 (keys_ (repo w))) (repo w)) (fs w) (requests w).

Definition take_role (e : string * Z) (w : World) : World :=
  mkWorld (with_thresholds (<[e.1 := e.2]> (thresholds_ (repo w))) (repo w))
          (fs w) (requests w).

(** The URL that [getJSON] asks for, and the one [saveTarget] downloads. *)
Definition role_url (r : TufRepository) (role : string) : string :=
  base_url_ r +:+ "/" +:+ role.

(** The file that [saveTarget] writes. *)
Definition target_path (r : TufRepository) (t : Target) : path :=
  path_ r ++ [name_ r; "targets"; filename_ t].

(** The two checks of [saveTarget], on what the server holds for the
    target. *)
Definition passes_checks (base : string) (t : Target) : Prop :=
  Z.of_nat (String.length (http_get http (base +:+ "/" +:+ filename_ t))) ≤ length_ t ∧
  matchWith ext (hash_ t) (http_get http (base +:+ "/" +:+ filename_ t)) = true.

(** A target that had anything to download has been asked for among
    these requests, and has passed the checks. *)
Definition checked (base : string) (sent : list Request) (t : Target) : Prop :=
  0 < length_ t →
  Get (base +:+ "/" +:+ filename_ t) ∈ sent ∧ passes_checks base t.

(** A step of a refresh that is not the ingestion of a root: the base
    URL and the trusted keys stay, requests are only added, and the
    targets it lists in addition have been downloaded by these requests
    and checked. *)
Definition lists_checked_targets (w w' : World) : Prop :=
  base_url_ (repo w') = base_url_ (repo w) ∧
  keys_ (repo w') = keys_ (repo w) ∧
  ∃ added sent, targets_ (repo w') = targets_ (repo w) ++ added ∧
                requests w' = requests w ++ sent ∧
                Forall (checked (base_url_ (repo w)) sent) added.

(** The object as the constructor's initialiser list leaves it. *)
Definition blank (name base_url : string) (metadata_path : path) : TufRepository :=
  mkTufRepository name (metadata_path ++ [name]) base_url ∅ ∅ [] nullValue.

End FurtherNotions.

(** ** The test driver: tests/uptane_vector_tests.cc *)

(** [asBool()], as jsoncpp 1.x defines it. *)
Definition asBool (v : Value) : option bool :=
  match v with
  | nullValue => Some false
  | booleanValue b => Some b
  | intValue i => Some (negb (i =? 0))
  | uintValue u => Some (negb (u =? 0))
  | stringValue _ | arrayValue _ | objectValue _ => None
  end.

(** Modelled from the spec: the exception classes are declared in
    exceptions.h, which is not among the sources; each error carries the
    repository name, which [getName()] returns.  The exceptions of the
    libraries are not among them and have no name. *)
Definition getName (e : Exception) : string :=
  match e with
  | SecurityException name _ => name
  | IllegalThreshold name _ => name
  | OversizedTarget name => name
  | TargetHashMismatch name => name
  | LogicError | filesystem_error => ""
  end.

(** [typeid(C) == typeid( *e )] for the three classes that [match_error]
    tells apart. *)
Definition is_SecurityException (e : Exception) : bool :=
  match e with SecurityException _ _ => true | _ => false end.

Definition is_TargetHashMismatch (e : Exception) : bool :=
  match e with TargetHashMismatch _ => true | _ => false end.

Definition is_OversizedTarget (e : Exception) : bool :=
  match e with OversizedTarget _ => true | _ => false end.

Section Driver.

Variable ext : Externals.

(** The server that the tests talk to. *)
Variable http : HttpClient.

(** [e->what()]: the message of an exception, which for two of the
    classes is fixed in exceptions.h. *)
Variable what : Exception → string.

(** [config.uptane.metadata_path] of a default constructed [Config]. *)
Variable metadata_path : path.

(** An entry of [errors] is passed over when its message begins with the
    name of a class that the exception does not have. *)
Definition passed_over (msg : string) (e : Exception) : bool :=
  if String.prefix "SecurityException" msg && negb (is_SecurityException e) then true
  else if String.prefix "TargetHashMismatch" msg && negb (is_TargetHashMismatch e) then true
  else if String.prefix "OversizedTarget" msg && negb (is_OversizedTarget e) then true
  else false.

(** The loop of [match_error]; the strings it collects for its report
    are left out.  [None] stands for a [Json::LogicError] that leaves the
    function. *)
Fixpoint match_entries (entries : list (Value * Value)) (e : Exception) : option bool :=
  match entries with
  | [] => Some false
  | it :: rest =>
      key ← asString it.1;
      error_msg ← get "error_msg" it.2 ≫= asString;
      if passed_over error_msg e then match_entries rest e
      else if String.eqb key (getName e) then
        if String.eqb error_msg (what e) then Some true
        else match_entries rest e
      else match_entries rest e
  end.

Definition match_error (errors : Value) (e : Exception) : option bool :=
  match_entries (items errors) e.

(** The body of the [try] block of [run_test]. *)
Definition run (url : string) (d : FileSystem) : Outcome unit * World :=
  match construct ext "director" url metadata_path d [] with
  | (Done _, w) => (updateRoot ext http;; refresh ext http) w
  | (Throw e, w) => (Throw e, w)
  end.

(** [run_test]: the verdict on a vector, [None] when a
    [Json::LogicError] leaves the function, and the store afterwards.
    An exception of a library that the [try] block raises is caught by
    [catch(...)]. *)
Definition run_test (vector : Value) (d : FileSystem) : option bool * FileSystem :=
  match get "repo" vector ≫= asString with
  | None => (None, d)
  | Some repo_name =>
      let url := "http://127.0.0.1:8080/" +:+ repo_name +:+ "/director/repo" in
      let result := run url d in
      (match result.1 with
       | Done _ => get "is_success" vector ≫= asBool
       | Throw LogicError | Throw filesystem_error => Some false
       | Throw e =>
           is_success ← get "is_success" vector ≫= asBool;
           if is_success : bool then Some false
           else errors ← get "errors" vector; match_error errors e
       end,
       fs result.2)
  end.

End Driver.

(** ** Further concrete documents *)

Module Cases.

Import Vectors.

Definition unsigned : Value := document targets_signed [].

(** A signature made with another key value than the one trusted for
    k1, a signature with a method that is not supported, and a signature
    of a key that is not trusted. *)
Definition forged : Value := sign "k1" "other" targets_signed.

Definition dsa_signed : Value :=
  objectValue [("keyid", stringValue "k1"); ("method", stringValue "DSA");
               ("sig", stringValue ("pub1/" +:+ write targets_signed))].

Definition stranger : Value := sign "k9" "pub9" targets_signed.

Definition good : Value := sign "k1" "pub1" targets_signed.


Definition k2_entry : string * PublicKey := ("k2"%string, mkPublicKey "pub2" "ed25519").

(** A server whose root declares the key k2 and carries a forged
    signature of k2, and a server whose timestamp carries a forged
    signature of k1. *)
Definition forged_root_server : HttpClient :=
  server (document rotated_root_signed [sign "k2" "other" rotated_root_signed]) [].

Definition timestamp_signed_2 : Value :=
  objectValue [("_type", stringValue "Timestamp"); ("version", intValue 2)].

Definition forged_timestamp_server : HttpClient :=
  {| http_getJson := λ url,
       if String.eqb url (base +:+ "/timestamp.json")
       then document timestamp_signed_2 [sign "k1" "other" timestamp_signed_2]
       else nullValue;
     http_get := λ _, "" |}.

(** The firmware with a declared length of 4, and with a digest that
    the served bytes do not have. *)
Definition short_target : Target :=
  mkTarget nullValue "firmware.bin" 4 (mkHasher sha256 "payload!").

Definition mismatched_target : Target :=
  mkTarget nullValue "firmware.bin" 8 (mkHasher sha256 "something else").

(** A root that declares the key k1 and the threshold 1 for the four
    roles, stored without any signature, and a stored timestamp of
    version 7. *)
Definition first_root : Value :=
  document
    (objectValue [("_type", stringValue "Root");
                  ("keys", objectValue [("k1", key_decl "ed25519" "pub1")]);
                  ("roles", objectValue [("root", threshold_decl 1);
                                         ("snapshot", threshold_decl 1);
                                         ("targets", threshold_decl 1);
                                         ("timestamp", threshold_decl 1)]);
                  ("version", intValue 1)])
    [].

(** The collaborators of the vectors with a parser that knows the bytes
    of these two documents. *)
Definition store_ext : Externals :=
  {| VerifySignature := VerifySignature ext;
     FastWriter_write := write;
     stream_write := write;
     parseJSON := λ bytes,
       if String.eqb bytes "the stored root" then first_root
       else if String.eqb bytes "the stored timestamp" then timestamp_doc 7
       else nullValue;
     matchWith := matchWith ext |}.

Definition stored : FileSystem :=
  write_file ["meta"; "director"; "root.json"] "the stored root"
    (write_file ["meta"; "director"; "timestamp.json"] "the stored timestamp" bare_fs).

(** A store where a regular file has the name of the metadata
    directory. *)
Definition blocked : FileSystem := write_file ["meta"] "not a directory" empty_fs.

(** The server of the vectors behind the URL that the test driver
    builds for the repository full, with a root of one's choice. *)
Definition driven_url : string := "http://127.0.0.1:8080/full/director/repo".

Definition driven_server (root : Value) : HttpClient :=
  {| http_getJson := λ url,
       if String.eqb url (driven_url +:+ "/timestamp.json") then timestamp_doc 2
       else if String.eqb url (driven_url +:+ "/snapshot.json")
            then snapshot_doc [("targets.json", version_entry)]
       else if String.eqb url (driven_url +:+ "/targets.json") then targets_doc
       else if String.eqb url (driven_url +:+ "/root.json") then root
       else nullValue;
     http_get := λ url,
       if String.eqb url (driven_url +:+ "/firmware.bin") then "payload!" else "" |}.

(** The first root, signed by the key k1 that it declares. *)
Definition signed_first_root : Value :=
  signed_by_k1 (default nullValue (get "signed" first_root)).

(** Messages of the exceptions: the one given to the constructor, and a
    fixed one for the two classes that take none. *)
Definition what (e : Exception) : string :=
  match e with
  | SecurityException _ msg => msg
  | IllegalThreshold _ msg => msg
  | OversizedTarget _ => "oversized target"
  | TargetHashMismatch _ => "hash mismatch"
  | LogicError | filesystem_error => ""
  end.

Definition vector_expecting (is_success : bool) (errors : list (string * Value)) : Value :=
  objectValue [("errors", objectValue errors);
               ("is_success", booleanValue is_success);
               ("repo", stringValue "full")].

Definition error_entry (msg : string) : Value :=
  objectValue [("error_msg", stringValue msg)].

(** A target whose name leads out of the targets directory, and a
    server that holds it. *)
Definition climbing_target : Target :=
  mkTarget nullValue "../timestamp.json" 16 (mkHasher sha256 "not a timestamp!").

Definition climbing_server : HttpClient :=
  {| http_getJson := λ _, nullValue;
     http_get := λ url,
       if String.eqb url (base +:+ "/../timestamp.json") then "not a timestamp!"
       else "" |}.

(** An entry of targets.json that gives both digests, of length 0. *)
Definition both_hashes : Value * Value :=
  (stringValue "blob.bin",
   objectValue [("hashes", objectValue [("sha256", stringValue "short digest");
                                        ("sha512", stringValue "long digest")]);
                ("length", intValue 0)]).

End Cases.

(** * Properties *)

Ltac munfold :=
  unfold json, this, update, update_fs, send, throw in *;
  change (@mbind M M_bind) with (@bind) in *;
  change (@mret M M_ret) with (@ret) in *;
  unfold bind, ret in *.

Ltac bool_cases :=
  repeat match goal with
    | H : context [String.eqb ?a ?b] |- _ => destruct (String.eqb a b)
    | H : context [VerifySignature ?e ?k ?s ?c] |- _ =>
        destruct (VerifySignature e k s c)
    end.

(** ** Validation of a role document *)

Section Validation.

Variable ext : Externals.

Lemma check_signature_spec canonical it w o w' :
  check_signature ext canonical it w = (o, w') →
  w' = w ∧
  (o = Done tt ↔ signature_verifies ext (keys_ (repo w)) canonical it.2 = true).
Proof.
  unfold check_signature, signature_verifies, supported_method. munfold.
  intros H.
  repeat (case_match; simplify_eq/=); (split; [done|]); bool_cases; done.
Qed.

Lemma check_loop_spec canonical l w o w' :
  for_each l (check_signature ext canonical) w = (o, w') →
  w' = w ∧
  (o = Done tt ↔
     forallb (signature_verifies ext (keys_ (repo w)) canonical) (snd <$> l) = true).
Proof.
  revert w o w'. induction l as [|it l IH]; intros w o w' H; simpl in *.
  - munfold. by simplify_eq.
  - munfold. destruct (check_signature ext canonical it w) as [o1 w1] eqn:E.
    apply check_signature_spec in E as [-> E].
    destruct o1 as [[]|e].
    + apply IH in H as [-> H]. split; [done|].
      rewrite H. destruct E as [E _]. rewrite E; done.
    + simplify_eq. split; [done|]. split; [done|].
      intros [H1 _]%andb_prop. apply E in H1. done.
Qed.

Lemma size_items v : size v = Z.of_nat (length (items v)).
Proof.
  destruct v; simpl; try done.
  - generalize 0%nat. induction elems as [|x l IH]; intros n; simpl; [done|].
    f_equal. specialize (IH (S n)). lia.
  - by rewrite length_map.
Qed.

(** What [verifyRole] decides, and what it leaves behind: nothing but,
    for a role without a threshold, the entry that reading it creates. *)
Lemma verifyRole_spec doc w o w' :
  verifyRole ext doc w = (o, w') →
  fs w' = fs w ∧ requests w' = requests w ∧
  repo w' = after_verifyRole doc (repo w) ∧
  (o = Done tt ↔ accepted ext (repo w) doc).
Proof.
  unfold verifyRole, accepted, after_verifyRole, touch_threshold, role_of,
    signatures_of, canonical_of, thresholds_at, threshold_of.
  intros H. munfold.
  destruct (get "signed" doc) as [signed|] eqn:Es; simpl in *;
    [|simplify_eq; repeat split; try done; intros (? & ? & _); done].
  destruct (get "_type" signed ≫= asString) as [type_|] eqn:Et; simpl in *;
    [|simplify_eq; repeat split; try done; intros (? & ? & _); done].
  destruct (get "signatures" doc) as [sigs|] eqn:Eg; simpl in *;
    [|destruct doc; done].
  pose proof (size_items sigs) as Hsize.
  rewrite <- (length_fmap snd) in Hsize.
  destruct (size sigs =? 0) eqn:E0.
  { apply Z.eqb_eq in E0. simplify_eq.
    destruct ((items sigs).*2) eqn:El; [|simpl in *; lia].
    repeat split; try done. intros (? & ? & Hne & _). done. }
  apply Z.eqb_neq in E0.
  destruct ((items sigs).*2) as [|s0 rest] eqn:El; [simpl in *; lia|].
  destruct (thresholds_ (repo w) !! to_lower_copy type_) as [t|] eqn:Eth; simpl in *.
  - destruct (size sigs <? t) eqn:Elt.
    + simplify_eq. repeat split; try done. intros (? & ? & _ & Hle & _).
      simplify_eq. rewrite Eth in Hle. simpl in Hle. apply Z.ltb_lt in Elt. lia.
    + apply check_loop_spec in H as [-> H]. rewrite El in H.
      repeat split; try done.
      * intros Ho. exists (to_lower_copy type_). rewrite Eth. simpl.
        apply Z.ltb_ge in Elt. repeat split; try done; [lia|by apply H].
      * intros (? & ? & _ & _ & Hall). by apply H.
  - destruct (size sigs <? 0) eqn:Elt; [apply Z.ltb_lt in Elt; lia|].
    apply check_loop_spec in H as [-> H]. rewrite El in H. simpl in *.
    repeat split; try done.
    + intros Ho. exists (to_lower_copy type_). rewrite Eth. simpl.
      repeat split; try done; try lia. by apply H.
    + intros (? & ? & _ & _ & Hall). by apply H.
Qed.


(** C7 (amended): the validation routine does not look the role up
    before it compares: for a document whose role has no threshold in
    the trust state the threshold reads as 0, so the document is accepted
    exactly when it has a signature and all its signatures verify; the
    read leaves an entry with threshold 0 for that role. *)
Theorem undeclared_role_has_threshold_zero doc w role :
  role_of doc = Some role →
  thresholds_ (repo w) !! role = None →
  ((verifyRole ext doc w).1 = Done tt ↔
     signatures_of doc ≠ [] ∧
     forallb (signature_verifies ext (keys_ (repo w)) (canonical_of ext doc))
             (signatures_of doc) = true) ∧
  (signatures_of doc ≠ [] →
     thresholds_ (repo (verifyRole ext doc w).2) !! role = Some 0).
Proof.
  intros Hr Hth.
  destruct (verifyRole ext doc w) as [o w'] eqn:E. simpl.
  apply verifyRole_spec in E as (_ & _ & Hrepo & H). split.
  - rewrite H. unfold accepted. split.
    + intros (? & ? & ? & ? & ?). done.
    + intros [Hne Hall]. exists role. repeat split; try done.
      unfold threshold_of. rewrite Hth. simpl. lia.
  - intros Hne. rewrite Hrepo. unfold after_verifyRole, touch_threshold.
    rewrite Hr, Hth. destruct (signatures_of doc); [done|].
    simpl. apply lookup_insert_eq.
Qed.

End Validation.



(** C7 (as stated) fails: a document of type Delegation, a role for
    which the trust state has no threshold, is accepted with one valid
    signature. *)
Lemma undeclared_role_is_accepted :
  ¬ rejects_undeclared_role Vectors.ext
      (Vectors.signed_by_k1 Vectors.undeclared_signed) Vectors.start.
Proof.
  intros H. apply (H "delegation"%string); vm_compute; reflexivity.
Qed.

(** The document of type Delegation: accepted, and afterwards the
    thresholds hold the entry 0 for delegation. *)
Lemma undeclared_role_has_threshold_zero_witness :
  role_of (Vectors.signed_by_k1 Vectors.undeclared_signed) = Some "delegation"%string ∧
  thresholds_ (repo Vectors.start) !! "delegation"%string = None ∧
  (verifyRole Vectors.ext (Vectors.signed_by_k1 Vectors.undeclared_signed)
     Vectors.start).1 = Done tt ∧
  thresholds_ (repo (verifyRole Vectors.ext
                       (Vectors.signed_by_k1 Vectors.undeclared_signed)
                       Vectors.start).2) !! "delegation"%string = Some 0.
Proof.
  assert (H1 : role_of (Vectors.signed_by_k1 Vectors.undeclared_signed)
               = Some "delegation"%string) by (vm_compute; reflexivity).
  assert (H2 : thresholds_ (repo Vectors.start) !! "delegation"%string = None)
    by (vm_compute; reflexivity).
  destruct (undeclared_role_has_threshold_zero Vectors.ext _ _ _ H1 H2) as [Ha Hb].
  split; [exact H1|]. split; [exact H2|]. split.
  - apply Ha. split; [done|]. vm_compute; reflexivity.
  - apply Hb. done.
Defined.

(** ** Ingestion of a root document *)

Section RootIngestion.

Lemma with_keys_same r : with_keys (keys_ r) r = r.
Proof. by destruct r. Qed.

Lemma with_thresholds_same r : with_thresholds (thresholds_ r) r = r.
Proof. by destruct r. Qed.

Lemma ingest_key_spec it w o w' :
  ingest_key it w = (o, w') →
  fs w' = fs w ∧ requests w' = requests w ∧
  match key_entry it with
  | Some e =>
      o = Done tt ∧
      repo w' = with_keys (map_insert e.1 e.2 (keys_ (repo w))) (repo w)
  | None => (∃ e, o = Throw e) ∧ repo w' = repo w
  end.
Proof.
  unfold ingest_key, key_entry, supported_keytype. munfold. intros H.
  repeat (case_match; simplify_option_eq); repeat split; eauto; bool_cases; done.
Qed.

Lemma ingest_role_spec it w o w' :
  ingest_role it w = (o, w') →
  fs w' = fs w ∧ requests w' = requests w ∧
  match role_entry it with
  | Some e =>
      o = Done tt ∧
      repo w' = with_thresholds (<[e.1 := e.2]> (thresholds_ (repo w))) (repo w)
  | None => (∃ e, o = Throw e) ∧ repo w' = repo w
  end.
Proof.
  unfold ingest_role, role_entry. munfold. intros H.
  repeat (case_match; simplify_eq/=); repeat split; eauto; lia.
Qed.

Lemma ingest_keys_spec l w o w' :
  for_each l ingest_key w = (o, w') →
  ∃ ks, entries_of_prefix key_entry ks l ∧
    repo w' = with_keys (add_keys ks (keys_ (repo w))) (repo w) ∧
    fs w' = fs w ∧ requests w' = requests w ∧
    (o = Done tt → mapM key_entry l = Some ks).
Proof.
  revert w o w'. induction l as [|it l IH]; intros w o w' H; simpl in H.
  - munfold. simplify_eq. exists []. split; [by exists 0%nat|].
    unfold add_keys. simpl. by rewrite with_keys_same.
  - munfold. destruct (ingest_key it w) as [o1 w1] eqn:E.
    apply ingest_key_spec in E as (Hfs & Hrq & E).
    destruct (key_entry it) as [e|] eqn:Ek.
    + destruct E as [-> Hr]. apply IH in H as (ks & [n Hn] & Hr' & Hfs' & Hrq' & Hd).
      exists (e :: ks). split; [|split; [|split; [congruence|split; [congruence|]]]].
      * exists (S n). simpl. rewrite Ek. simpl. by rewrite Hn.
      * rewrite Hr', Hr. by destruct (repo w).
      * intros Ho. simpl. rewrite Ek. simpl. by rewrite (Hd Ho).
    + destruct E as [[e ->] Hr]. simplify_eq. exists [].
      split; [by exists 0%nat|]. unfold add_keys. simpl.
      rewrite Hr. by rewrite with_keys_same.
Qed.

Lemma ingest_roles_spec l w o w' :
  for_each l ingest_role w = (o, w') →
  ∃ rs, entries_of_prefix role_entry rs l ∧
    repo w' = with_thresholds (set_thresholds rs (thresholds_ (repo w))) (repo w) ∧
    fs w' = fs w ∧ requests w' = requests w ∧
    (o = Done tt → mapM role_entry l = Some rs).
Proof.
  revert w o w'. induction l as [|it l IH]; intros w o w' H; simpl in H.
  - munfold. simplify_eq. exists []. split; [by exists 0%nat|].
    unfold set_thresholds. simpl. by rewrite with_thresholds_same.
  - munfold. destruct (ingest_role it w) as [o1 w1] eqn:E.
    apply ingest_role_spec in E as (Hfs & Hrq & E).
    destruct (role_entry it) as [e|] eqn:Ek.
    + destruct E as [-> Hr]. apply IH in H as (rs & [n Hn] & Hr' & Hfs' & Hrq' & Hd).
      exists (e :: rs). split; [|split; [|split; [congruence|split; [congruence|]]]].
      * exists (S n). simpl. rewrite Ek. simpl. by rewrite Hn.
      * rewrite Hr', Hr. by destruct (repo w).
      * intros Ho. simpl. rewrite Ek. simpl. by rewrite (Hd Ho).
    + destruct E as [[e ->] Hr]. simplify_eq. exists [].
      split; [by exists 0%nat|]. unfold set_thresholds. simpl.
      rewrite Hr. by rewrite with_thresholds_same.
Qed.

Lemma add_keys_keeps ks (keys : gmap string PublicKey) k pk :
  keys !! k = Some pk → add_keys ks keys !! k = Some pk.
Proof.
  revert keys. induction ks as [|[k' pk'] ks IH]; intros keys H; simpl; [done|].
  apply IH. unfold map_insert. simpl. destruct (keys !! k') eqn:E; [done|].
  rewrite lookup_insert_ne; [done|]. intros ->. congruence.
Qed.

(** [initRoot] changes nothing but the trusted keys and the thresholds. *)
Lemma initRoot_frame content w o w' :
  initRoot content w = (o, w') →
  same_anchor (repo w) (repo w') ∧ fs w' = fs w ∧ requests w' = requests w.
Proof.
  unfold initRoot. intros H. munfold.
  destruct (get "signed" content ≫= get "keys") as [json_keys|]; simpl in *;
    [|by simplify_eq].
  destruct (for_each (items json_keys) ingest_key w) as [o1 w1] eqn:E1.
  apply ingest_keys_spec in E1 as (ks & _ & Hr1 & Hfs1 & Hrq1 & _).
  assert (Ha1 : same_anchor (repo w) (repo w1)) by (by rewrite Hr1).
  destruct o1 as [[]|e]; [|by simplify_eq].
  destruct (get "signed" content ≫= get "roles") as [json_roles|]; simpl in *;
    [|by simplify_eq].
  apply ingest_roles_spec in H as (rs & _ & Hr2 & Hfs2 & Hrq2 & _).
  repeat split; try congruence; rewrite Hr2; simpl; by destruct Ha1 as ((? & ? & ?) & ?).
Qed.

Lemma world_eq w w' :
  repo w' = repo w → fs w' = fs w → requests w' = requests w → w' = w.
Proof. destruct w, w'. simpl. by intros -> -> ->. Qed.

Lemma ingest_key_accepts it w e :
  key_entry it = Some e → ingest_key it w = (Done tt, take_key e w).
Proof.
  intros He. destruct (ingest_key it w) as [o w'] eqn:E.
  apply ingest_key_spec in E as (Hfs & Hrq & E). rewrite He in E.
  destruct E as [-> Hr]. f_equal. by apply world_eq.
Qed.

Lemma ingest_role_accepts it w e :
  role_entry it = Some e → ingest_role it w = (Done tt, take_role e w).
Proof.
  intros He. destruct (ingest_role it w) as [o w'] eqn:E.
  apply ingest_role_spec in E as (Hfs & Hrq & E). rewrite He in E.
  destruct E as [-> Hr]. f_equal. by apply world_eq.
Qed.

Lemma take_keys ks w :
  foldl (λ w e, take_key e w) w ks = with_trust ks [] w.
Proof.
  revert w. induction ks as [|e ks IH]; intros w; simpl.
  - unfold with_trust. simpl. destruct w as [[] ? ?]. done.
  - rewrite IH. unfold with_trust, take_key. simpl. done.
Qed.

Lemma take_roles rs ks w :
  foldl (λ w e, take_role e w) (with_trust ks [] w) rs = with_trust ks rs w.
Proof.
  assert (H : ∀ rs w0, foldl (λ w e, take_role e w) w0 rs =
    mkWorld (with_thresholds (set_thresholds rs (thresholds_ (repo w0))) (repo w0))
            (fs w0) (requests w0)).
  { clear. induction rs as [|e rs IH]; intros w0; simpl.
    - destruct w0 as [[] ? ?]. done.
    - rewrite IH. done. }
  rewrite H. done.
Qed.

Lemma ingest_key_refuses it w :
  key_entry it = None → ∃ x, ingest_key it w = (Throw x, w).
Proof.
  intros He. destruct (ingest_key it w) as [o w'] eqn:E.
  apply ingest_key_spec in E as (Hfs & Hrq & E). rewrite He in E.
  destruct E as [[x ->] Hr]. exists x. f_equal. by apply world_eq.
Qed.

Lemma ingest_role_refuses it w :
  role_entry it = None → ∃ x, ingest_role it w = (Throw x, w).
Proof.
  intros He. destruct (ingest_role it w) as [o w'] eqn:E.
  apply ingest_role_spec in E as (Hfs & Hrq & E). rewrite He in E.
  destruct E as [[x ->] Hr]. exists x. f_equal. by apply world_eq.
Qed.

Lemma none_refused_mapM {A B} (f : A → option B) (l : list A) :
  none_refused f l = true ↔ mapM f l = Some (entries_before_refusal f l).
Proof.
  induction l as [|x l IH]; simpl; [done|].
  destruct (f x) as [y|] eqn:E; csimpl; [|done].
  rewrite IH.
  destruct (mapM f l) as [ys|]; simpl; [|done].
  unfold mret, option_ret. split; intros ?; by simplify_eq.
Qed.

(** A loop whose body takes in one entry per member and throws on a
    member that is refused, without any other effect: it takes in the
    entries before the first refused member, and ends normally exactly
    when no member is refused. *)
Lemma loop_until_refused {A B} (body : A → M unit) (entry : A → option B)
    (take : B → World → World) :
  (∀ it w e, entry it = Some e → body it w = (Done tt, take e w)) →
  (∀ it w, entry it = None → ∃ x, body it w = (Throw x, w)) →
  ∀ l w, ∃ o,
    for_each l body w
      = (o, foldl (λ w e, take e w) w (entries_before_refusal entry l)) ∧
    (o = Done tt ↔ none_refused entry l = true).
Proof.
  intros Hacc Href. induction l as [|it l IH]; intros w; simpl.
  - exists (Done tt). done.
  - munfold. destruct (entry it) as [e|] eqn:Ee.
    + rewrite (Hacc _ _ _ Ee). simpl. apply IH.
    + destruct (Href _ w Ee) as [x ->]. exists (Throw x). done.
Qed.

Lemma roles_readable_with_keys content :
  is_Some (get "signed" content ≫= get "keys") ↔
  is_Some (get "signed" content ≫= get "roles").
Proof.
  destruct (get "signed" content) as [signed|]; simpl; [|done].
  destruct signed; simpl; split; intros [? ?]; by eauto.
Qed.

(** C2 (amended): ingesting a root document changes the live trust
    state in place, entry by entry, and is not atomic.  The keys of the
    members of [signed.keys] that come before the first refused one are
    added to the trusted keys (a keyid that was already trusted keeps its
    key), and, when no key is refused, the thresholds of the members of
    [signed.roles] that come before the first refused one are assigned:
    this is the trust state afterwards, whether ingestion ends normally
    or with the error of the refused member, and nothing else of the
    world changes.  Every key trusted before is still trusted.  Ingestion
    ends normally exactly when the two tables can be read and no member
    is refused, and then every declared key and role has been taken
    in. *)
Theorem initRoot_updates_in_place content w o w' :
  initRoot content w = (o, w') →
  let ks := entries_before_refusal key_entry (declared_keys content) in
  let rs := if none_refused key_entry (declared_keys content)
            then entries_before_refusal role_entry (declared_roles content)
            else [] in
  repo w' = with_thresholds (set_thresholds rs (thresholds_ (repo w)))
              (with_keys (add_keys ks (keys_ (repo w))) (repo w)) ∧
  fs w' = fs w ∧ requests w' = requests w ∧
  (∀ k pk, keys_ (repo w) !! k = Some pk → keys_ (repo w') !! k = Some pk) ∧
  (o = Done tt ↔
     is_Some (get "signed" content ≫= get "keys") ∧
     none_refused key_entry (declared_keys content) = true ∧
     none_refused role_entry (declared_roles content) = true) ∧
  (o = Done tt →
     mapM key_entry (declared_keys content) = Some ks ∧
     mapM role_entry (declared_roles content) = Some rs).
Proof.
  intros H ks rs.
  assert (Hw : w' = with_trust ks rs w ∧
    (o = Done tt ↔
       is_Some (get "signed" content ≫= get "keys") ∧
       none_refused key_entry (declared_keys content) = true ∧
       none_refused role_entry (declared_roles content) = true)).
  { subst ks rs. revert H. unfold initRoot, declared_keys, declared_roles. munfold.
    pose proof (roles_readable_with_keys content) as Hread.
    destruct (get "signed" content ≫= get "keys") as [jk|] eqn:Ek; simpl.
    2:{ destruct (get "signed" content ≫= get "roles") as [jr|] eqn:Er.
        { destruct Hread as [_ Hread]. by destruct Hread. }
        intros ?; simplify_eq. simpl. split.
        - unfold with_trust. simpl. by destruct w' as [[] ? ?].
        - split; [done|]. by intros [[? ?] _]. }
    destruct (loop_until_refused _ _ _ ingest_key_accepts ingest_key_refuses
                (items jk) w) as (o1 & -> & Ho1).
    rewrite take_keys.
    destruct (none_refused key_entry (items jk)) eqn:Enk.
    2:{ destruct o1 as [[]|e]; [by destruct Ho1 as [Ho1 _]; specialize (Ho1 eq_refl)|].
        intros ?; simplify_eq. split; [done|]. split; [done|]. by intros (_ & ? & _). }
    destruct o1 as [[]|e]; [|by destruct Ho1 as [_ Ho1]; specialize (Ho1 eq_refl)].
    destruct (get "signed" content ≫= get "roles") as [jr|] eqn:Er; simpl.
    2:{ destruct Hread as [Hread _]. by destruct Hread. }
    destruct (loop_until_refused _ _ _ ingest_role_accepts ingest_role_refuses
                (items jr) (with_trust (entries_before_refusal key_entry (items jk)) [] w))
      as (o2 & -> & Ho2).
    rewrite take_roles. intros ?; simplify_eq. split; [done|].
    rewrite Ho2. split; [by intros ?; eauto|by intros (_ & _ & ?)]. }
  destruct Hw as [-> Ho]. simpl.
  split; [done|]. split; [done|]. split; [done|].
  split; [intros k pk Hk; by apply add_keys_keeps|].
  split; [exact Ho|].
  intros Hd. apply Ho in Hd as (_ & Hk & Hr). split.
  - by apply none_refused_mapM.
  - subst rs. rewrite Hk. by apply none_refused_mapM.
Qed.

End RootIngestion.

(** C2 (as stated) fails: the root [bad_root] is refused for the key
    type of its second key, and the first key, k2, has by then joined the
    trusted keys. *)
Lemma refused_root_leaves_a_key :
  ¬ ingests_atomically Vectors.bad_root Vectors.start.
Proof.
  intros [H _].
  assert (E : (initRoot Vectors.bad_root Vectors.start).1
              = Throw (SecurityException "director" "Unsupported key type: dsa"))
    by (vm_compute; reflexivity).
  destruct (H (SecurityException "director" "Unsupported key type: dsa")
              (initRoot Vectors.bad_root Vectors.start).2) as [Hk _].
  { rewrite <- E. apply surjective_pairing. }
  apply (f_equal (λ m : gmap string PublicKey, m !! "k2"%string)) in Hk.
  vm_compute in Hk. done.
Qed.

(** The refused root [bad_root] ingested into the starting trust state:
    the key k2, which comes before the refused key k3, is trusted
    afterwards, and no threshold has changed. *)
Lemma initRoot_updates_in_place_witness :
  (initRoot Vectors.bad_root Vectors.start).1
    = Throw (SecurityException "director" "Unsupported key type: dsa") ∧
  keys_ (repo (initRoot Vectors.bad_root Vectors.start).2)
    = <["k2" := mkPublicKey "pub2" "ed25519"]> (keys_ (repo Vectors.start)) ∧
  thresholds_ (repo (initRoot Vectors.bad_root Vectors.start).2)
    = thresholds_ (repo Vectors.start).
Proof.
  assert (E : initRoot Vectors.bad_root Vectors.start
              = ((initRoot Vectors.bad_root Vectors.start).1,
                 (initRoot Vectors.bad_root Vectors.start).2))
    by apply surjective_pairing.
  destruct (initRoot_updates_in_place _ _ _ _ E) as (Hrepo & _).
  split; [vm_compute; reflexivity|].
  rewrite Hrepo. split; vm_compute; reflexivity.
Defined.

(** ** Download of a target *)

Section Targets.

Variable ext : Externals.
Variable http : HttpClient.

(** C9: for a target of declared length L > 0, [saveTarget] raises
    OversizedTarget exactly when the downloaded content is longer than
    L; content of L + 1 bytes is refused with OversizedTarget, and
    content of exactly L bytes passes the size check, so that the hash
    check decides. *)
Theorem saveTarget_oversized_iff target w :
  0 < length_ target →
  ((saveTarget ext http target w).1 = Throw (OversizedTarget (name_ (repo w))) ↔
     length_ target < Z.of_nat (String.length (served http target w))) ∧
  (Z.of_nat (String.length (served http target w)) = length_ target + 1 →
     (saveTarget ext http target w).1 = Throw (OversizedTarget (name_ (repo w)))) ∧
  (Z.of_nat (String.length (served http target w)) = length_ target →
     (saveTarget ext http target w).1 =
       if matchWith ext (hash_ target) (served http target w) then Done tt
       else Throw (TargetHashMismatch (name_ (repo w)))).
Proof.
  intros Hpos. unfold saveTarget, served. munfold. simpl.
  apply Z.ltb_lt in Hpos as Hpos'. rewrite Hpos'. simpl.
  destruct (length_ target <? _) eqn:Elt; simpl.
  - apply Z.ltb_lt in Elt. repeat split; try done; lia.
  - apply Z.ltb_ge in Elt.
    destruct (matchWith ext _ _) eqn:Em; simpl; repeat split; try done; lia.
Qed.

(** C10: for a target of declared length 0, [saveTarget] sends no
    request, writes no file and consults neither the size nor the hash:
    whatever the declared hash and whatever the server holds, it ends
    normally with the target appended.  For a target of positive length
    the target is appended exactly when the content is no longer than
    declared and matches the hash, which is also when [saveTarget] ends
    normally. *)
Theorem saveTarget_appends target w :
  (length_ target = 0 →
     saveTarget ext http target w =
       (Done tt, mkWorld (with_targets (targets_ (repo w) ++ [target]) (repo w))
                         (fs w) (requests w))) ∧
  (0 < length_ target →
     let checks := (Z.of_nat (String.length (served http target w)) <=? length_ target)
                   && matchWith ext (hash_ target) (served http target w) in
     ((saveTarget ext http target w).1 = Done tt ↔ checks = true) ∧
     targets_ (repo (saveTarget ext http target w).2) =
       if checks then targets_ (repo w) ++ [target] else targets_ (repo w)).
Proof.
  unfold saveTarget, served. munfold. split.
  - intros ->. reflexivity.
  - intros Hpos. apply Z.ltb_lt in Hpos as Hpos'. simpl. rewrite Hpos'. simpl.
    rewrite Z.leb_antisym.
    destruct (length_ target <? _) eqn:Elt; simpl; [done|].
    destruct (matchWith ext _ _) eqn:Em; simpl; done.
Qed.

End Targets.

(** The firmware target, of declared length 8. *)
Lemma saveTarget_oversized_iff_witness :
  0 < length_ Vectors.firmware_target ∧
  ((saveTarget Vectors.ext Vectors.plain_server Vectors.firmware_target Vectors.start).1
   = Throw (OversizedTarget "director") ↔
   length_ Vectors.firmware_target
   < Z.of_nat (String.length
                 (served Vectors.plain_server Vectors.firmware_target Vectors.start))).
Proof.
  assert (H : 0 < length_ Vectors.firmware_target) by (vm_compute; reflexivity).
  split; [exact H|].
  exact (proj1 (saveTarget_oversized_iff Vectors.ext Vectors.plain_server
                  Vectors.firmware_target Vectors.start H)).
Defined.

(** A target of length 0 whose digest matches nothing, and the firmware
    target. *)
Lemma saveTarget_appends_witness :
  length_ Vectors.empty_target = 0 ∧
  0 < length_ Vectors.firmware_target ∧
  getTargets (saveTarget Vectors.ext Vectors.plain_server Vectors.empty_target
                Vectors.start).2 = [Vectors.empty_target] ∧
  requests (saveTarget Vectors.ext Vectors.plain_server Vectors.empty_target
              Vectors.start).2 = [] ∧
  getTargets (saveTarget Vectors.ext Vectors.plain_server Vectors.firmware_target
                Vectors.start).2 = [Vectors.firmware_target].
Proof.
  assert (H0 : length_ Vectors.empty_target = 0) by reflexivity.
  assert (H1 : 0 < length_ Vectors.firmware_target) by (vm_compute; reflexivity).
  split; [exact H0|]. split; [exact H1|].
  rewrite (proj1 (saveTarget_appends Vectors.ext Vectors.plain_server
                    Vectors.empty_target Vectors.start) H0).
  split; [reflexivity|]. split; [reflexivity|].
  unfold getTargets.
  rewrite (proj2 (proj2 (saveTarget_appends Vectors.ext Vectors.plain_server
                           Vectors.firmware_target Vectors.start) H1)).
  vm_compute; reflexivity.
Defined.

(** ** Pathnames and files *)

Section Pathnames.

Lemma split_names_plain n : has_separator n = false → split_names n = [n].
Proof.
  induction n as [|c n IH]; simpl; [done|].
  destruct (Ascii.eqb c separator); [done|]. simpl. intros H. by rewrite IH.
Qed.

Lemma prefix_separator n : has_separator n = false → String.prefix "/" n = false.
Proof.
  destruct n as [|c n]; [done|]. cbn [has_separator String.prefix].
  intros [H _]%orb_false_elim.
  destruct (Ascii.ascii_dec _ c) as [<-|]; [|done]. by vm_compute in H.
Qed.

Lemma plain_spec n :
  plain n = true →
  names [n] = [n] ∧ String.prefix "/" n = false ∧ (∀ cur, step cur n = cur ++ [n]) ∧
  n ≠ EmptyString.
Proof.
  unfold plain, step. intros H.
  apply andb_prop in H as [H Hnul]. apply andb_prop in H as [H Hsep].
  apply andb_prop in H as [H H2]. apply andb_prop in H as [H0 H1].
  apply negb_true_iff in H0, H1, H2, Hsep, Hnul. simpl. rewrite H0, H1, H2, Hnul. simpl.
  rewrite (split_names_plain _ Hsep). split; [done|]. split; [|split; [done|]].
  - by apply prefix_separator.
  - intros ->. done.
Qed.

Lemma names_app p q :
  clean p = true → names (p ++ q) = names p ++ names q.
Proof.
  induction p as [|x p IH]; simpl; [done|].
  intros [Hx Hp]%andb_prop. apply negb_true_iff in Hx. rewrite Hx.
  destruct (String.eqb x ""); [by apply IH|]. by rewrite IH, (assoc_L (++)).
Qed.

Lemma names_snoc p n :
  clean p = true → plain n = true → names (p ++ [n]) = names p ++ [n].
Proof.
  intros Hp (Hn & _)%plain_spec. by rewrite names_app, Hn.
Qed.

Lemma is_absolute_snoc p n :
  plain n = true → is_absolute (p ++ [n]) = is_absolute p.
Proof.
  intros (_ & Hn & _)%plain_spec. induction p as [|q p IH]; simpl.
  - rewrite Hn. by destruct (String.eqb n "").
  - by destruct (String.eqb q "").
Qed.

Lemma walk_app d cur xs ys :
  walk d cur (xs ++ ys) = walk d cur xs ≫= λ c, walk d c ys.
Proof.
  revert cur. induction xs as [|x xs IH]; intros cur; simpl; [done|].
  destruct (is_directory cur d); [apply IH|done].
Qed.

(** One plain name further: the place reached so far has to be a
    directory, and the name is looked up in it. *)
Lemma reach_snoc p n d :
  clean p = true → plain n = true →
  reach (p ++ [n]) d = reach p d ≫= λ l, if is_directory l d then Some (l ++ [n]) else None.
Proof.
  intros Hp Hn. unfold reach, start_of.
  rewrite names_snoc, is_absolute_snoc, walk_app by done.
  destruct (walk d _ (names p)) as [l|]; simpl; [|done].
  apply plain_spec in Hn as (_ & _ & -> & _). done.
Qed.

Lemma not_empty_snoc ns (n : string) :
  n ≠ EmptyString → bool_decide (ns ++ [n] = [] ∨ ns ++ [n] = [EmptyString]) = false.
Proof.
  intros Hn. apply bool_decide_eq_false_2. intros [H|H].
  - by destruct ns.
  - destruct ns as [|x [|y ns]]; simplify_eq/=.
Qed.

Lemma locate_snoc p n d :
  clean p = true → plain n = true → locate (p ++ [n]) d = reach (p ++ [n]) d.
Proof.
  intros Hp Hn. unfold locate, reach, empty_pathname. rewrite names_snoc by done.
  apply plain_spec in Hn as (_ & _ & _ & Hne). by rewrite not_empty_snoc.
Qed.

Lemma locate_one p a d l :
  clean p = true → plain a = true → locate (p ++ [a]) d = Some l →
  ∃ dir, reach p d = Some dir ∧ is_directory dir d = true ∧ l = dir ++ [a].
Proof.
  intros Hp Ha. rewrite locate_snoc, reach_snoc by done.
  destruct (reach p d) as [dir|]; simpl; [|done].
  destruct (is_directory dir d) eqn:E; [|done]. intros ?; simplify_eq. eauto.
Qed.

Lemma clean_snoc p n : clean p = true → plain n = true → clean (p ++ [n]) = true.
Proof.
  intros Hp Hn. unfold clean. rewrite forallb_app. fold (clean p). rewrite Hp. simpl.
  unfold plain in Hn. apply andb_prop in Hn as [_ ->]. done.
Qed.

Lemma locate_two p a b d l :
  clean p = true → plain a = true → plain b = true →
  locate (p ++ [a; b]) d = Some l →
  ∃ dir, reach p d = Some dir ∧ is_directory dir d = true ∧
         is_directory (dir ++ [a]) d = true ∧ l = dir ++ [a; b].
Proof.
  intros Hp Ha Hb. rewrite (cons_middle a), (assoc_L (++)).
  intros (dir1 & Hr & Hd1 & ->)%locate_one; [|by apply clean_snoc|done].
  rewrite reach_snoc in Hr by done.
  destruct (reach p d) as [dir|]; simpl in Hr; [|done].
  destruct (is_directory dir d) eqn:E; [|done]. simplify_eq.
  exists dir. by rewrite <- (assoc_L (++)).
Qed.

(** A name that begins with [../] is looked up in the directory that
    holds the one reached so far. *)
Lemma locate_upwards p f d dir :
  clean p = true → plain f = true →
  reach p d = Some dir →
  is_directory dir d = true → is_directory (parent_path dir) d = true →
  locate (p ++ ["../" +:+ f]) d = Some (parent_path dir ++ [f]).
Proof.
  intros Hc Hf Hr Hd Hp. pose proof Hf as (_ & Habs & Hstep & Hne)%plain_spec.
  assert (Hsep : has_separator f = false ∧ has_nul f = false).
  { unfold plain in Hf. apply andb_prop in Hf as [Hf Hn]. apply andb_prop in Hf as [_ Hf].
    by split; apply negb_true_iff. }
  destruct Hsep as [Hsep Hnul].
  assert (Hn : names (p ++ ["../" +:+ f]) = names p ++ [".."; f]).
  { rewrite names_app by done. f_equal. simpl.
    change ("" +:+ f) with f. rewrite Hnul, app_nil_r.
    by rewrite (split_names_plain _ Hsep). }
  assert (Ha : is_absolute (p ++ ["../" +:+ f]) = is_absolute p).
  { clear. induction p as [|q p IH]; simpl; [done|]. by destruct (String.eqb q ""). }
  unfold locate, start_of, empty_pathname. rewrite Hn, Ha.
  change (names p ++ [".."; f]) with (names p ++ [".."%string] ++ [f]).
  rewrite (assoc_L (++)), not_empty_snoc by done.
  rewrite <- (assoc_L (++)). simpl.
  rewrite walk_app. unfold reach, start_of in Hr. rewrite Hr.
  change (Some dir ≫= λ c, walk d c [".."; f]) with
    (if is_directory dir d
     then if is_directory (parent_path dir) d
          then Some (step (parent_path dir) f) else None
     else None).
  by rewrite Hd, Hp, Hstep.
Qed.

(** *** The names of a path and its pathname *)

Lemma split_names_nonempty s : split_names s ≠ [].
Proof.
  induction s as [|c s IH]; simpl; [done|].
  destruct (Ascii.eqb c separator); [done|]. by destruct (split_names s).
Qed.

Lemma split_names_empty s : split_names s = [EmptyString] → s = EmptyString.
Proof.
  destruct s as [|c r]; [done|]. simpl. intros H.
  destruct (Ascii.eqb c separator).
  - injection H as H. by apply split_names_nonempty in H.
  - destruct (split_names r); simplify_eq.
Qed.

Lemma split_names_append a b :
  split_names (a +:+ "/" +:+ b) = split_names a ++ split_names b.
Proof.
  induction a as [|c a IH]; simpl; [done|].
  destruct (Ascii.eqb c separator); [by rewrite IH|].
  rewrite IH. destruct (split_names a) eqn:E; [by apply split_names_nonempty in E|].
  done.
Qed.

Lemma split_names_trailing a : split_names (a +:+ "/") = split_names a ++ [EmptyString].
Proof. apply (split_names_append a ""). Qed.

Lemma append_assoc (a b c : string) : (a +:+ b) +:+ c = a +:+ (b +:+ c).
Proof.
  induction a as [|x a IH]; [done|].
  change (String x ((a +:+ b) +:+ c) = String x (a +:+ (b +:+ c))).
  by rewrite IH.
Qed.

Lemma ends_with_separator_spec s :
  ends_with_separator s = true → ∃ s', s = s' +:+ "/".
Proof.
  induction s as [|c s IH]; [done|]. simpl. destruct s as [|c' s].
  - intros H. exists EmptyString. simpl. f_equal.
    apply Ascii.eqb_eq in H. by rewrite H.
  - intros H. destruct (IH H) as [s' Hs']. exists (String c s'). simpl. by rewrite Hs'.
Qed.

Lemma prefix_separator_spec q :
  String.prefix "/" q = true → ∃ q', q = "/" +:+ q'.
Proof.
  destruct q as [|c q]; [done|]. cbn [String.prefix].
  destruct (Ascii.ascii_dec _ c) as [<-|]; [|done]. intros _. by exists q.
Qed.

Lemma prefix_append a b :
  a ≠ EmptyString → String.prefix "/" (a +:+ b) = String.prefix "/" a.
Proof.
  destruct a as [|c a]; [done|]. intros _.
  change (String c a +:+ b) with (String c (a +:+ b)). cbn [String.prefix].
  destruct (Ascii.ascii_dec _ c); [|done].
  generalize (a +:+ b). intros ab. by destruct a, ab.
Qed.

Lemma c_str_clean s : has_nul s = false → c_str s = s.
Proof.
  induction s as [|c s IH]; simpl; [done|].
  destruct (Ascii.eqb c Ascii.zero); [done|]. simpl. intros H. by rewrite IH.
Qed.

Lemma c_str_append a b : has_nul a = false → c_str (a +:+ b) = a +:+ c_str b.
Proof.
  induction a as [|c a IH]; simpl; [done|].
  destruct (Ascii.eqb c Ascii.zero); [done|]. simpl. intros H. by rewrite IH.
Qed.

Lemma c_str_cut a b : has_nul a = true → c_str (a +:+ b) = c_str a.
Proof.
  induction a as [|c a IH]; simpl; [done|].
  destruct (Ascii.eqb c Ascii.zero); [done|]. simpl. intros H. by rewrite IH.
Qed.

Lemma has_nul_append a b : has_nul (a +:+ b) = has_nul a || has_nul b.
Proof.
  induction a as [|c a IH]; simpl; [done|]. rewrite IH. by rewrite orb_assoc.
Qed.

Lemma prefix_c_str s : String.prefix "/" (c_str s) = String.prefix "/" s.
Proof.
  destruct s as [|c s]; [done|]. cbn [c_str].
  destruct (Ascii.eqb c Ascii.zero) eqn:E; [|cbn [String.prefix]].
  - apply Ascii.eqb_eq in E. by subst c.
  - destruct (Ascii.ascii_dec _ c); [|done]. by destruct s, (c_str _).
Qed.

(** An empty name that another name follows changes nothing. *)
Lemma walk_skip d cur xs y ys :
  walk d cur (xs ++ EmptyString :: y :: ys) = walk d cur (xs ++ y :: ys).
Proof.
  rewrite !walk_app. destruct (walk d cur xs) as [c|]; simpl; [|done].
  change (step c "") with c. by destruct (is_directory c d).
Qed.

Lemma make_directories_skip cur xs y ys d :
  make_directories cur (xs ++ EmptyString :: y :: ys) d
  = make_directories cur (xs ++ y :: ys) d.
Proof.
  revert cur d. induction xs as [|x xs IH]; intros cur d; simpl.
  - change (step cur "") with cur. by destruct (is_directory cur d) eqn:E; rewrite ?E.
  - destruct (is_directory cur d); [|done].
    destruct (is_directory (step cur x) d); [apply IH|].
    destruct (bool_decide _); [done|]. apply IH.
Qed.

(** Two operands put together into one: the names stay, but for an
    empty name where the two meet, which another name follows. *)
Lemma names_slash a q rest :
  is_absolute (a :: q :: rest) = is_absolute (slash a q :: rest) ∧
  (names (a :: q :: rest) = names (slash a q :: rest) ∨
   ∃ xs y ys, xs ≠ [] ∧
     names (a :: q :: rest) = xs ++ EmptyString :: y :: ys ∧
     names (slash a q :: rest) = xs ++ y :: ys).
Proof.
  unfold slash. destruct (String.eqb q "") eqn:Eq.
  { apply String.eqb_eq in Eq. subst q. simpl.
    split; [by destruct (String.eqb a "")|]. left.
    destruct (String.eqb a ""); [done|]. by destruct (has_nul a). }
  destruct (String.eqb a "") eqn:Ea.
  { apply String.eqb_eq in Ea. subst a. simpl. change ("" +:+ q) with q.
    rewrite Eq. split; [done|]. by left. }
  assert (Ha : a ≠ EmptyString) by (by apply String.eqb_neq).
  assert (Hq : q ≠ EmptyString) by (by apply String.eqb_neq).
  assert (Hx : ∀ b, String.eqb (a +:+ b) "" = false).
  { intros b. apply String.eqb_neq. by destruct a. }
  split.
  { simpl. rewrite Ea. destruct (ends_with_separator a || String.prefix "/" q);
      simpl; by rewrite Hx, prefix_append. }
  simpl. rewrite Ea, Eq.
  destruct (has_nul a) eqn:Na.
  { left. destruct (ends_with_separator a || String.prefix "/" q);
      simpl; by rewrite Hx, has_nul_append, Na, c_str_cut. }
  destruct (ends_with_separator a) eqn:Ee; simpl.
  - apply ends_with_separator_spec in Ee as [a' ->].
    rewrite has_nul_append in Na. apply orb_false_elim in Na as [Na' _].
    rewrite Hx. rewrite !append_assoc.
    rewrite !has_nul_append, Na'. simpl.
    rewrite split_names_trailing.
    right. exists (split_names a').
    destruct (has_nul q) eqn:Nq.
    + rewrite !c_str_append by done. rewrite split_names_append.
      destruct (split_names (c_str q)) as [|y ys] eqn:E;
        [by apply split_names_nonempty in E|].
      exists y, ys. split; [apply split_names_nonempty|].
      by rewrite <- (assoc_L (++)).
    + rewrite split_names_append.
      destruct (split_names q) as [|y ys] eqn:E;
        [by apply split_names_nonempty in E|].
      exists y, (ys ++ names rest). split; [apply split_names_nonempty|].
      by rewrite <- !(assoc_L (++)).
  - destruct (String.prefix "/" q) eqn:Ep; simpl.
    + apply prefix_separator_spec in Ep as [q' ->]. rewrite Hx.
      rewrite !has_nul_append, Na. simpl.
      right. exists (split_names a).
      destruct (has_nul q') eqn:Nq.
      * rewrite !c_str_append by done. rewrite split_names_append.
        change ("" +:+ c_str q') with (c_str q').
        destruct (split_names (c_str q')) as [|y ys] eqn:E;
          [by apply split_names_nonempty in E|].
        exists y, ys. split; [apply split_names_nonempty|]. done.
      * rewrite split_names_append. change ("" +:+ q') with q'.
        destruct (split_names q') as [|y ys] eqn:E;
          [by apply split_names_nonempty in E|].
        exists y, (ys ++ names rest). split; [apply split_names_nonempty|].
        by rewrite <- !(assoc_L (++)).
    + left. rewrite Hx, !has_nul_append, Na. simpl.
      destruct (has_nul q) eqn:Nq.
      * rewrite !c_str_append by done. by rewrite split_names_append.
      * by rewrite split_names_append, (assoc_L (++)).
Qed.

Lemma not_empty_longer (xs : list string) y ys :
  xs ≠ [] → bool_decide (xs ++ y :: ys = [] ∨ xs ++ y :: ys = [EmptyString]) = false.
Proof.
  intros Hxs. apply bool_decide_eq_false_2. intros [H|H].
  - by destruct xs.
  - destruct xs as [|x [|x' xs]]; simplify_eq/=.
Qed.

Lemma locate_slash a q rest d :
  locate (a :: q :: rest) d = locate (slash a q :: rest) d ∧
  create_directories (a :: q :: rest) d = create_directories (slash a q :: rest) d.
Proof.
  destruct (names_slash a q rest) as [Habs [Hn|(xs & y & ys & Hxs & Hl & Hr)]];
    unfold locate, create_directories, start_of, empty_pathname;
    rewrite Habs.
  - by rewrite Hn.
  - rewrite Hl, Hr, !not_empty_longer by done.
    by rewrite walk_skip, make_directories_skip.
Qed.

Lemma locate_one_operand s d :
  locate [s] d = locate_pathname s d ∧
  create_directories [s] d = create_directories_pathname s d.
Proof.
  unfold locate, create_directories, locate_pathname, create_directories_pathname,
    start_of, empty_pathname. simpl.
  destruct (String.eqb s "") eqn:Es.
  { apply String.eqb_eq in Es. subst s. done. }
  rewrite prefix_c_str.
  destruct (has_nul s) eqn:Ns.
  - destruct (String.eqb (c_str s) "") eqn:Ec.
    + apply String.eqb_eq in Ec. rewrite Ec. done.
    + rewrite bool_decide_eq_false_2; [done|].
      apply String.eqb_neq in Ec. intros [H|H].
      * by apply split_names_nonempty in H.
      * by apply split_names_empty in H.
  - rewrite (c_str_clean _ Ns), Es, app_nil_r.
    rewrite bool_decide_eq_false_2; [done|].
    apply String.eqb_neq in Es. intros [H|H].
    + by apply split_names_nonempty in H.
    + by apply split_names_empty in H.
Qed.

(** The model of paths agrees with the pathnames: a path leads where
    the operating system is led by the pathname that Boost puts
    together from its operands, and [create_directories] makes the same
    directories. *)
Lemma locate_follows_pathname p d :
  locate p d = locate_pathname (pathname p) d ∧
  create_directories p d = create_directories_pathname (pathname p) d.
Proof.
  assert (H : ∀ p a, locate (a :: p) d = locate_pathname (foldl slash a p) d ∧
    create_directories (a :: p) d = create_directories_pathname (foldl slash a p) d).
  { clear p. induction p as [|q p IH]; intros a; simpl.
    - apply locate_one_operand.
    - destruct (locate_slash a q p d) as [-> ->]. apply IH. }
  apply (H p EmptyString).
Qed.

Lemma walk_same d d' cur ns :
  dirs d' = dirs d → walk d' cur ns = walk d cur ns.
Proof.
  intros Hd. revert cur. induction ns as [|n ns IH]; intros cur; simpl; [done|].
  unfold is_directory. rewrite Hd, IH. done.
Qed.

Lemma write_file_keeps p s d :
  dirs (write_file p s d) = dirs d ∧ cwd (write_file p s d) = cwd d.
Proof. unfold write_file. by destruct (opens p d). Qed.

Lemma locate_after_write q p s d :
  locate q (write_file p s d) = locate q d.
Proof.
  destruct (write_file_keeps p s d) as [Hd Hc].
  unfold locate, start_of. rewrite Hc. destruct (empty_pathname q); [done|].
  by apply walk_same.
Qed.

Lemma is_directory_after_write l p s d :
  is_directory l (write_file p s d) = is_directory l d.
Proof.
  destruct (write_file_keeps p s d) as [Hd _]. unfold is_directory. by rewrite Hd.
Qed.

Lemma opens_after_write q p s d : opens q (write_file p s d) = opens q d.
Proof.
  unfold opens. rewrite locate_after_write.
  destruct (locate q d) as [l|]; simpl; [|done]. by rewrite is_directory_after_write.
Qed.

Lemma write_file_at p s d l :
  opens p d = Some l → files (write_file p s d) !! l = Some s.
Proof. unfold write_file. intros ->. simpl. apply lookup_insert_eq. Qed.

Lemma write_file_other p s d l :
  opens p d ≠ Some l → files (write_file p s d) !! l = files d !! l.
Proof.
  unfold write_file. destruct (opens p d) as [l'|]; [|done]. intros Hne. simpl.
  apply lookup_insert_ne. congruence.
Qed.

Lemma write_file_unopened p s d : opens p d = None → write_file p s d = d.
Proof. unfold write_file. by intros ->. Qed.

Lemma opens_locate p d l : opens p d = Some l → locate p d = Some l.
Proof.
  unfold opens. destruct (locate p d) as [l'|]; simpl; [|done].
  destruct (is_directory l' d); [done|]. congruence.
Qed.

Lemma read_written p s d l :
  opens p d = Some l → read_file p (write_file p s d) = s.
Proof.
  intros Ho. unfold read_file. rewrite locate_after_write.
  rewrite (opens_locate _ _ _ Ho). by rewrite (write_file_at _ _ _ _ Ho).
Qed.

Lemma write_file_holds p s d : holds p s d → write_file p s d = d.
Proof.
  unfold holds, write_file. destruct (opens p d) as [l|]; [|done].
  intros H. destruct d as [ds fl wd]. simpl in *. f_equal. by apply insert_id.
Qed.

End Pathnames.

(** ** The metadata store *)

Section Store.

Variable ext : Externals.

Lemma saveRole_spec content w o w' :
  saveRole ext content w = (o, w') →
  repo w' = repo w ∧ requests w' = requests w ∧
  match save_path (repo w) content with
  | Some p => o = Done tt ∧ fs w' = write_file p (stream_write ext content) (fs w)
  | None => o = Throw LogicError ∧ fs w' = fs w
  end.
Proof.
  unfold saveRole, save_path, role_of. munfold. intros H.
  destruct ((get "signed" content ≫= get "_type") ≫= asString) as [type_|];
    simpl in *; by simplify_eq.
Qed.

(** Under a repository name and role names that are plain, the file
    that [saveRole] writes lies one directory below the file that the
    constructor loads. *)
Lemma save_path_not_load_path r doc p role role' d l l' :
  clean (path_ r) = true → plain (name_ r) = true →
  role_of doc = Some role → plain (role +:+ ".json") = true →
  plain (role' +:+ ".json") = true →
  save_path r doc = Some p →
  locate p d = Some l → locate (load_path r role') d = Some l' →
  l ≠ l'.
Proof.
  unfold save_path, load_path. intros Hclean Hname Hrole Hfile Hfile' Hp.
  rewrite Hrole in Hp. simpl in Hp. injection Hp as <-.
  rewrite (cons_middle (name_ r)), (assoc_L (++)).
  pose proof (clean_snoc _ _ Hclean Hname) as Hclean'.
  rewrite !locate_snoc, !reach_snoc by done.
  destruct (reach (path_ r) d) as [dir|]; simpl; [|done].
  destruct (is_directory dir d); simpl; [|done].
  destruct (is_directory (dir ++ [name_ r]) d); [|done].
  intros ? ?; simplify_eq. intros Heq.
  apply (f_equal length) in Heq. rewrite !length_app in Heq. simpl in Heq. lia.
Qed.

(** [saveRole] then never touches the file from which the constructor
    loads the document of a role. *)
Lemma saveRole_misses_load_path content w role role' l :
  clean (path_ (repo w)) = true → plain (name_ (repo w)) = true →
  role_of content = Some role → plain (role +:+ ".json") = true →
  plain (role' +:+ ".json") = true →
  locate (load_path (repo w) role') (fs w) = Some l →
  files (fs (saveRole ext content w).2) !! l = files (fs w) !! l.
Proof.
  intros Hclean Hname Hrole Hfile Hfile' Hl.
  destruct (saveRole ext content w) as [o w'] eqn:E. simpl.
  apply saveRole_spec in E as (_ & _ & E).
  destruct (save_path (repo w) content) as [p|] eqn:Ep.
  - destruct E as [_ ->]. apply write_file_other.
    intros Ho%opens_locate.
    by eapply (save_path_not_load_path _ _ _ _ _ _ _ _ Hclean Hname Hrole Hfile Hfile'
                 Ep Ho Hl).
  - destruct E as [_ ->]. done.
Qed.

End Store.

(** C8 (the code at the failing input): a repository named director is
    constructed over an empty metadata path meta and [updateRoot]
    accepts and saves the served root.  The document is sent to
    meta/director/director/root.json: on the directories the
    constructor made nothing is written at all, and where that directory
    exists the file appears there, while meta/director/root.json, the
    file that the constructor loads, stays absent; a verifier constructed
    afterwards starts without any trusted key, though it would trust the
    key of the saved root if the document lay where it is loaded. *)
Theorem saved_root_is_not_loaded :
  let ext := Vectors.reading_ext in
  let http := Vectors.rotating_server in
  let made := (construct ext "director" Vectors.base ["meta"] Vectors.empty_fs []).2 in
  let saved := (updateRoot ext http made).2 in
  let ready := mkWorld (repo made) Vectors.prepared_fs [] in
  let saved' := (updateRoot ext http ready).2 in
  let moved := write_file (load_path (repo ready) "root")
                 (stream_write ext Vectors.rotated_root) (fs saved') in
  (updateRoot ext http made).1 = Done tt ∧
  fs saved = fs made ∧
  files (fs saved) = ∅ ∧
  (updateRoot ext http ready).1 = Done tt ∧
  files (fs saved') !! ["meta"; "director"; "director"; "root.json"]
    = Some (stream_write ext Vectors.rotated_root) ∧
  fs_exists (load_path (repo ready) "root") (fs saved') = false ∧
  keys_ (repo saved') !! "k2"%string = Some (mkPublicKey "pub2" "ed25519") ∧
  keys_ (repo (construct ext "director" Vectors.base ["meta"] (fs saved') []).2) = ∅ ∧
  keys_ (repo (construct ext "director" Vectors.base ["meta"] moved []).2) !! "k2"%string
    = Some (mkPublicKey "pub2" "ed25519").
Proof.
  vm_compute. repeat split; reflexivity.
Qed.

(** ** Freshness: the timestamp step *)

Section Freshness.

Variable ext : Externals.
Variable http : HttpClient.

Lemma find_insert_member k x ms :
  find k ms = None → find k (insert_member k x ms) = Some x.
Proof.
  induction ms as [|[k' v'] ms IH]; simpl.
  - by rewrite String.eqb_refl.
  - destruct (String.eqb k' k) eqn:E; [done|]. intros H.
    destruct (String.ltb k k'); simpl.
    + by rewrite String.eqb_refl.
    + rewrite E. by apply IH.
Qed.

Lemma find_set_member k x ms :
  is_Some (find k ms) → find k (set_member k x ms) = Some x.
Proof.
  induction ms as [|[k' v'] ms IH]; simpl.
  - by intros [? ?].
  - destruct (String.eqb k' k) eqn:E; simpl; rewrite E; [done|]. apply IH.
Qed.

(** Looking a member up in a value that is not const yields what the
    const lookup yields, and leaves the member in place. *)
Lemma resolve_get k v v' x :
  resolve k v = Some (v', x) →
  get k v = Some x ∧ get k v' = Some x ∧ resolve k v' = Some (v', x).
Proof.
  destruct v; simpl; try done.
  - intros ?; simplify_eq. simpl. by rewrite String.eqb_refl.
  - destruct (find k members) eqn:E; intros ?; simplify_eq; simpl.
    + by rewrite E.
    + by rewrite (find_insert_member _ _ _ E).
Qed.

Lemma get_resolve k v x :
  get k v = Some x → ∃ v', resolve k v = Some (v', x).
Proof.
  destruct v; simpl; try done.
  - intros ?; simplify_eq. eauto.
  - destruct (find k members) eqn:E; intros ?; simplify_eq; simpl; eauto.
Qed.

Lemma resolve_object k v v' x :
  resolve k v = Some (v', x) → ∃ ms, v' = objectValue ms ∧ find k ms = Some x.
Proof.
  destruct v; simpl; try done.
  - intros ?; simplify_eq. eexists. split; [done|]. simpl.
    by rewrite String.eqb_refl.
  - destruct (find k members) eqn:E; intros ?; simplify_eq; eauto.
    eexists. split; [done|]. by apply find_insert_member.
Qed.

Lemma assign_resolve k x v v' y u :
  resolve k v = Some (v', y) → assign k x v' = Some u →
  resolve k u = Some (u, x).
Proof.
  intros (ms & -> & Hf)%resolve_object. unfold assign. simpl. rewrite Hf.
  intros ?; simplify_eq. simpl.
  by rewrite find_set_member; [|rewrite Hf].
Qed.

Lemma getJSON_spec role w :
  getJSON http role w =
    (Done (http_getJson http (base_url_ (repo w) +:+ "/" +:+ role)),
     mkWorld (repo w) (fs w)
             (requests w ++ [GetJson (base_url_ (repo w) +:+ "/" +:+ role)])).
Proof. reflexivity. Qed.

Lemma save_path_after_verifyRole doc doc' r :
  save_path (after_verifyRole doc' r) doc = save_path r doc.
Proof.
  unfold save_path, after_verifyRole, touch_threshold.
  repeat case_match; done.
Qed.

(** The document that [updateRole] fetches for a role. *)
Lemma updateRole_spec role w o w' :
  let doc := http_getJson http (base_url_ (repo w) +:+ "/" +:+ role) in
  updateRole ext http role w = (o, w') →
  requests w' = requests w ++ [GetJson (base_url_ (repo w) +:+ "/" +:+ role)] ∧
  repo w' = after_verifyRole doc (repo w) ∧
  ((∃ e, o = Throw e ∧ fs w' = fs w ∧ ¬ accepted ext (repo w) doc) ∨
   (o = Done doc ∧ accepted ext (repo w) doc ∧
    ∃ p, save_path (repo w) doc = Some p ∧
         fs w' = write_file p (stream_write ext doc) (fs w))).
Proof.
  intros doc. unfold updateRole. munfold. rewrite getJSON_spec. fold doc.
  destruct (verifyRole ext doc _) as [o1 w1] eqn:Ev.
  apply verifyRole_spec in Ev as (Hfs & Hrq & Hrepo & Hacc). simpl in *.
  destruct o1 as [[]|e].
  2:{ intros ?; simplify_eq. repeat split; try done. left. exists e.
      repeat split; try done. intros Ha. by apply Hacc in Ha. }
  destruct (saveRole ext doc w1) as [o2 w2] eqn:Es.
  apply saveRole_spec in Es as (Hrepo2 & Hrq2 & Hsave).
  rewrite Hrepo, save_path_after_verifyRole in Hsave.
  destruct Hacc as [Hacc _]. specialize (Hacc eq_refl).
  assert (Hp : is_Some (save_path (repo w) doc)).
  { destruct Hacc as (role' & Hr & _). unfold save_path. rewrite Hr. by eexists. }
  destruct Hp as [p Hp]. rewrite Hp in Hsave. destruct Hsave as [-> Hfs2].
  intros ?; simplify_eq. repeat split; try congruence.
  right. repeat split; try done. exists p. split; [done|]. congruence.
Qed.

Lemma assign_after_resolve k x v v' y :
  resolve k v = Some (v', y) → is_Some (assign k x v').
Proof.
  intros (ms & -> & Hf)%resolve_object. unfold assign. simpl. rewrite Hf. by eexists.
Qed.

Lemma resolve_if_get k k' v x :
  get k v = Some x → is_Some (resolve k' v).
Proof.
  destruct v; simpl; try done. intros _.
  destruct (find k' members); by eexists.
Qed.

Lemma after_verifyRole_keeps doc r :
  same_identity r (after_verifyRole doc r) ∧
  keys_ (after_verifyRole doc r) = keys_ r ∧
  targets_ (after_verifyRole doc r) = targets_ r ∧
  timestamp_signed_ (after_verifyRole doc r) = timestamp_signed_ r.
Proof.
  unfold after_verifyRole, touch_threshold, same_identity.
  repeat case_match; done.
Qed.

(** What [checkTimestamp] does with the served timestamp. *)
Lemma checkTimestamp_spec w o w' :
  let doc := http_getJson http (timestamp_url (repo w)) in
  checkTimestamp ext http w = (o, w') →
  requests w' = requests w ++ [GetJson (timestamp_url (repo w))] ∧
  same_identity (repo w) (repo w') ∧
  keys_ (repo w') = keys_ (repo w) ∧
  targets_ (repo w') = targets_ (repo w) ∧
  thresholds_ (repo w') = thresholds_ (after_verifyRole doc (repo w)) ∧
  (fs w' = fs w ∨
   ∃ p, save_path (repo w) doc = Some p ∧
        fs w' = write_file p (stream_write ext doc) (fs w)) ∧
  (∀ b, o = Done b →
     accepted ext (repo w) doc ∧
     b = gt (version_of (signed_of doc)) (version_of (timestamp_signed_ (repo w))) ∧
     timestamp_signed_ (repo w') = remembered_of doc ∧
     version_of (remembered_of doc) = version_of (signed_of doc) ∧
     ∃ p, save_path (repo w) doc = Some p ∧
          fs w' = write_file p (stream_write ext doc) (fs w)).
Proof.
  intros doc. unfold checkTimestamp, timestamp_url in *. munfold.
  destruct (updateRole ext http "timestamp.json" w) as [o1 w1] eqn:Eu.
  apply updateRole_spec in Eu as (Hrq & Hrepo & Hu). fold doc in Hrq, Hrepo, Hu.
  destruct (after_verifyRole_keeps doc (repo w)) as (Hid & Hk & Ht & Hts).
  rewrite <- Hrepo in Hid, Hk, Ht, Hts.
  destruct Hu as [(e & -> & Hfs & _)|(-> & Hacc & p & Hp & Hfs)].
  { intros ?; simplify_eq. destruct Hid as (? & ? & ?).
    repeat split; try done; try congruence. by left. }
  assert (Hfs' : fs w1 = fs w ∨
    ∃ p, save_path (repo w) doc = Some p ∧
         fs w1 = write_file p (stream_write ext doc) (fs w)) by eauto.
  destruct Hid as (Hid1 & Hid2 & Hid3).
  destruct Hacc as (role & Hr & Hrest).
  assert (Hacc : accepted ext (repo w) doc) by (exists role; done).
  unfold role_of in Hr.
  destruct (get "signed" doc) as [signed|] eqn:Es; [|done]. simpl in Hr.
  destruct (get "_type" signed) as [ty|] eqn:Ety; [|done].
  destruct (get_resolve _ _ _ Es) as [content1 Hc1]. rewrite Hc1. simpl.
  destruct (resolve_if_get "_type" "version" signed ty Ety) as [[signed1 version] Hv].
  rewrite Hv. simpl.
  destruct (assign_after_resolve "signed" signed1 _ _ _ Hc1) as [content2 Hc2].
  rewrite Hc2. simpl.
  rewrite (assign_resolve _ _ _ _ _ _ Hc1 Hc2). simpl.
  destruct (resolve "version" (timestamp_signed_ (repo w1)))
    as [[remembered old_version]|] eqn:Eo; simpl.
  2:{ intros ?; simplify_eq. repeat split; try done. congruence. }
  intros ?; simplify_eq. simpl. repeat split; try done; try congruence.
  all: simplify_eq.
  all: apply resolve_get in Eo as (Ho1 & _); rewrite Hts in Ho1.
  all: pose proof Hv as Hv3; apply resolve_get in Hv as (Hv1 & Hv2 & _).
  all: unfold remembered_of, version_of, signed_of; rewrite ?Es; simpl.
  all: rewrite ?Hv3, ?Hv1, ?Hv2, ?Ho1; first [done | eauto].
Qed.

Lemma after_verifyRole_thresholds doc r :
  (∀ role t, thresholds_ r !! role = Some t →
             thresholds_ (after_verifyRole doc r) !! role = Some t) ∧
  (∀ role t, thresholds_ (after_verifyRole doc r) !! role = Some t →
             thresholds_ r !! role = Some t ∨ (t = 0 ∧ role_of doc = Some role)).
Proof.
  split.
  - intros role t Hrt. unfold after_verifyRole, touch_threshold.
    destruct (role_of doc) as [x|]; [|done].
    destruct (signatures_of doc); [done|].
    destruct (thresholds_ r !! x) eqn:E; [done|]. simpl.
    rewrite lookup_insert_ne; [done|]. intros ->. congruence.
  - intros role t. unfold after_verifyRole, touch_threshold.
    destruct (role_of doc) as [x|]; [|by left].
    destruct (signatures_of doc); [by left|].
    destruct (thresholds_ r !! x) eqn:E; [by left|]. simpl.
    destruct (decide (x = role)) as [->|Hne].
    + rewrite lookup_insert_eq. intros ?; simplify_eq. by right.
    + rewrite lookup_insert_ne; [|done]. by left.
Qed.


(** X28: when the version of the served timestamp is not strictly
    greater than the member version at the top level of the remembered
    value, the request for timestamp.json is the only request that
    [refresh] sends: no snapshot, no other role document and no target
    is asked for. *)
Theorem stale_timestamp_is_the_only_request w :
  gt (version_of (signed_of (http_getJson http (timestamp_url (repo w)))))
     (version_of (timestamp_signed_ (repo w))) = false →
  requests (refresh ext http w).2 = requests w ++ [GetJson (timestamp_url (repo w))].
Proof.
  intros Hstale. unfold refresh. munfold. simpl.
  destruct (checkTimestamp ext http _) as [o w1] eqn:E.
  apply checkTimestamp_spec in E as (Hrq & _ & _ & _ & _ & _ & H).
  unfold timestamp_url in *. simpl in *.
  destruct o as [b|e]; [|done].
  destruct (H b eq_refl) as (_ & Hb & _). rewrite Hstale in Hb. by subst b.
Qed.

End Freshness.


(** Version 5 is remembered and version 2 is served. *)
Lemma stale_timestamp_is_the_only_request_witness :
  gt (version_of (signed_of (http_getJson Vectors.plain_server
                               (timestamp_url (repo Vectors.seen5)))))
     (version_of (timestamp_signed_ (repo Vectors.seen5))) = false ∧
  requests (refresh Vectors.ext Vectors.plain_server Vectors.seen5).2
  = requests Vectors.seen5 ++ [GetJson (timestamp_url (repo Vectors.seen5))].
Proof.
  assert (H : gt (version_of (signed_of (http_getJson Vectors.plain_server
                                           (timestamp_url (repo Vectors.seen5)))))
                 (version_of (timestamp_signed_ (repo Vectors.seen5))) = false)
    by (vm_compute; reflexivity).
  split; [exact H|].
  exact (stale_timestamp_is_the_only_request Vectors.ext Vectors.plain_server
           Vectors.seen5 H).
Defined.

(** ** The order of jsoncpp values *)

Lemma string_compare_refl (s : string) : String.compare s s = Eq.
Proof.
  induction s as [|c s IH]; simpl; [done|].
  unfold Ascii.compare. by rewrite N.compare_refl.
Qed.

Lemma bool_compare_refl (b : bool) : Bool.compare b b = Eq.
Proof. by destruct b. Qed.

Lemma compare_refl (v : Value) : Json.compare v v = Eq.
Proof.
  revert v. fix IH 1. intros v. destruct v; simpl.
  - done.
  - apply Z.compare_refl.
  - apply Z.compare_refl.
  - apply string_compare_refl.
  - apply bool_compare_refl.
  - rewrite Nat.compare_refl.
    induction elems as [|x l IHl]; [done|].
    by rewrite (IH x).
  - rewrite Nat.compare_refl.
    induction members as [|[k x] l IHl]; [done|].
    by rewrite string_compare_refl, (IH x).
Qed.

Lemma gt_irrefl v : gt v v = false.
Proof. unfold gt, lt. by rewrite compare_refl. Qed.

(** ** The refresh as a whole *)

Section Refresh.

Variable ext : Externals.
Variable http : HttpClient.

Lemma same_anchor_refl r : same_anchor r r.
Proof. by repeat split. Qed.

Lemma same_anchor_trans r1 r2 r3 :
  same_anchor r1 r2 → same_anchor r2 r3 → same_anchor r1 r3.
Proof.
  intros ((? & ? & ?) & ?) ((? & ? & ?) & ?). repeat split; congruence.
Qed.

Lemma after_verifyRole_anchor doc r : same_anchor r (after_verifyRole doc r).
Proof.
  destruct (after_verifyRole_keeps doc r) as (? & _ & _ & ?). by split.
Qed.

Lemma updateRole_anchor role w o w' :
  updateRole ext http role w = (o, w') → same_anchor (repo w) (repo w').
Proof.
  intros (_ & -> & _)%updateRole_spec. apply after_verifyRole_anchor.
Qed.

Lemma initRoot_anchor content w o w' :
  initRoot content w = (o, w') → same_anchor (repo w) (repo w').
Proof. by intros (? & _)%initRoot_frame. Qed.

Lemma saveTarget_frame target w o w' :
  saveTarget ext http target w = (o, w') →
  same_anchor (repo w) (repo w') ∧
  ∃ extra, requests w' = requests w ++ extra ∧ Forall is_download extra.
Proof.
  unfold saveTarget. munfold. intros H.
  repeat (case_match; simplify_eq/=); (split; [by repeat split|]);
    first [ by (exists []; rewrite app_nil_r)
          | eexists [_]; split; [done|]; repeat constructor; by eexists ].
Qed.

Lemma select_hash_frame hashes w o w' :
  select_hash hashes w = (o, w') → w' = w.
Proof.
  unfold select_hash. munfold. intros H.
  repeat (case_match; simplify_eq/=); done.
Qed.

Lemma ingest_target_frame t_it w o w' :
  ingest_target ext http t_it w = (o, w') →
  same_anchor (repo w) (repo w') ∧
  ∃ extra, requests w' = requests w ++ extra ∧ Forall is_download extra.
Proof.
  unfold ingest_target. munfold. intros H.
  assert (Hstay : same_anchor (repo w) (repo w) ∧
    ∃ extra, requests w = requests w ++ extra ∧ Forall is_download extra).
  { split; [apply same_anchor_refl|]. exists []. by rewrite app_nil_r. }
  destruct (get "hashes" t_it.2); simpl in H; [|by simplify_eq].
  destruct (select_hash v w) as [oh wh] eqn:Eh.
  apply select_hash_frame in Eh as ->.
  destruct oh; [|by simplify_eq].
  destruct (get "custom" t_it.2); simpl in H; [|by simplify_eq].
  destruct (asString t_it.1); simpl in H; [|by simplify_eq].
  destruct (get "length" t_it.2 ≫= asUInt64); simpl in H; [|by simplify_eq].
  by eapply saveTarget_frame.
Qed.

Lemma targets_loop_frame l w o w' :
  for_each l (ingest_target ext http) w = (o, w') →
  same_anchor (repo w) (repo w') ∧
  ∃ extra, requests w' = requests w ++ extra ∧ Forall is_download extra.
Proof.
  revert w o w'. induction l as [|it l IH]; intros w o w' H; simpl in H; munfold.
  - simplify_eq. split; [apply same_anchor_refl|]. exists []. by rewrite app_nil_r.
  - destruct (ingest_target ext http it w) as [o1 w1] eqn:E.
    apply ingest_target_frame in E as (Ha & e1 & Hr1 & Hd1).
    destruct o1 as [[]|e]; [|simplify_eq; eauto].
    apply IH in H as (Ha' & e2 & Hr2 & Hd2).
    split; [by eapply same_anchor_trans|].
    exists (e1 ++ e2). rewrite Hr2, Hr1, app_assoc. split; [done|].
    by apply Forall_app.
Qed.

Lemma refresh_role_frame it w o w' :
  refresh_role ext http it w = (o, w') →
  same_anchor (repo w) (repo w') ∧
  ∃ extra, requests w' = requests w ++ extra ∧
    Forall (λ q, role_request (base_url_ (repo w)) it q ∨ is_download q) extra.
Proof.
  unfold refresh_role. munfold. intros H.
  destruct (asString it.1) as [k|] eqn:Ek; simpl in H.
  2:{ simplify_eq. split; [apply same_anchor_refl|]. exists []. by rewrite app_nil_r. }
  destruct (updateRole ext http k w) as [o1 w1] eqn:Eu.
  pose proof (updateRole_anchor _ _ _ _ Eu) as Ha.
  apply updateRole_spec in Eu as (Hrq & _ & _).
  assert (Hhere : same_anchor (repo w) (repo w1) ∧
    ∃ extra, requests w1 = requests w ++ extra ∧
      Forall (λ q, role_request (base_url_ (repo w)) it q ∨ is_download q) extra).
  { split; [done|]. eexists [_]. split; [done|].
    constructor; [|constructor]. left. by exists k. }
  destruct o1 as [new_content|e]; [|by simplify_eq].
  destruct (eq_string it.1 "targets.json"); [|by simplify_eq].
  destruct (get "signed" new_content ≫= get "targets"); simpl in H; [|by simplify_eq].
  apply targets_loop_frame in H as (Ha' & e2 & Hr2 & Hd2).
  split; [by eapply same_anchor_trans|].
  eexists (_ :: e2). rewrite Hr2, Hrq, <- app_assoc. split; [done|].
  constructor; [left; by exists k|].
  eapply Forall_impl; [done|]. by right.
Qed.

Lemma roles_loop_frame l w o w' :
  for_each l (refresh_role ext http) w = (o, w') →
  same_anchor (repo w) (repo w') ∧
  ∃ extra, requests w' = requests w ++ extra ∧
    Forall (λ q, (∃ it, it ∈ l ∧ role_request (base_url_ (repo w)) it q)
                 ∨ is_download q) extra.
Proof.
  revert w o w'. induction l as [|it l IH]; intros w o w' H; simpl in H; munfold.
  - simplify_eq. split; [apply same_anchor_refl|]. exists []. by rewrite app_nil_r.
  - destruct (refresh_role ext http it w) as [o1 w1] eqn:E.
    apply refresh_role_frame in E as (Ha & e1 & Hr1 & Hd1).
    assert (Hd1' : Forall (λ q, (∃ it0, it0 ∈ it :: l ∧
                      role_request (base_url_ (repo w)) it0 q) ∨ is_download q) e1).
    { eapply Forall_impl; [done|]. intros q [Hq|Hq]; [left|by right].
      exists it. split; [apply list_elem_of_here|done]. }
    destruct o1 as [[]|e]; [|simplify_eq; eauto].
    apply IH in H as (Ha' & e2 & Hr2 & Hd2).
    split; [by eapply same_anchor_trans|].
    exists (e1 ++ e2). rewrite Hr2, Hr1, app_assoc. split; [done|].
    apply Forall_app. split; [done|].
    eapply Forall_impl; [done|]. intros q [(it0 & Hin & Hq)|Hq]; [left|by right].
    exists it0. split; [by apply list_elem_of_further|].
    destruct Ha as ((_ & _ & <-) & _). done.
Qed.

Lemma version_of_remembered doc :
  version_of (remembered_of doc) = version_of (signed_of doc).
Proof.
  unfold remembered_of, version_of.
  destruct (resolve "version" (signed_of doc)) as [[s x]|] eqn:E; [|done].
  apply resolve_get in E as (-> & -> & _). done.
Qed.

(** After a refresh that ended normally the object remembers the served
    timestamp. *)
Lemma refresh_remembers w w1 :
  refresh ext http w = (Done tt, w1) →
  same_identity (repo w) (repo w1) ∧
  timestamp_signed_ (repo w1) = remembered_of (http_getJson http (timestamp_url (repo w))).
Proof.
  unfold refresh. munfold. simpl.
  destruct (checkTimestamp ext http _) as [ot wt] eqn:Et.
  apply checkTimestamp_spec in Et as (_ & Hid & _ & _ & _ & _ & Hdone).
  unfold timestamp_url in *. simpl in *.
  destruct ot as [b|e]; [|done].
  destruct (Hdone b eq_refl) as (_ & _ & Hts & _).
  assert (Hkeep : ∀ r, same_anchor (repo wt) r →
    same_identity (repo w) r ∧
    timestamp_signed_ r =
      remembered_of (http_getJson http (base_url_ (repo w) +:+ "/" +:+ "timestamp.json"))).
  { intros r ((? & ? & ?) & ?). destruct Hid as (? & ? & ?). simpl in *.
    repeat split; congruence. }
  destruct b; [|intros ?; simplify_eq; apply Hkeep, same_anchor_refl].
  destruct (updateRole ext http "snapshot.json" wt) as [os ws] eqn:Es.
  apply updateRole_anchor in Es as Has.
  destruct os as [content|e]; [|done].
  destruct (get "signed" content ≫= get "meta") as [meta|]; simpl; [|done].
  destruct (isMember "root.json" meta) as [[]|]; simpl; [| |done].
  - destruct (updateRole ext http "root.json" ws) as [or wr] eqn:Er.
    apply updateRole_anchor in Er as Har.
    destruct or as [root|e]; [|done].
    destruct (initRoot root wr) as [oi wi] eqn:Ei.
    apply initRoot_anchor in Ei as Hai.
    destruct oi as [[]|e]; [|done].
    destruct (removeMember "root.json" meta) as [rest|]; simpl; [|done].
    intros (Hal & _)%roles_loop_frame. apply Hkeep.
    eauto using same_anchor_trans.
  - intros (Hal & _)%roles_loop_frame. apply Hkeep.
    eauto using same_anchor_trans.
Qed.





(** C4 (amended): a second refresh against the same server sends the
    request for the timestamp and no other, and changes no file of the
    store as long as the file of the timestamp holds the served
    timestamp or cannot be written; but it leaves the list of targets
    empty, not as the refresh before it left it, since [refresh] clears
    the list before it looks at the timestamp. *)
Theorem second_refresh_clears_targets w w1 :
  refresh ext http w = (Done tt, w1) →
  (∀ p, save_path (repo w1) (http_getJson http (timestamp_url (repo w1))) = Some p →
        holds p (stream_write ext (http_getJson http (timestamp_url (repo w1)))) (fs w1)) →
  fs (refresh ext http w1).2 = fs w1 ∧
  getTargets (refresh ext http w1).2 = [] ∧
  requests (refresh ext http w1).2
    = requests w1 ++ [GetJson (timestamp_url (repo w1))].
Proof.
  intros (Hid & Hts)%refresh_remembers Hholds.
  assert (Hurl : timestamp_url (repo w1) = timestamp_url (repo w)).
  { unfold timestamp_url. destruct Hid as (_ & _ & ->). done. }
  rewrite <- Hurl in Hts.
  unfold refresh, getTargets. munfold. simpl.
  destruct (checkTimestamp ext http _) as [ot wt] eqn:Et.
  apply checkTimestamp_spec in Et as (Hrq & _ & _ & Htg & _ & Hfs & Hdone).
  unfold timestamp_url in *. simpl in *.
  assert (Hfs' : fs wt = fs w1).
  { destruct Hfs as [?|(p & Hp & ->)]; [done|].
    apply write_file_holds, Hholds. done. }
  destruct ot as [b|e]; [|done].
  destruct (Hdone b eq_refl) as (_ & Hb & _).
  rewrite Hts, version_of_remembered, gt_irrefl in Hb. by subst b.
Qed.




End Refresh.




(** C6 (the code at the failing input): the store holds a root and a
    timestamp of version 7, and the server a timestamp of version 2.
    The constructor remembers the stored document as a whole, so the
    member version that [checkTimestamp] compares with is absent and
    reads as null, below every integer: the served version 2 counts as
    new, and [refresh] goes on to ask for the snapshot, the targets and
    the firmware.  With the signed part of that timestamp remembered, as
    [checkTimestamp] leaves it, the same refresh sends the one request
    for the timestamp. *)
Theorem stored_version_is_not_compared :
  let ext := Cases.store_ext in
  let http := Vectors.plain_server in
  let made := construct ext "director" Vectors.base ["meta"] Cases.stored [] in
  let w := made.2 in
  let seen7 := mkWorld (with_timestamp_signed
                          (remembered_of (Vectors.timestamp_doc 7)) (repo w))
                       (fs w) (requests w) in
  made.1 = Done tt ∧
  timestamp_signed_ (repo w) = Vectors.timestamp_doc 7 ∧
  version_of (signed_of (timestamp_signed_ (repo w))) = intValue 7 ∧
  version_of (signed_of (http_getJson http (timestamp_url (repo w)))) = intValue 2 ∧
  gt (intValue 2) (intValue 7) = false ∧
  version_of (timestamp_signed_ (repo w)) = nullValue ∧
  gt (intValue 2) nullValue = true ∧
  (refresh ext http w).1 = Done tt ∧
  requests (refresh ext http w).2 =
    [GetJson "http://server/timestamp.json"; GetJson "http://server/snapshot.json";
     GetJson "http://server/targets.json"; Get "http://server/firmware.bin"] ∧
  getTargets (refresh ext http w).2 = [Vectors.firmware_target] ∧
  version_of (timestamp_signed_ (repo seen7)) = intValue 7 ∧
  refresh ext http seen7 =
    (Done tt,
     mkWorld (with_timestamp_signed (remembered_of (Vectors.timestamp_doc 2))
                (repo w))
             (fs w) [GetJson "http://server/timestamp.json"]).
Proof.
  vm_compute. repeat split; reflexivity.
Qed.

(** C4 (as stated) fails: the first refresh returns the firmware target,
    the second one, against the same server, returns no target. *)
Lemma second_refresh_loses_targets :
  ¬ refresh_idempotent Vectors.ext Vectors.plain_server Vectors.start.
Proof.
  intros H.
  pose (w1 := (refresh Vectors.ext Vectors.plain_server Vectors.start).2).
  pose (w2 := (refresh Vectors.ext Vectors.plain_server w1).2).
  assert (E1 : refresh Vectors.ext Vectors.plain_server Vectors.start = (Done tt, w1))
    by (vm_compute; reflexivity).
  assert (E2 : refresh Vectors.ext Vectors.plain_server w1 = (Done tt, w2))
    by (vm_compute; reflexivity).
  destruct (H w1 w2 E1 E2) as [_ Ht]. vm_compute in Ht. done.
Qed.

(** The proviso on the file of the timestamp is needed: when the first
    refresh stored another document of type Timestamp over it, the second
    refresh puts the served timestamp back, and so changes a file. *)
Lemma second_refresh_may_rewrite_the_timestamp :
  ¬ refresh_idempotent Vectors.ext Vectors.replaying_server Vectors.prepared.
Proof.
  intros H.
  pose (w1 := (refresh Vectors.ext Vectors.replaying_server Vectors.prepared).2).
  pose (w2 := (refresh Vectors.ext Vectors.replaying_server w1).2).
  assert (E1 : refresh Vectors.ext Vectors.replaying_server Vectors.prepared
               = (Done tt, w1)) by (vm_compute; reflexivity).
  assert (E2 : refresh Vectors.ext Vectors.replaying_server w1 = (Done tt, w2))
    by (vm_compute; reflexivity).
  destruct (H w1 w2 E1 E2) as [Hfs _].
  apply (f_equal (λ d, files d !! ["meta"; "director"; "director"; "timestamp.json"]))
    in Hfs.
  vm_compute in Hfs. done.
Qed.

(** Two refreshes on a store whose directories exist: the first returns
    the firmware target and stores the timestamp, the second changes no
    file and returns no target. *)
Lemma second_refresh_clears_targets_witness :
  let w1 := (refresh Vectors.ext Vectors.plain_server Vectors.prepared).2 in
  getTargets w1 = [Vectors.firmware_target] ∧
  fs (refresh Vectors.ext Vectors.plain_server w1).2 = fs w1 ∧
  getTargets (refresh Vectors.ext Vectors.plain_server w1).2 = [] ∧
  requests (refresh Vectors.ext Vectors.plain_server w1).2
    = requests w1 ++ [GetJson (timestamp_url (repo w1))].
Proof.
  intros w1. split; [vm_compute; reflexivity|].
  apply (second_refresh_clears_targets Vectors.ext Vectors.plain_server
           Vectors.prepared w1).
  - vm_compute; reflexivity.
  - intros p Hp. vm_compute in Hp. injection Hp as <-.
    vm_compute; reflexivity.
Defined.

(** * Further properties *)

(** ** Rejections by the validation routine *)

Section Rejections.

Variable ext : Externals.

Lemma role_of_parts doc role :
  role_of doc = Some role →
  ∃ signed type_ sigs,
    get "signed" doc = Some signed ∧
    get "_type" signed ≫= asString = Some type_ ∧
    role = to_lower_copy type_ ∧
    get "signatures" doc = Some sigs.
Proof.
  unfold role_of. intros H.
  destruct (get "signed" doc) as [signed|] eqn:Es; [|done]. simpl in H.
  destruct (get "_type" signed ≫= asString) as [type_|] eqn:Et; [|done].
  simpl in H. simplify_eq.
  destruct (get "signatures" doc) as [sigs|] eqn:Eg; [|by destruct doc].
  by exists signed, type_, sigs.
Qed.

(** [verifyRole] on a document that has a role, step by step. *)
Lemma verifyRole_run doc w role :
  role_of doc = Some role →
  verifyRole ext doc w =
    match signatures_of doc with
    | [] =>
        (Throw (SecurityException (name_ (repo w))
                  "Missing signatures, verification failed"), w)
    | _ :: _ =>
        if Z.of_nat (length (signatures_of doc)) <? threshold_of (repo w) role then
          (Throw (SecurityException (name_ (repo w))
                    "Signatures count is smaller then threshold, verification failed"),
           after_threshold_read role w)
        else
          for_each (items (default nullValue (get "signatures" doc)))
                   (check_signature ext (canonical_of ext doc))
                   (after_threshold_read role w)
    end.
Proof.
  intros (signed & type_ & sigs & Hs & Ht & -> & Hg)%role_of_parts.
  unfold verifyRole, signatures_of, canonical_of, thresholds_at, threshold_of,
    after_threshold_read, touch_threshold.
  munfold. rewrite Hs. simpl. rewrite Ht. simpl. rewrite Hg. simpl.
  pose proof (size_items sigs) as Hsize.
  rewrite <- (length_fmap snd) in Hsize. rewrite <- Hsize.
  destruct ((items sigs).*2) as [|s0 rest] eqn:El; simpl in Hsize.
  { rewrite Hsize. done. }
  destruct (size sigs =? 0) eqn:E0; [apply Z.eqb_eq in E0; lia|].
  destruct (thresholds_ (repo w) !! to_lower_copy type_) as [t|] eqn:Eth; simpl.
  - destruct w as [r d q]. simpl in *. destruct (size sigs <? t); done.
  - destruct (size sigs <? 0) eqn:Elt; [apply Z.ltb_lt in Elt; lia|]. done.
Qed.

Lemma check_loop_stop canonical pre it post w :
  Forall (λ x, signature_verifies ext (keys_ (repo w)) canonical x.2 = true) pre →
  signature_verifies ext (keys_ (repo w)) canonical it.2 = false →
  for_each (pre ++ it :: post) (check_signature ext canonical) w
  = check_signature ext canonical it w.
Proof.
  intros Hpre Hit. induction Hpre as [|x pre Hx _ IH]; simpl; munfold.
  - destruct (check_signature ext canonical it w) as [o w1] eqn:E.
    apply check_signature_spec in E as [-> E].
    destruct o as [[]|e]; [|done].
    destruct E as [E _]. rewrite (E eq_refl) in Hit. done.
  - destruct (check_signature ext canonical x w) as [o w1] eqn:E.
    apply check_signature_spec in E as [-> E].
    destruct o as [[]|e]; [done|].
    destruct E as [_ E]. by specialize (E Hx).
Qed.

(** X1: a document without signatures is refused with "Missing
    signatures", whatever the thresholds and the trusted keys, and the
    object is left as it was. *)
Theorem unsigned_document_is_refused doc w role :
  role_of doc = Some role →
  signatures_of doc = [] →
  verifyRole ext doc w =
    (Throw (SecurityException (name_ (repo w))
              "Missing signatures, verification failed"), w).
Proof.
  intros Hr Hs. rewrite (verifyRole_run _ _ _ Hr), Hs. done.
Qed.

(** X2: a document with fewer signatures than the threshold of its role
    is refused on the count alone: no signature is looked at, so the
    outcome is the same whether they verify or not, and the object is
    left as it was. *)
Theorem too_few_signatures_are_refused doc w role :
  role_of doc = Some role →
  signatures_of doc ≠ [] →
  Z.of_nat (length (signatures_of doc)) < threshold_of (repo w) role →
  verifyRole ext doc w =
    (Throw (SecurityException (name_ (repo w))
              "Signatures count is smaller then threshold, verification failed"), w).
Proof.
  intros Hr Hs Hlt. rewrite (verifyRole_run _ _ _ Hr).
  destruct (signatures_of doc) as [|s0 rest] eqn:E; [done|].
  apply Z.ltb_lt in Hlt as Hlt'. rewrite Hlt'. f_equal.
  unfold after_threshold_read, touch_threshold, threshold_of in *.
  destruct (thresholds_ (repo w) !! role); [by destruct w|].
  simpl in Hlt. lia.
Qed.

(** X3: one signature that does not verify is enough for the document to
    be refused, however many of the others verify. *)
Theorem one_bad_signature_refuses doc w s :
  s ∈ signatures_of doc →
  signature_verifies ext (keys_ (repo w)) (canonical_of ext doc) s = false →
  (verifyRole ext doc w).1 ≠ Done tt.
Proof.
  intros Hin Hbad Hdone.
  destruct (verifyRole ext doc w) as [o w'] eqn:E. simpl in Hdone. subst o.
  apply verifyRole_spec in E as (_ & _ & _ & [H _]).
  destruct (H eq_refl) as (role & _ & _ & _ & Hall).
  rewrite forallb_forall in Hall. apply list_elem_of_In in Hin.
  rewrite (Hall _ Hin) in Hbad. done.
Qed.

(** X4: when the count suffices, the first signature that does not
    verify decides the exception: its method, as the document writes it,
    if the method is not supported; else its keyid if no such key is
    trusted; else the invalid signature. *)
Theorem first_bad_signature_names_the_error doc w role good s rest :
  role_of doc = Some role →
  threshold_of (repo w) role ≤ Z.of_nat (length (signatures_of doc)) →
  signatures_of doc = good ++ s :: rest →
  Forall (λ x, signature_verifies ext (keys_ (repo w)) (canonical_of ext doc) x = true)
         good →
  (∀ m, get "method" s ≫= asString = Some m → supported_method m = false →
     (verifyRole ext doc w).1 =
       Throw (SecurityException (name_ (repo w)) ("Unsupported sign method: " +:+ m))) ∧
  (∀ m keyid, get "method" s ≫= asString = Some m → supported_method m = true →
     get "keyid" s ≫= asString = Some keyid → keys_ (repo w) !! keyid = None →
     (verifyRole ext doc w).1 =
       Throw (SecurityException (name_ (repo w)) ("Couldn't find a key: " +:+ keyid))) ∧
  (∀ m keyid key sig, get "method" s ≫= asString = Some m → supported_method m = true →
     get "keyid" s ≫= asString = Some keyid → keys_ (repo w) !! keyid = Some key →
     get "sig" s ≫= asString = Some sig →
     VerifySignature ext key sig (canonical_of ext doc) = false →
     (verifyRole ext doc w).1 =
       Throw (SecurityException (name_ (repo w))
                "Invalid signature, verification failed")).
Proof.
  intros Hr Hle Hsigs Hgood.
  rewrite (verifyRole_run _ _ _ Hr).
  unfold signatures_of in *.
  apply fmap_app_inv in Hsigs as (pre & l2 & Hpre & Hl2 & Hitems).
  symmetry in Hl2. apply fmap_cons_inv in Hl2 as (it & post & His & Hpost & ->).
  subst good s rest. rewrite Hitems in *.
  assert (Hne : (pre ++ it :: post).*2 ≠ []).
  { rewrite fmap_app. simpl. by destruct (pre.*2). }
  destruct ((pre ++ it :: post).*2) as [|s0 tl] eqn:El; [done|].
  apply Z.ltb_ge in Hle. rewrite Hle.
  assert (Hpre' : Forall (λ x, signature_verifies ext
                    (keys_ (repo (after_threshold_read role w)))
                    (canonical_of ext doc) x.2 = true) pre).
  { apply Forall_fmap in Hgood.
    eapply Forall_impl; [done|]. intros x Hx. simpl in *.
    unfold touch_threshold. by destruct (thresholds_ (repo w) !! role). }
  assert (Hkeys : keys_ (repo (after_threshold_read role w)) = keys_ (repo w)).
  { simpl. unfold touch_threshold. by destruct (thresholds_ (repo w) !! role). }
  assert (Hname : name_ (touch_threshold role (repo w)) = name_ (repo w)).
  { unfold touch_threshold. by destruct (thresholds_ (repo w) !! role). }
  assert (Hkeys' : keys_ (touch_threshold role (repo w)) = keys_ (repo w)) by done.
  assert (Hstop : signature_verifies ext (keys_ (repo w)) (canonical_of ext doc) it.2 = false →
    (for_each (pre ++ it :: post) (check_signature ext (canonical_of ext doc))
       (after_threshold_read role w)).1
    = (check_signature ext (canonical_of ext doc) it (after_threshold_read role w)).1).
  { intros Hbad. rewrite check_loop_stop; [done|done|]. by rewrite Hkeys. }
  split; [|split].
  - intros m Hm Hsup. rewrite Hstop.
    + unfold check_signature. munfold. rewrite Hm. simpl.
      unfold supported_method in Hsup. apply orb_false_elim in Hsup as [-> ->].
      simpl. by rewrite Hname.
    + unfold signature_verifies. rewrite Hm, Hsup. by destruct (get "keyid" it.2 ≫= asString).
  - intros m keyid Hm Hsup Hk Hnone. rewrite Hstop.
    + unfold check_signature. munfold. rewrite Hm. simpl.
      unfold supported_method in Hsup. apply orb_true_iff in Hsup.
      assert (negb (to_lower_copy m =? "rsassa-pss")%string
              && negb (to_lower_copy m =? "ed25519")%string = false) as ->
        by (destruct Hsup as [-> | ->]; simpl; [done|by rewrite andb_false_r]).
      rewrite Hk. simpl. rewrite Hkeys', Hnone. simpl. by rewrite Hname.
    + unfold signature_verifies. rewrite Hm, Hk, Hsup, Hnone. done.
  - intros m keyid key sig Hm Hsup Hk Hsome Hsig Hbad. rewrite Hstop.
    + unfold check_signature. munfold. rewrite Hm. simpl.
      unfold supported_method in Hsup. apply orb_true_iff in Hsup.
      assert (negb (to_lower_copy m =? "rsassa-pss")%string
              && negb (to_lower_copy m =? "ed25519")%string = false) as ->
        by (destruct Hsup as [-> | ->]; simpl; [done|by rewrite andb_false_r]).
      rewrite Hk. simpl. rewrite Hkeys', Hsome, Hsig. simpl. rewrite Hbad. simpl.
      by rewrite Hname.
    + unfold signature_verifies. rewrite Hm, Hk, Hsup, Hsome, Hsig. done.
Qed.

(** X5: validation has no effect but the reading of one threshold.  It
    sends no request, writes no file, and leaves the trusted keys, the
    targets and the remembered timestamp alone; every threshold keeps
    its value, and the only entry that can appear is the value 0 for the
    role of the document. *)
Theorem verifyRole_only_reads_a_threshold doc w o w' :
  verifyRole ext doc w = (o, w') →
  fs w' = fs w ∧ requests w' = requests w ∧
  keys_ (repo w') = keys_ (repo w) ∧
  targets_ (repo w') = targets_ (repo w) ∧
  timestamp_signed_ (repo w') = timestamp_signed_ (repo w) ∧
  (∀ role t, thresholds_ (repo w) !! role = Some t →
             thresholds_ (repo w') !! role = Some t) ∧
  (∀ role t, thresholds_ (repo w') !! role = Some t →
             thresholds_ (repo w) !! role = Some t ∨
             (t = 0 ∧ role_of doc = Some role)).
Proof.
  intros (Hfs & Hrq & Hrepo & _)%verifyRole_spec. rewrite Hrepo.
  destruct (after_verifyRole_keeps doc (repo w)) as (_ & Hk & Ht & Hts).
  destruct (after_verifyRole_thresholds doc (repo w)) as [Hkeep Hnew].
  repeat split; done.
Qed.

End Rejections.

(** A targets document without signatures. *)
Lemma unsigned_document_is_refused_witness :
  role_of Cases.unsigned = Some "targets"%string ∧
  signatures_of Cases.unsigned = [] ∧
  verifyRole Vectors.ext Cases.unsigned Vectors.start =
    (Throw (SecurityException "director" "Missing signatures, verification failed"),
     Vectors.start).
Proof.
  assert (H1 : role_of Cases.unsigned = Some "targets"%string) by (vm_compute; reflexivity).
  assert (H2 : signatures_of Cases.unsigned = []) by (vm_compute; reflexivity).
  split; [exact H1|]. split; [exact H2|].
  exact (unsigned_document_is_refused Vectors.ext _ Vectors.start _ H1 H2).
Defined.

(** One signature, and a forged one, under a threshold of 2. *)
Lemma too_few_signatures_are_refused_witness :
  let doc := Vectors.document Vectors.targets_signed [Cases.forged] in
  Z.of_nat (length (signatures_of doc)) < threshold_of (repo Vectors.strict) "targets" ∧
  verifyRole Vectors.ext doc Vectors.strict =
    (Throw (SecurityException "director"
              "Signatures count is smaller then threshold, verification failed"),
     Vectors.strict).
Proof.
  intros doc.
  assert (H1 : role_of doc = Some "targets"%string) by (vm_compute; reflexivity).
  assert (H2 : signatures_of doc ≠ []) by (vm_compute; discriminate).
  assert (H3 : Z.of_nat (length (signatures_of doc))
               < threshold_of (repo Vectors.strict) "targets")
    by (vm_compute; reflexivity).
  split; [exact H3|].
  exact (too_few_signatures_are_refused Vectors.ext doc Vectors.strict _ H1 H2 H3).
Defined.

(** A valid signature followed by a forged one, under a threshold of 1. *)
Lemma one_bad_signature_refuses_witness :
  let doc := Vectors.document Vectors.targets_signed [Cases.good; Cases.forged] in
  Cases.forged ∈ signatures_of doc ∧
  (verifyRole Vectors.ext doc Vectors.start).1 ≠ Done tt.
Proof.
  intros doc.
  assert (H1 : Cases.forged ∈ signatures_of doc).
  { apply list_elem_of_further, list_elem_of_here. }
  split; [exact H1|].
  apply (one_bad_signature_refuses Vectors.ext doc Vectors.start Cases.forged H1).
  vm_compute; reflexivity.
Defined.

(** A valid signature followed by one with the method DSA, by one of
    the key k9, and by a forged one. *)
Lemma first_bad_signature_names_the_error_witness :
  (verifyRole Vectors.ext
     (Vectors.document Vectors.targets_signed [Cases.good; Cases.dsa_signed])
     Vectors.start).1
  = Throw (SecurityException "director" "Unsupported sign method: DSA") ∧
  (verifyRole Vectors.ext
     (Vectors.document Vectors.targets_signed [Cases.good; Cases.stranger])
     Vectors.start).1
  = Throw (SecurityException "director" "Couldn't find a key: k9") ∧
  (verifyRole Vectors.ext
     (Vectors.document Vectors.targets_signed [Cases.good; Cases.forged])
     Vectors.start).1
  = Throw (SecurityException "director" "Invalid signature, verification failed").
Proof.
  assert (Hgood : ∀ doc,
    canonical_of Vectors.ext doc = Vectors.write Vectors.targets_signed →
    Forall (λ x, signature_verifies Vectors.ext (keys_ (repo Vectors.start))
                   (canonical_of Vectors.ext doc) x = true) [Cases.good]).
  { intros doc ->. constructor; [vm_compute; reflexivity|constructor]. }
  split; [|split].
  - refine (proj1 (first_bad_signature_names_the_error Vectors.ext
              (Vectors.document Vectors.targets_signed [Cases.good; Cases.dsa_signed])
              Vectors.start "targets" [Cases.good] Cases.dsa_signed [] _ _ _ _)
              "DSA"%string _ _); try (vm_compute; reflexivity).
    + vm_compute; discriminate.
    + by apply Hgood.
  - refine (proj1 (proj2 (first_bad_signature_names_the_error Vectors.ext
              (Vectors.document Vectors.targets_signed [Cases.good; Cases.stranger])
              Vectors.start "targets" [Cases.good] Cases.stranger [] _ _ _ _))
              "ed25519"%string "k9"%string _ _ _ _); try (vm_compute; reflexivity).
    + vm_compute; discriminate.
    + by apply Hgood.
  - refine (proj2 (proj2 (first_bad_signature_names_the_error Vectors.ext
              (Vectors.document Vectors.targets_signed [Cases.good; Cases.forged])
              Vectors.start "targets" [Cases.good] Cases.forged [] _ _ _ _))
              "ed25519"%string "k1"%string (mkPublicKey "pub1" "ed25519")
              ("other/" +:+ Vectors.write Vectors.targets_signed)%string _ _ _ _ _ _);
      try (vm_compute; reflexivity).
    + vm_compute; discriminate.
    + by apply Hgood.
Defined.

(** The document of type Delegation, whose validation leaves the entry
    0 for delegation. *)
Lemma verifyRole_only_reads_a_threshold_witness :
  let doc := Vectors.signed_by_k1 Vectors.undeclared_signed in
  let w' := (verifyRole Vectors.ext doc Vectors.start).2 in
  keys_ (repo w') = keys_ (repo Vectors.start) ∧
  fs w' = fs Vectors.start ∧ requests w' = requests Vectors.start ∧
  thresholds_ (repo w') !! "root"%string = Some 1.
Proof.
  intros doc w'.
  destruct (verifyRole_only_reads_a_threshold Vectors.ext doc Vectors.start
              (verifyRole Vectors.ext doc Vectors.start).1 w')
    as (Hfs & Hrq & Hk & _ & _ & Hkeep & _).
  { vm_compute; reflexivity. }
  split; [exact Hk|]. split; [exact Hfs|]. split; [exact Hrq|].
  apply Hkeep. vm_compute; reflexivity.
Defined.

(** ** What a root does to the trust state *)

Section Trust.

(** A loop whose body takes in one entry per member: on members that are
    all accepted it ends normally, and before the first member that
    makes the body throw it has taken in those before. *)
Lemma loop_accepts {A B} (body : A → M unit) (entry : A → option B)
    (take : B → World → World) :
  (∀ it w e, entry it = Some e → body it w = (Done tt, take e w)) →
  ∀ l es w, mapM entry l = Some es →
    for_each l body w = (Done tt, foldl (λ w e, take e w) w es).
Proof.
  intros Hbody. induction l as [|it l IH]; intros es w H; csimpl in H.
  - by simplify_option_eq.
  - destruct (entry it) as [e|] eqn:Ee; [|done]. csimpl in H.
    destruct (mapM entry l) as [es'|] eqn:El; [|done]. simplify_option_eq.
    munfold. rewrite (Hbody _ _ _ Ee). by apply IH.
Qed.

Lemma loop_stops {A B} (body : A → M unit) (entry : A → option B)
    (take : B → World → World) :
  (∀ it w e, entry it = Some e → body it w = (Done tt, take e w)) →
  ∀ pre it post es w x w',
    mapM entry pre = Some es →
    body it (foldl (λ w e, take e w) w es) = (Throw x, w') →
    for_each (pre ++ it :: post) body w = (Throw x, w').
Proof.
  intros Hbody. induction pre as [|p pre IH]; intros it post es w x w' H Hthrow;
    csimpl in H.
  - simplify_option_eq. munfold. by rewrite Hthrow.
  - destruct (entry p) as [e|] eqn:Ee; [|done]. csimpl in H.
    destruct (mapM entry pre) as [es'|] eqn:El; [|done]. simplify_option_eq.
    munfold. rewrite (Hbody _ _ _ Ee). by eapply IH.
Qed.

Lemma add_keys_union ks (m : gmap string PublicKey) :
  add_keys ks m = m ∪ list_to_map ks.
Proof.
  revert m. induction ks as [|[k v] ks IH]; intros m; simpl.
  - by rewrite (right_id_L ∅ (∪)).
  - unfold add_keys in *. simpl. rewrite IH. unfold map_insert. simpl.
    apply map_eq. intros i. rewrite !lookup_union.
    destruct (m !! k) eqn:Ek.
    + destruct (decide (i = k)) as [->|Hne].
      * rewrite Ek, lookup_insert_eq. by destruct (list_to_map ks !! k).
      * by rewrite lookup_insert_ne.
    + destruct (decide (i = k)) as [->|Hne].
      * rewrite Ek, !lookup_insert_eq. by destruct (list_to_map ks !! k).
      * by rewrite !lookup_insert_ne.
Qed.

Lemma set_thresholds_union rs (m : gmap string Z) :
  set_thresholds rs m = list_to_map (reverse rs) ∪ m.
Proof.
  revert m. induction rs as [|[k v] rs IH]; intros m; simpl.
  - by rewrite (left_id_L ∅ (∪)).
  - unfold set_thresholds in *. simpl. rewrite IH.
    rewrite reverse_cons, list_to_map_app. simpl.
    rewrite <- (assoc_L (∪)). f_equal.
    rewrite insert_empty. by rewrite <- insert_union_singleton_l.
Qed.

(** The members of a root that [initRoot] came through without an
    error. *)
Lemma initRoot_done content w w' :
  initRoot content w = (Done tt, w') →
  ∃ jk jr ks rs,
    get "signed" content ≫= get "keys" = Some jk ∧
    get "signed" content ≫= get "roles" = Some jr ∧
    mapM key_entry (items jk) = Some ks ∧
    mapM role_entry (items jr) = Some rs ∧
    w' = with_trust ks rs w.
Proof.
  unfold initRoot. intros H. munfold.
  destruct (get "signed" content ≫= get "keys") as [jk|]; simpl in *; [|done].
  destruct (for_each (items jk) ingest_key w) as [o1 w1] eqn:E1.
  apply ingest_keys_spec in E1 as (ks & _ & Hr1 & Hfs1 & Hrq1 & Hd1).
  destruct o1 as [[]|e]; [|done].
  destruct (get "signed" content ≫= get "roles") as [jr|]; simpl in *; [|done].
  apply ingest_roles_spec in H as (rs & _ & Hr2 & Hfs2 & Hrq2 & Hd2).
  exists jk, jr, ks, rs. repeat split; auto.
  apply world_eq; simpl; try congruence.
  rewrite Hr2, Hr1. by destruct (repo w).
Qed.

Lemma initRoot_accepts content w jk jr ks rs :
  get "signed" content ≫= get "keys" = Some jk →
  get "signed" content ≫= get "roles" = Some jr →
  mapM key_entry (items jk) = Some ks →
  mapM role_entry (items jr) = Some rs →
  initRoot content w = (Done tt, with_trust ks rs w).
Proof.
  intros Hk Hr Hks Hrs. unfold initRoot. munfold. rewrite Hk. simpl.
  rewrite (loop_accepts _ _ _ ingest_key_accepts _ _ _ Hks), take_keys.
  rewrite Hr. simpl.
  by rewrite (loop_accepts _ _ _ ingest_role_accepts _ _ _ Hrs), take_roles.
Qed.

Lemma role_entry_bounds it e :
  role_entry it = Some e → kMinSignatures ≤ e.2 ≤ kMaxSignatures.
Proof.
  unfold role_entry. intros H.
  destruct (asString it.1); [|done]. csimpl in H.
  destruct (get "threshold" it.2 ≫= asInt) as [t|]; [|done]. csimpl in H.
  destruct (kMinSignatures <=? t) eqn:E1; [|done].
  destruct (t <=? kMaxSignatures) eqn:E2; [|done].
  simpl in H. simplify_eq. simpl. lia.
Qed.

Lemma set_thresholds_lookup rs (m : gmap string Z) k t :
  set_thresholds rs m !! k = Some t → m !! k = Some t ∨ (k, t) ∈ rs.
Proof.
  rewrite set_thresholds_union, lookup_union_Some_raw.
  intros [H|[_ H]]; [|by left].
  right. apply elem_of_list_to_map_2 in H. by apply elem_of_reverse.
Qed.

(** X6: [initRoot] never stores a threshold outside the bounds: after
    it, whatever its outcome, every threshold of the trust state lies
    between kMinSignatures and kMaxSignatures or is an entry that was
    there before, with the value it had. *)
Theorem initRoot_keeps_thresholds_in_bounds content w o w' role t :
  initRoot content w = (o, w') →
  thresholds_ (repo w') !! role = Some t →
  thresholds_ (repo w) !! role = Some t ∨
  kMinSignatures ≤ t ≤ kMaxSignatures.
Proof.
  unfold initRoot. intros H Hrt. munfold.
  destruct (get "signed" content ≫= get "keys") as [jk|]; simpl in *;
    [|simplify_eq; by left].
  destruct (for_each (items jk) ingest_key w) as [o1 w1] eqn:E1.
  apply ingest_keys_spec in E1 as (ks & _ & Hr1 & _).
  assert (Hth1 : thresholds_ (repo w1) = thresholds_ (repo w)) by (by rewrite Hr1).
  destruct o1 as [[]|e]; [|simplify_eq; left; congruence].
  destruct (get "signed" content ≫= get "roles") as [jr|]; simpl in *;
    [|simplify_eq; left; congruence].
  apply ingest_roles_spec in H as (rs & [n Hn] & Hr2 & _).
  rewrite Hr2 in Hrt. simpl in Hrt. rewrite Hth1 in Hrt.
  apply set_thresholds_lookup in Hrt as [?|Hin]; [by left|]. right.
  apply mapM_Some_1 in Hn.
  apply list_elem_of_lookup in Hin as [i Hi].
  destruct (Forall2_lookup_r _ _ _ _ _ Hn Hi) as (it & _ & Hit).
  by apply role_entry_bounds in Hit.
Qed.


(** X8: the first key of a root whose key type is neither rsa nor
    ed25519, in any case of letters, ends the ingestion with a
    SecurityException that quotes the key type as the document writes
    it; the keys before it are trusted by then, and no threshold has been
    touched. *)
Theorem unsupported_key_type_stops_ingestion content w jk pre it post ks keytype :
  get "signed" content ≫= get "keys" = Some jk →
  items jk = pre ++ it :: post →
  mapM key_entry pre = Some ks →
  get "keytype" it.2 ≫= asString = Some keytype →
  supported_keytype keytype = false →
  initRoot content w =
    (Throw (SecurityException (name_ (repo w)) ("Unsupported key type: " +:+ keytype)),
     with_trust ks [] w).
Proof.
  intros Hk Hitems Hks Hty Hsup. unfold initRoot. munfold. rewrite Hk. simpl.
  rewrite Hitems.
  erewrite (loop_stops _ _ _ ingest_key_accepts _ _ _ _ _ _ _ Hks); [done|].
  rewrite take_keys. unfold ingest_key. munfold. rewrite Hty. simpl.
  unfold supported_keytype in Hsup. apply orb_false_elim in Hsup as [-> ->]. done.
Qed.

(** X9: when [initRoot] ends normally, the trusted keys are the keys
    trusted before together with the declared ones, a keyid trusted
    before keeping its key, and the thresholds are the declared ones
    together with those held before, a declared role taking its declared
    threshold. *)
Theorem ingested_root_extends_trust content w w' :
  initRoot content w = (Done tt, w') →
  ∃ ks rs,
    mapM key_entry (declared_keys content) = Some ks ∧
    mapM role_entry (declared_roles content) = Some rs ∧
    keys_ (repo w') = keys_ (repo w) ∪ list_to_map ks ∧
    thresholds_ (repo w') = list_to_map (reverse rs) ∪ thresholds_ (repo w).
Proof.
  intros (jk & jr & ks & rs & Hk & Hr & Hks & Hrs & ->)%initRoot_done.
  exists ks, rs. unfold declared_keys, declared_roles. rewrite Hk, Hr. simpl.
  repeat split; try done.
  - apply add_keys_union.
  - apply set_thresholds_union.
Qed.

(** X10: ingesting the same root a second time changes nothing: after a
    root that [initRoot] came through, [initRoot] on it again ends
    normally and leaves the world as it is. *)
Theorem initRoot_twice content w w' :
  initRoot content w = (Done tt, w') →
  initRoot content w' = (Done tt, w').
Proof.
  intros (jk & jr & ks & rs & Hk & Hr & Hks & Hrs & ->)%initRoot_done.
  rewrite (initRoot_accepts _ _ _ _ _ _ Hk Hr Hks Hrs). f_equal.
  apply world_eq; try done. simpl.
  rewrite !add_keys_union, !set_thresholds_union.
  rewrite <- (assoc_L (∪) (keys_ (repo w))), (idemp_L (∪)).
  rewrite (assoc_L (∪) (list_to_map (reverse rs))), (idemp_L (∪)).
  by destruct (repo w).
Qed.

End Trust.

(** The root of the vectors, ingested: the threshold 1 of root. *)
Lemma initRoot_keeps_thresholds_in_bounds_witness :
  thresholds_ (repo (initRoot Vectors.rotated_root Vectors.start).2) !! "root"%string
    = Some 1 ∧
  (thresholds_ (repo Vectors.start) !! "root"%string = Some 1 ∨
   kMinSignatures ≤ 1 ≤ kMaxSignatures).
Proof.
  assert (H : thresholds_ (repo (initRoot Vectors.rotated_root Vectors.start).2)
              !! "root"%string = Some 1) by (vm_compute; reflexivity).
  split; [exact H|].
  refine (initRoot_keeps_thresholds_in_bounds Vectors.rotated_root Vectors.start
            (initRoot Vectors.rotated_root Vectors.start).1 _ _ _ _ H).
  vm_compute; reflexivity.
Defined.


(** The root whose second key has the key type dsa. *)
Lemma unsupported_key_type_stops_ingestion_witness :
  initRoot Vectors.bad_root Vectors.start =
    (Throw (SecurityException "director" "Unsupported key type: dsa"),
     with_trust [Cases.k2_entry] [] Vectors.start).
Proof.
  refine (unsupported_key_type_stops_ingestion Vectors.bad_root Vectors.start
            (objectValue [("k2"%string, Vectors.key_decl "ed25519" "pub2");
                          ("k3"%string, Vectors.key_decl "dsa" "pub3")])
            [(stringValue "k2", Vectors.key_decl "ed25519" "pub2")]
            (stringValue "k3", Vectors.key_decl "dsa" "pub3") []
            [Cases.k2_entry] "dsa" _ _ _ _ _);
    vm_compute; reflexivity.
Defined.

(** The root of the vectors: k1 stays trusted and k2 joins it. *)
Lemma ingested_root_extends_trust_witness :
  let w' := (initRoot Vectors.rotated_root Vectors.start).2 in
  keys_ (repo w') !! "k1"%string = Some (mkPublicKey "pub1" "ed25519") ∧
  keys_ (repo w') !! "k2"%string = Some (mkPublicKey "pub2" "ed25519").
Proof.
  intros w'.
  destruct (ingested_root_extends_trust Vectors.rotated_root Vectors.start w')
    as (ks & rs & Hks & _ & Hk & _).
  { vm_compute; reflexivity. }
  rewrite Hk. vm_compute in Hks. injection Hks as <-.
  split; vm_compute; reflexivity.
Defined.

Lemma initRoot_twice_witness :
  let w' := (initRoot Vectors.rotated_root Vectors.start).2 in
  initRoot Vectors.rotated_root w' = (Done tt, w').
Proof.
  intros w'.
  apply (initRoot_twice Vectors.rotated_root Vectors.start w').
  vm_compute; reflexivity.
Defined.

(** ** Fetching, saving and downloading *)

Section Documents.

Variable ext : Externals.
Variable http : HttpClient.

Lemma accepted_has_save_path r doc :
  accepted ext r doc → is_Some (save_path r doc).
Proof. intros (role & Hr & _). unfold save_path. rewrite Hr. by eexists. Qed.

(** X11: [updateRoot] ends normally exactly when [initRoot] takes the
    served root in without an error and the trust state that this leaves
    accepts the root; the keys that the root itself declares therefore
    count when its signatures are verified. *)
Theorem updateRoot_verifies_after_ingesting w :
  (updateRoot ext http w).1 = Done tt ↔
  (initRoot (http_getJson http (role_url (repo w) "root.json"))
            (after_request (GetJson (role_url (repo w) "root.json")) w)).1 = Done tt ∧
  accepted ext
    (repo (initRoot (http_getJson http (role_url (repo w) "root.json"))
                    (after_request (GetJson (role_url (repo w) "root.json")) w)).2)
    (http_getJson http (role_url (repo w) "root.json")).
Proof.
  unfold updateRoot. munfold. rewrite getJSON_spec.
  fold (role_url (repo w) "root.json").
  fold (after_request (GetJson (role_url (repo w) "root.json")) w).
  destruct (initRoot _ _) as [oi w1] eqn:Ei. simpl.
  destruct oi as [[]|e]; [|split; [done|by intros [? _]]].
  destruct (verifyRole ext _ w1) as [ov w2] eqn:Ev.
  apply verifyRole_spec in Ev as (_ & _ & Hrepo & Hacc).
  destruct ov as [[]|e].
  - destruct Hacc as [Hacc _]. specialize (Hacc eq_refl).
    destruct (saveRole ext _ w2) as [os w3] eqn:Es.
    apply saveRole_spec in Es as (_ & _ & Hs).
    rewrite Hrepo, save_path_after_verifyRole in Hs.
    destruct (accepted_has_save_path _ _ Hacc) as [p Hp]. rewrite Hp in Hs.
    destruct Hs as [-> _]. done.
  - split; [done|]. intros [_ Ha]. by apply Hacc in Ha.
Qed.

(** X12: a served root that [initRoot] takes in but whose signatures are
    then refused has changed the trust state all the same: [updateRoot]
    throws, saves nothing and has sent its one request, and the keys and
    thresholds that ingestion put into the trust state are still
    there. *)
Theorem refused_root_stays_ingested w w1 :
  initRoot (http_getJson http (role_url (repo w) "root.json"))
           (after_request (GetJson (role_url (repo w) "root.json")) w) = (Done tt, w1) →
  ¬ accepted ext (repo w1) (http_getJson http (role_url (repo w) "root.json")) →
  (∃ e, (updateRoot ext http w).1 = Throw e) ∧
  keys_ (repo (updateRoot ext http w).2) = keys_ (repo w1) ∧
  (∀ role t, thresholds_ (repo w1) !! role = Some t →
             thresholds_ (repo (updateRoot ext http w).2) !! role = Some t) ∧
  fs (updateRoot ext http w).2 = fs w ∧
  requests (updateRoot ext http w).2 = requests w ++ [GetJson (role_url (repo w) "root.json")].
Proof.
  intros Hi Hno. unfold updateRoot. munfold. rewrite getJSON_spec.
  fold (role_url (repo w) "root.json").
  fold (after_request (GetJson (role_url (repo w) "root.json")) w).
  pose proof (initRoot_frame _ _ _ _ Hi) as (_ & Hfs1 & Hrq1).
  rewrite Hi. simpl.
  destruct (verifyRole ext _ w1) as [ov w2] eqn:Ev.
  apply verifyRole_spec in Ev as (Hfs2 & Hrq2 & Hrepo & Hacc).
  destruct ov as [[]|e]; [by destruct Hacc as [Hacc _]; specialize (Hacc eq_refl)|].
  simpl. rewrite Hrepo.
  destruct (after_verifyRole_keeps (http_getJson http (role_url (repo w) "root.json"))
              (repo w1)) as (_ & Hk & _).
  destruct (after_verifyRole_thresholds
              (http_getJson http (role_url (repo w) "root.json")) (repo w1))
    as [Hkeep _].
  simpl in Hfs1, Hrq1. repeat split; eauto; congruence.
Qed.

(** X13: [updateRole] sends one request, and what it fetched is saved
    exactly when [verifyRole] accepts it: an accepted document is
    returned and written where [saveRole] puts it, a refused one leaves
    the store as it was. *)
Theorem updateRole_saves_what_it_accepts role w :
  ((updateRole ext http role w).1 = Done (http_getJson http (role_url (repo w) role)) ↔
     accepted ext (repo w) (http_getJson http (role_url (repo w) role))) ∧
  (accepted ext (repo w) (http_getJson http (role_url (repo w) role)) →
     ∃ p, save_path (repo w) (http_getJson http (role_url (repo w) role)) = Some p ∧
          fs (updateRole ext http role w).2 =
            write_file p (stream_write ext (http_getJson http (role_url (repo w) role)))
                       (fs w)) ∧
  (¬ accepted ext (repo w) (http_getJson http (role_url (repo w) role)) →
     (∃ e, (updateRole ext http role w).1 = Throw e) ∧
     fs (updateRole ext http role w).2 = fs w) ∧
  requests (updateRole ext http role w).2
    = requests w ++ [GetJson (role_url (repo w) role)].
Proof.
  unfold role_url.
  destruct (updateRole ext http role w) as [o w'] eqn:E. simpl.
  apply updateRole_spec in E as (Hrq & _ & [(e & -> & Hfs & Hno)|(-> & Hacc & Hp)]).
  - repeat split; try done; eauto.
  - repeat split; try done.
Qed.

(** X14: a served timestamp that [verifyRole] refuses is neither
    remembered nor saved: [checkTimestamp] throws, and the remembered
    timestamp, the trusted keys and the store are as before. *)
Theorem refused_timestamp_is_not_remembered w :
  ¬ accepted ext (repo w) (http_getJson http (timestamp_url (repo w))) →
  (∃ e, (checkTimestamp ext http w).1 = Throw e) ∧
  timestamp_signed_ (repo (checkTimestamp ext http w).2) = timestamp_signed_ (repo w) ∧
  keys_ (repo (checkTimestamp ext http w).2) = keys_ (repo w) ∧
  fs (checkTimestamp ext http w).2 = fs w.
Proof.
  intros Hno. unfold checkTimestamp, timestamp_url in *. munfold.
  destruct (updateRole ext http "timestamp.json" w) as [o w1] eqn:E.
  apply updateRole_spec in E as (_ & Hrepo & [(e & -> & Hfs & _)|(-> & Hacc & _)]);
    [|done].
  simpl. rewrite Hrepo.
  destruct (after_verifyRole_keeps
              (http_getJson http (base_url_ (repo w) +:+ "/" +:+ "timestamp.json"))
              (repo w)) as (_ & Hk & _ & Hts).
  repeat split; eauto.
Qed.

(** X15: where the pathname that [saveRole] builds, the path of the
    repository, its name and the lower-cased type of the document
    followed by .json, leads to a place that is not a directory, every
    name on the way being followed as the operating system follows it,
    [saveRole] writes that one file: reading the pathname gives back
    what was written, and every other file and every directory is as
    before.  Under a path without a character 0 and a repository name
    and a type that are plain names, the file bears the name of the type
    in the directory of that name below the path of the repository. *)
Theorem saved_role_reads_back content w p l :
  save_path (repo w) content = Some p →
  opens p (fs w) = Some l →
  (saveRole ext content w).1 = Done tt ∧
  read_file p (fs (saveRole ext content w).2) = stream_write ext content ∧
  files (fs (saveRole ext content w).2) !! l = Some (stream_write ext content) ∧
  (∀ q, q ≠ l → files (fs (saveRole ext content w).2) !! q = files (fs w) !! q) ∧
  dirs (fs (saveRole ext content w).2) = dirs (fs w) ∧
  (∀ role, role_of content = Some role →
     clean (path_ (repo w)) = true →
     plain (name_ (repo w)) = true → plain (role +:+ ".json") = true →
     ∃ dir, reach (path_ (repo w)) (fs w) = Some dir ∧
            l = dir ++ [name_ (repo w); role +:+ ".json"]).
Proof.
  intros Hp Ho.
  destruct (saveRole ext content w) as [o w'] eqn:E. simpl.
  apply saveRole_spec in E as (_ & _ & E). rewrite Hp in E. destruct E as [-> ->].
  split; [done|]. split; [by eapply read_written|].
  split; [by apply write_file_at|].
  split; [intros q Hq; apply write_file_other; congruence|].
  split; [apply write_file_keeps|].
  intros role Hrole Hclean Hname Hfile. unfold save_path in Hp. rewrite Hrole in Hp.
  simpl in Hp. injection Hp as <-. apply opens_locate in Ho.
  apply locate_two in Ho as (dir & ? & _ & _ & ?); eauto.
Qed.

(** X16: where that pathname leads nowhere, a name on the way not being
    a directory, or leads to a directory, [saveRole] ends normally all
    the same and the world is as before: the document is dropped without
    an error. *)
Theorem unsaved_role_is_dropped_silently content w p :
  save_path (repo w) content = Some p →
  opens p (fs w) = None →
  saveRole ext content w = (Done tt, w).
Proof.
  intros Hp Ho.
  destruct (saveRole ext content w) as [o w'] eqn:E.
  apply saveRole_spec in E as (Hr & Hq & E). rewrite Hp in E. destruct E as [-> Hfs].
  f_equal. apply world_eq; try done.
  rewrite Hfs. by apply write_file_unopened.
Qed.

(** X17: when [saveTarget] throws, the target had a positive declared
    length and one download was requested; nothing was written and the
    target was not listed.  The exception is OversizedTarget when the
    content is longer than declared, whatever its hash, and
    TargetHashMismatch when the content fits and its hash does not
    match. *)
Theorem failed_download_leaves_no_trace target w e :
  (saveTarget ext http target w).1 = Throw e →
  0 < length_ target ∧
  fs (saveTarget ext http target w).2 = fs w ∧
  targets_ (repo (saveTarget ext http target w).2) = targets_ (repo w) ∧
  requests (saveTarget ext http target w).2
    = requests w ++ [Get (role_url (repo w) (filename_ target))] ∧
  ((e = OversizedTarget (name_ (repo w)) ∧
    length_ target < Z.of_nat (String.length (served http target w))) ∨
   (e = TargetHashMismatch (name_ (repo w)) ∧
    Z.of_nat (String.length (served http target w)) ≤ length_ target ∧
    matchWith ext (hash_ target) (served http target w) = false)).
Proof.
  unfold saveTarget, served, role_url. munfold. simpl.
  destruct (0 <? length_ target) eqn:Epos; simpl; [|done].
  apply Z.ltb_lt in Epos.
  destruct (length_ target <? _) eqn:Elt; simpl.
  - apply Z.ltb_lt in Elt. intros ?; simplify_eq. repeat split; try done. by left.
  - apply Z.ltb_ge in Elt.
    destruct (matchWith ext _ _) eqn:Em; simpl; [done|].
    intros ?; simplify_eq. repeat split; try done. by right.
Qed.

(** What [saveTarget] does to the store: it writes the served content
    where the pathname of the target leads, when the target has a
    positive length and the content passes the two checks. *)
Lemma saveTarget_store target w :
  fs (saveTarget ext http target w).2 = fs w ∨
  (0 < length_ target ∧ passes_checks ext http (base_url_ (repo w)) target ∧
   fs (saveTarget ext http target w).2
   = write_file (target_path (repo w) target) (served http target w) (fs w)).
Proof.
  unfold saveTarget, served, target_path, passes_checks. munfold. simpl.
  destruct (0 <? length_ target) eqn:Epos; simpl; [|by left].
  apply Z.ltb_lt in Epos.
  destruct (length_ target <? _) eqn:Elt; simpl; [by left|].
  apply Z.ltb_ge in Elt.
  destruct (matchWith ext _ _) eqn:Em; simpl; [|by left].
  right. done.
Qed.

(** X18: a file that [saveTarget] creates or changes is the one that the
    pathname of the target leads to, the path of the repository, its
    name, targets and the name of the target; it holds the served
    content, and that content is no longer than the declared length and
    matches the declared hash.  For a target whose name is plain, under
    a path and a repository name without a character 0, the file lies
    in the targets directory under that name. *)
Theorem written_target_was_checked target w l :
  files (fs (saveTarget ext http target w).2) !! l ≠ files (fs w) !! l →
  opens (target_path (repo w) target) (fs w) = Some l ∧
  files (fs (saveTarget ext http target w).2) !! l = Some (served http target w) ∧
  0 < length_ target ∧
  passes_checks ext http (base_url_ (repo w)) target ∧
  (clean (path_ (repo w) ++ [name_ (repo w)]) = true →
   plain (filename_ target) = true →
   ∃ dir, reach (path_ (repo w) ++ [name_ (repo w); "targets"]) (fs w) = Some dir ∧
          l = dir ++ [filename_ target]).
Proof.
  intros Hne.
  destruct (saveTarget_store target w) as [Hfs|(Hpos & Hc & Hfs)];
    rewrite Hfs in *; [done|].
  assert (Ho : opens (target_path (repo w) target) (fs w) = Some l).
  { destruct (decide (opens (target_path (repo w) target) (fs w) = Some l));
      [done|]. by rewrite write_file_other in Hne. }
  split; [done|]. split; [by apply write_file_at|]. split; [done|]. split; [done|].
  intros Hclean Hplain. apply opens_locate in Ho. unfold target_path in Ho.
  change [name_ (repo w); "targets"%string; filename_ target]
    with ([name_ (repo w); "targets"%string] ++ [filename_ target]) in Ho.
  rewrite (assoc_L (++)) in Ho.
  apply locate_one in Ho as (dir & ? & _ & ?); eauto.
  change [name_ (repo w); "targets"%string]
    with ([name_ (repo w)] ++ ["targets"%string]).
  rewrite (assoc_L (++)). by apply clean_snoc.
Qed.

End Documents.

(** The served root declares k2 and carries a forged signature of k2:
    [updateRoot] throws, and k2 is trusted afterwards. *)
Lemma refused_root_stays_ingested_witness :
  (∃ e, (updateRoot Vectors.ext Cases.forged_root_server Vectors.start).1 = Throw e) ∧
  keys_ (repo (updateRoot Vectors.ext Cases.forged_root_server Vectors.start).2)
    !! "k2"%string = Some (mkPublicKey "pub2" "ed25519").
Proof.
  pose (w0 := after_request (GetJson (role_url (repo Vectors.start) "root.json"))
                Vectors.start).
  pose (root := http_getJson Cases.forged_root_server
                  (role_url (repo Vectors.start) "root.json")).
  assert (Hi : initRoot root w0 = (Done tt, (initRoot root w0).2))
    by (vm_compute; reflexivity).
  destruct (refused_root_stays_ingested Vectors.ext Cases.forged_root_server
              Vectors.start _ Hi) as (He & Hk & _).
  { intros (role & _ & _ & _ & Hall). vm_compute in Hall. done. }
  split; [exact He|]. rewrite Hk. vm_compute; reflexivity.
Defined.

(** The timestamp of the vectors is accepted and saved; the snapshot
    requested from a server that has none is refused. *)
Lemma updateRole_saves_what_it_accepts_witness :
  (updateRole Vectors.ext Vectors.plain_server "timestamp.json" Vectors.prepared).1
    = Done (Vectors.timestamp_doc 2) ∧
  fs (updateRole Vectors.ext Cases.forged_timestamp_server "snapshot.json"
        Vectors.prepared).2 = fs Vectors.prepared.
Proof.
  split.
  - apply (proj1 (updateRole_saves_what_it_accepts Vectors.ext Vectors.plain_server
                    "timestamp.json" Vectors.prepared)).
    exists "timestamp"%string. repeat split; try (vm_compute; reflexivity).
    + vm_compute; discriminate.
    + vm_compute; discriminate.
  - apply (proj1 (proj2 (proj2 (updateRole_saves_what_it_accepts Vectors.ext
                    Cases.forged_timestamp_server "snapshot.json" Vectors.prepared)))).
    intros (role & _ & Hne & _). by apply Hne.
Defined.

(** Version 5 is remembered and the served timestamp is forged. *)
Lemma refused_timestamp_is_not_remembered_witness :
  (∃ e, (checkTimestamp Vectors.ext Cases.forged_timestamp_server Vectors.seen5).1
        = Throw e) ∧
  version_of (timestamp_signed_
                (repo (checkTimestamp Vectors.ext Cases.forged_timestamp_server
                         Vectors.seen5).2)) = intValue 5.
Proof.
  destruct (refused_timestamp_is_not_remembered Vectors.ext
              Cases.forged_timestamp_server Vectors.seen5) as (He & Hts & _).
  { intros (role & _ & _ & _ & Hall). vm_compute in Hall. done. }
  split; [exact He|]. rewrite Hts. reflexivity.
Defined.

(** The timestamp of the vectors, saved where the directories exist. *)
Lemma saved_role_reads_back_witness :
  read_file ["meta"; "director"; "director"; "timestamp.json"]
    (fs (saveRole Vectors.ext (Vectors.timestamp_doc 2) Vectors.prepared).2)
  = stream_write Vectors.ext (Vectors.timestamp_doc 2).
Proof.
  refine (proj1 (proj2 (saved_role_reads_back Vectors.ext (Vectors.timestamp_doc 2)
                          Vectors.prepared _
                          ["meta"; "director"; "director"; "timestamp.json"]%string
                          _ _)));
    vm_compute; reflexivity.
Defined.

(** The same document, saved where the constructor alone has made
    directories. *)
Lemma unsaved_role_is_dropped_silently_witness :
  saveRole Vectors.ext (Vectors.timestamp_doc 2) Vectors.start = (Done tt, Vectors.start).
Proof.
  refine (unsaved_role_is_dropped_silently Vectors.ext (Vectors.timestamp_doc 2)
            Vectors.start ["meta"; "director"; "director"; "timestamp.json"] _ _);
    vm_compute; reflexivity.
Defined.

(** The firmware of 8 bytes against a declared length of 4. *)
Lemma failed_download_leaves_no_trace_witness :
  (saveTarget Vectors.ext Vectors.plain_server Cases.short_target Vectors.prepared).1
    = Throw (OversizedTarget "director") ∧
  fs (saveTarget Vectors.ext Vectors.plain_server Cases.short_target Vectors.prepared).2
    = fs Vectors.prepared ∧
  targets_ (repo (saveTarget Vectors.ext Vectors.plain_server Cases.short_target
                    Vectors.prepared).2) = [].
Proof.
  assert (H : (saveTarget Vectors.ext Vectors.plain_server Cases.short_target
                 Vectors.prepared).1 = Throw (OversizedTarget "director"))
    by (vm_compute; reflexivity).
  destruct (failed_download_leaves_no_trace Vectors.ext Vectors.plain_server
              Cases.short_target Vectors.prepared _ H) as (_ & Hfs & Ht & _).
  split; [exact H|]. split; [exact Hfs|]. rewrite Ht. reflexivity.
Defined.

(** The firmware target, downloaded where the directories exist. *)
Lemma written_target_was_checked_witness :
  files (fs (saveTarget Vectors.ext Vectors.plain_server Vectors.firmware_target
               Vectors.prepared).2)
    !! ["meta"; "director"; "director"; "targets"; "firmware.bin"]
  = Some "payload!"%string ∧
  passes_checks Vectors.ext Vectors.plain_server Vectors.base Vectors.firmware_target.
Proof.
  destruct (written_target_was_checked Vectors.ext Vectors.plain_server
              Vectors.firmware_target Vectors.prepared
              ["meta"; "director"; "director"; "targets"; "firmware.bin"])
    as (_ & Hf & _ & Hc & _).
  { vm_compute. discriminate. }
  split; [|exact Hc]. etrans; [exact Hf|]. vm_compute; reflexivity.
Defined.

(** ** What a refresh lists and what it trusts *)

Section Listing.

Variable ext : Externals.
Variable http : HttpClient.

Lemma checked_among base sent before later t :
  checked ext http base sent t → checked ext http base (before ++ sent ++ later) t.
Proof.
  intros H Hpos. destruct (H Hpos) as [Hin Hc]. split; [|done].
  apply elem_of_app. right. apply elem_of_app. by left.
Qed.

Lemma lists_refl w : lists_checked_targets ext http w w.
Proof. repeat split. exists [], []. by rewrite !app_nil_r. Qed.

Lemma lists_trans w1 w2 w3 :
  lists_checked_targets ext http w1 w2 → lists_checked_targets ext http w2 w3 →
  lists_checked_targets ext http w1 w3.
Proof.
  intros (Hb1 & Hk1 & a1 & s1 & Ht1 & Hq1 & Hc1) (Hb2 & Hk2 & a2 & s2 & Ht2 & Hq2 & Hc2).
  repeat split; try congruence.
  exists (a1 ++ a2), (s1 ++ s2). rewrite Ht2, Ht1, Hq2, Hq1, !app_assoc.
  split; [done|]. split; [done|].
  apply Forall_app. split.
  - eapply Forall_impl; [exact Hc1|]. intros t Ht.
    rewrite <- (app_nil_l (s1 ++ s2)). by apply checked_among.
  - rewrite Hb1 in Hc2. eapply Forall_impl; [exact Hc2|]. intros t Ht.
    rewrite <- (app_nil_r s2). by apply checked_among.
Qed.

Lemma lists_same_repo w w' sent :
  repo w' = repo w → requests w' = requests w ++ sent →
  lists_checked_targets ext http w w'.
Proof.
  intros H Hq. unfold lists_checked_targets. rewrite H. repeat split.
  exists [], sent. by rewrite app_nil_r.
Qed.

Lemma after_verifyRole_lists doc w w' sent :
  repo w' = after_verifyRole doc (repo w) → requests w' = requests w ++ sent →
  lists_checked_targets ext http w w'.
Proof.
  intros H Hq.
  destruct (after_verifyRole_keeps doc (repo w)) as ((_ & _ & Hb) & Hk & Ht & _).
  unfold lists_checked_targets. rewrite H. repeat split; try done.
  exists [], sent. by rewrite app_nil_r.
Qed.

Lemma updateRole_lists role w o w' :
  updateRole ext http role w = (o, w') → lists_checked_targets ext http w w'.
Proof. intros (Hq & H & _)%updateRole_spec. by eapply after_verifyRole_lists. Qed.

Lemma saveTarget_lists target w o w' :
  saveTarget ext http target w = (o, w') → lists_checked_targets ext http w w'.
Proof.
  unfold saveTarget. munfold. simpl.
  destruct (0 <? length_ target) eqn:Epos; simpl.
  - destruct (length_ target <? _) eqn:Elt; simpl.
    { intros ?; simplify_eq. by eapply lists_same_repo. }
    destruct (matchWith ext _ _) eqn:Em; simpl.
    2:{ intros ?; simplify_eq. by eapply lists_same_repo. }
    intros ?; simplify_eq. repeat split.
    eexists [target], [_]. split; [done|]. split; [done|].
    constructor; [|done]. intros _. split; [apply list_elem_of_here|].
    split; [|done]. simpl. by apply Z.ltb_ge.
  - intros ?; simplify_eq. repeat split. exists [target], [].
    rewrite app_nil_r. split; [done|]. split; [done|].
    constructor; [|done]. intros Hpos. apply Z.ltb_ge in Epos. lia.
Qed.

Lemma ingest_target_lists t_it w o w' :
  ingest_target ext http t_it w = (o, w') → lists_checked_targets ext http w w'.
Proof.
  unfold ingest_target. munfold. intros H.
  destruct (get "hashes" t_it.2); simpl in H; [|simplify_eq; apply lists_refl].
  destruct (select_hash v w) as [oh wh] eqn:Eh.
  apply select_hash_frame in Eh as ->.
  destruct oh; [|simplify_eq; apply lists_refl].
  destruct (get "custom" t_it.2); simpl in H; [|simplify_eq; apply lists_refl].
  destruct (asString t_it.1); simpl in H; [|simplify_eq; apply lists_refl].
  destruct (get "length" t_it.2 ≫= asUInt64); simpl in H;
    [|simplify_eq; apply lists_refl].
  by eapply saveTarget_lists.
Qed.

Lemma loop_lists {A} (body : A → M unit) :
  (∀ it w o w', body it w = (o, w') → lists_checked_targets ext http w w') →
  ∀ l w o w', for_each l body w = (o, w') → lists_checked_targets ext http w w'.
Proof.
  intros Hbody. induction l as [|it l IH]; intros w o w' H; simpl in H; munfold.
  - simplify_eq. apply lists_refl.
  - destruct (body it w) as [o1 w1] eqn:E. apply Hbody in E.
    destruct o1 as [[]|e]; [|by simplify_eq].
    eapply lists_trans; [done|]. by eapply IH.
Qed.

Lemma refresh_role_lists it w o w' :
  refresh_role ext http it w = (o, w') → lists_checked_targets ext http w w'.
Proof.
  unfold refresh_role. munfold. intros H.
  destruct (asString it.1) as [k|]; simpl in H; [|simplify_eq; apply lists_refl].
  destruct (updateRole ext http k w) as [o1 w1] eqn:Eu.
  apply updateRole_lists in Eu.
  destruct o1 as [new_content|e]; [|by simplify_eq].
  destruct (eq_string it.1 "targets.json"); [|by simplify_eq].
  destruct (get "signed" new_content ≫= get "targets"); simpl in H; [|by simplify_eq].
  eapply lists_trans; [done|].
  by eapply (loop_lists _ ingest_target_lists).
Qed.

Lemma checkTimestamp_lists w o w' :
  checkTimestamp ext http w = (o, w') → lists_checked_targets ext http w w'.
Proof.
  intros (Hq & (_ & _ & Hb) & Hk & Ht & _)%checkTimestamp_spec.
  repeat split; try done. eexists [], _. rewrite app_nil_r. done.
Qed.

(** The ingestion of a root changes the trusted keys and nothing else
    that the list of targets depends on. *)
Lemma initRoot_lists content w o w' w0 :
  initRoot content w = (o, w') →
  base_url_ (repo w) = base_url_ (repo w0) →
  (∃ added sent, targets_ (repo w) = targets_ (repo w0) ++ added ∧
                 requests w = requests w0 ++ sent ∧
                 Forall (checked ext http (base_url_ (repo w0)) sent) added) →
  base_url_ (repo w') = base_url_ (repo w0) ∧
  ∃ added sent, targets_ (repo w') = targets_ (repo w0) ++ added ∧
                requests w' = requests w0 ++ sent ∧
                Forall (checked ext http (base_url_ (repo w0)) sent) added.
Proof.
  intros H Hb (added & sent & Ht & Hq & Hc).
  pose proof (initRoot_frame _ _ _ _ H) as (((_ & _ & Hb') & _) & _ & Hq').
  assert (Ht' : targets_ (repo w') = targets_ (repo w)).
  { revert H. unfold initRoot. munfold. intros H.
    destruct (get "signed" content ≫= get "keys") as [jk|]; simpl in *;
      [|by simplify_eq].
    destruct (for_each (items jk) ingest_key w) as [o1 w1] eqn:E1.
    apply ingest_keys_spec in E1 as (ks & _ & Hr1 & _).
    destruct o1 as [[]|e]; [|simplify_eq; by rewrite Hr1].
    destruct (get "signed" content ≫= get "roles") as [jr|]; simpl in *;
      [|simplify_eq; by rewrite Hr1].
    apply ingest_roles_spec in H as (rs & _ & Hr2 & _).
    by rewrite Hr2, Hr1. }
  split; [congruence|]. exists added, sent. split; [congruence|]. split; [congruence|done].
Qed.

(** What a refresh lists, whatever its outcome. *)
Lemma refresh_lists w :
  ∃ sent, requests (refresh ext http w).2 = requests w ++ sent ∧
          Forall (checked ext http (base_url_ (repo w)) sent)
                 (getTargets (refresh ext http w).2).
Proof.
  assert (Hgoal : ∀ w0 w', targets_ (repo w0) = [] →
    base_url_ (repo w0) = base_url_ (repo w) → requests w0 = requests w →
    (base_url_ (repo w') = base_url_ (repo w0) ∧
     ∃ added sent, targets_ (repo w') = targets_ (repo w0) ++ added ∧
                   requests w' = requests w0 ++ sent ∧
                   Forall (checked ext http (base_url_ (repo w0)) sent) added) →
    ∃ sent, requests w' = requests w ++ sent ∧
            Forall (checked ext http (base_url_ (repo w)) sent) (targets_ (repo w'))).
  { intros w0 w' Hnil Hb Hq (_ & added & sent & Ht & Hq' & Hc).
    exists sent. rewrite Ht, Hnil, Hq', Hq, <- Hb. done. }
  unfold getTargets, refresh. munfold. simpl.
  set (w0 := mkWorld (with_targets [] (repo w)) (fs w) (requests w)).
  assert (Hweak : ∀ w1 w2, lists_checked_targets ext http w1 w2 →
    base_url_ (repo w2) = base_url_ (repo w1) ∧
    ∃ added sent, targets_ (repo w2) = targets_ (repo w1) ++ added ∧
                  requests w2 = requests w1 ++ sent ∧
                  Forall (checked ext http (base_url_ (repo w1)) sent) added).
  { intros w1 w2 (? & _ & ?). done. }
  destruct (checkTimestamp ext http w0) as [ot wt] eqn:Et.
  apply checkTimestamp_lists in Et as Lt.
  destruct ot as [[]|e]; simpl;
    [|by apply (Hgoal w0), Hweak|by apply (Hgoal w0), Hweak].
  destruct (updateRole ext http "snapshot.json" wt) as [os ws] eqn:Es.
  apply updateRole_lists in Es as Ls.
  pose proof (lists_trans _ _ _ Lt Ls) as L2.
  destruct os as [content|e]; simpl; [|by apply (Hgoal w0), Hweak].
  destruct (get "signed" content ≫= get "meta") as [meta|]; simpl;
    [|by apply (Hgoal w0), Hweak].
  destruct (isMember "root.json" meta) as [[]|]; simpl;
    [| |by apply (Hgoal w0), Hweak].
  - destruct (updateRole ext http "root.json" ws) as [or wr] eqn:Er.
    apply updateRole_lists in Er as Lr.
    pose proof (lists_trans _ _ _ L2 Lr) as L3.
    destruct or as [root|e]; simpl; [|by apply (Hgoal w0), Hweak].
    destruct (initRoot root wr) as [oi wi] eqn:Ei.
    destruct (Hweak _ _ L3) as (Hb3 & H3).
    pose proof (initRoot_lists _ _ _ _ w0 Ei Hb3 H3) as Li.
    destruct oi as [[]|e]; simpl; [|by apply (Hgoal w0)].
    destruct (removeMember "root.json" meta) as [rest|]; simpl;
      [|by apply (Hgoal w0)].
    destruct (for_each (items rest) (refresh_role ext http) wi) as [ol wl] eqn:El.
    apply (loop_lists _ refresh_role_lists) in El as (Hbl & _ & al & sl & Htl & Hql & Hcl).
    simpl. apply (Hgoal w0); [done|done|done|].
    destruct Li as (Hbi & a3 & s3 & Ht3 & Hq3 & Hc3). split; [congruence|].
    exists (a3 ++ al), (s3 ++ sl). rewrite Htl, Ht3, Hql, Hq3, !app_assoc.
    split; [done|]. split; [done|]. apply Forall_app. split.
    + eapply Forall_impl; [exact Hc3|]. intros t Ht.
      rewrite <- (app_nil_l (s3 ++ sl)). by apply checked_among.
    + rewrite Hbi in Hcl. eapply Forall_impl; [exact Hcl|]. intros t Ht.
      rewrite <- (app_nil_r sl). by apply checked_among.
  - destruct (for_each (items meta) (refresh_role ext http) ws) as [ol wl] eqn:El.
    apply (loop_lists _ refresh_role_lists) in El as Ll. simpl.
    apply (Hgoal w0); [done|done|done|]. apply Hweak.
    by eapply lists_trans.
Qed.

(** X19: every target that [getTargets] returns after a refresh,
    whatever the outcome of the refresh, either has the declared length
    0 or was downloaded in this refresh, by a request that the refresh
    has added to those sent before, with content no longer than its
    declared length and matching its declared hash. *)
Theorem listed_targets_were_checked w t :
  t ∈ getTargets (refresh ext http w).2 →
  0 < length_ t →
  passes_checks ext http (base_url_ (repo w)) t ∧
  ∃ sent, requests (refresh ext http w).2 = requests w ++ sent ∧
          Get (role_url (repo w) (filename_ t)) ∈ sent.
Proof.
  intros Hin Hpos. destruct (refresh_lists w) as (sent & Hq & Hall).
  rewrite Forall_forall in Hall. destruct (Hall t Hin Hpos) as [Hget Hc].
  split; [done|]. by exists sent.
Qed.

(** X20: the trusted keys change during a refresh only through a root
    that the snapshot lists: when the served snapshot has no member
    root.json in its meta, the trusted keys after the refresh, whatever
    its outcome, are the keys trusted before. *)
Theorem refresh_without_root_keeps_keys w :
  (∀ meta,
     get "signed" (http_getJson http (role_url (repo w) "snapshot.json")) ≫= get "meta"
       = Some meta →
     isMember "root.json" meta ≠ Some true) →
  keys_ (repo (refresh ext http w).2) = keys_ (repo w).
Proof.
  intros Hmeta. unfold refresh. munfold. simpl.
  set (w0 := mkWorld (with_targets [] (repo w)) (fs w) (requests w)).
  assert (Hk0 : keys_ (repo w0) = keys_ (repo w)) by done.
  destruct (checkTimestamp ext http w0) as [ot wt] eqn:Et.
  apply checkTimestamp_lists in Et as (Hbt & Hkt & _).
  destruct ot as [[]|e]; simpl; try congruence.
  destruct (updateRole ext http "snapshot.json" wt) as [os ws] eqn:Es.
  pose proof (updateRole_lists _ _ _ _ Es) as (Hbs & Hks & _).
  apply updateRole_spec in Es as (_ & _ & Hs).
  destruct Hs as [(e & -> & _)|(-> & _)]; simpl; [congruence|].
  unfold role_url in Hmeta. rewrite Hbt in *. simpl in Hmeta.
  destruct (get "signed" _ ≫= get "meta") as [meta|] eqn:Em; simpl; [|congruence].
  specialize (Hmeta meta eq_refl).
  destruct (isMember "root.json" meta) as [[]|]; simpl; [done| |congruence].
  destruct (for_each (items meta) (refresh_role ext http) ws) as [ol wl] eqn:El.
  apply (loop_lists _ refresh_role_lists) in El as (_ & Hkl & _). simpl. congruence.
Qed.

End Listing.

(** The refresh of the vectors lists the firmware, which it has
    downloaded. *)
Lemma listed_targets_were_checked_witness :
  Vectors.firmware_target
    ∈ getTargets (refresh Vectors.ext Vectors.plain_server Vectors.start).2 ∧
  passes_checks Vectors.ext Vectors.plain_server Vectors.base Vectors.firmware_target ∧
  Get "http://server/firmware.bin"
    ∈ requests (refresh Vectors.ext Vectors.plain_server Vectors.start).2.
Proof.
  assert (H : Vectors.firmware_target
              ∈ getTargets (refresh Vectors.ext Vectors.plain_server Vectors.start).2).
  { replace (getTargets (refresh Vectors.ext Vectors.plain_server Vectors.start).2)
      with [Vectors.firmware_target] by (vm_compute; reflexivity).
    apply list_elem_of_here. }
  split; [exact H|].
  destruct (listed_targets_were_checked Vectors.ext Vectors.plain_server Vectors.start
              Vectors.firmware_target H) as (Hc & sent & Hq & Hin).
  { vm_compute; reflexivity. }
  split; [exact Hc|]. rewrite Hq. apply elem_of_app. right. exact Hin.
Defined.

(** The snapshot of the plain server lists targets.json alone. *)
Lemma refresh_without_root_keeps_keys_witness :
  keys_ (repo (refresh Vectors.ext Vectors.plain_server Vectors.start).2)
  = keys_ (repo Vectors.start).
Proof.
  apply (refresh_without_root_keeps_keys Vectors.ext Vectors.plain_server Vectors.start).
  intros meta H. vm_compute in H. injection H as <-. vm_compute. discriminate.
Defined.

(** ** Construction from the store *)

Section Construction.

Variable ext : Externals.

Lemma construct_run name base_url mp d sent :
  construct ext name base_url mp d sent =
    let r := blank name base_url mp in
    let made := create_directories (path_ r) d in
    let w1 := mkWorld r made.2 sent in
    if made.1 then
      let after_root :=
        if fs_exists (path_ r ++ ["root.json"]) made.2
        then initRoot (parseJSON ext (read_file (path_ r ++ ["root.json"]) made.2)) w1
        else (Done tt, w1) in
      match after_root with
      | (Done _, w2) =>
          (Done tt,
           mkWorld (with_timestamp_signed
                      (if fs_exists (path_ r ++ ["timestamp.json"]) made.2
                       then parseJSON ext
                              (read_file (path_ r ++ ["timestamp.json"]) made.2)
                       else objectValue [("version"%string, intValue 0)])
                      (repo w2))
                   (fs w2) (requests w2))
      | (Throw e, w2) => (Throw e, w2)
      end
    else (Throw filesystem_error, w1).
Proof.
  unfold construct, construct_body, make_path, blank. munfold. simpl.
  destruct (create_directories (mp ++ [name]) d) as [[] d']; simpl; [|done].
  destruct (fs_exists ((mp ++ [name]) ++ ["root.json"]) d'); simpl.
  - destruct (initRoot _ _) as [[[]|e] w2]; [|done].
    destruct (fs_exists _ d'); done.
  - destruct (fs_exists _ d'); done.
Qed.

(** X21: the constructor first makes the directory of the repository
    and its missing ancestors.  When that fails, a regular file being in
    the way or the pathname being empty, it throws the error of
    [create_directories] and has done nothing else.  When it succeeds
    and the store then holds neither root.json nor timestamp.json for
    the repository, the constructor ends normally: it writes no file,
    sends no request, trusts no key, knows no threshold, and remembers
    the version 0. *)
Theorem construction_from_nothing name base_url mp d sent :
  let made := create_directories (mp ++ [name]) d in
  (made.1 = false →
     construct ext name base_url mp d sent =
       (Throw filesystem_error,
        mkWorld (mkTufRepository name (mp ++ [name]) base_url ∅ ∅ [] nullValue)
                made.2 sent)) ∧
  (made.1 = true →
   fs_exists (mp ++ [name; "root.json"]) made.2 = false →
   fs_exists (mp ++ [name; "timestamp.json"]) made.2 = false →
     construct ext name base_url mp d sent =
       (Done tt,
        mkWorld (mkTufRepository name (mp ++ [name]) base_url ∅ ∅ []
                   (objectValue [("version"%string, intValue 0)]))
                made.2 sent)) ∧
  files made.2 = files d.
Proof.
  intros made. split; [|split].
  - intros Hm. rewrite construct_run. simpl. fold made. by rewrite Hm.
  - intros Hm Hr Ht. rewrite construct_run. simpl. fold made. rewrite Hm.
    rewrite <- !(assoc_L (++)). simpl. by rewrite Hr, Ht.
  - subst made. unfold create_directories.
    destruct (empty_pathname (mp ++ [name])); [done|].
    generalize (start_of (mp ++ [name]) d). generalize (names (mp ++ [name])). clear.
    intros ns. revert d. induction ns as [|n ns IH]; intros d cur; simpl; [done|].
    destruct (is_directory cur d); [|done].
    destruct (is_directory (step cur n) d); [apply IH|].
    destruct (bool_decide _); [done|]. by rewrite IH.
Qed.

(** X22: a root that the store holds once the directory of the
    repository is made is taken into the trust state by the constructor
    without any look at its signatures: when its key and role entries
    are all acceptable, the constructor ends normally and trusts exactly
    the declared keys with the declared thresholds, whatever signatures
    the stored document carries. *)
Theorem stored_root_is_trusted_unverified name base_url mp d d' sent jk jr ks rs :
  create_directories (mp ++ [name]) d = (true, d') →
  fs_exists (mp ++ [name; "root.json"]) d' = true →
  get "signed" (parseJSON ext (read_file (mp ++ [name; "root.json"]) d')) ≫= get "keys"
    = Some jk →
  get "signed" (parseJSON ext (read_file (mp ++ [name; "root.json"]) d')) ≫= get "roles"
    = Some jr →
  mapM key_entry (items jk) = Some ks →
  mapM role_entry (items jr) = Some rs →
  (construct ext name base_url mp d sent).1 = Done tt ∧
  keys_ (repo (construct ext name base_url mp d sent).2) = list_to_map ks ∧
  thresholds_ (repo (construct ext name base_url mp d sent).2)
    = list_to_map (reverse rs) ∧
  requests (construct ext name base_url mp d sent).2 = sent.
Proof.
  intros Hm He Hk Hr Hks Hrs. rewrite construct_run. simpl. rewrite Hm. simpl.
  rewrite <- !(assoc_L (++)). simpl. rewrite He.
  rewrite (initRoot_accepts _ _ _ _ _ _ Hk Hr Hks Hrs). simpl.
  rewrite add_keys_union, set_thresholds_union.
  by rewrite (left_id_L ∅ (∪)), (right_id_L ∅ (∪)).
Qed.

(** X23: a timestamp that the store holds does not seed the remembered
    version.  The constructor remembers the stored document as a whole,
    and [checkTimestamp] reads the member version at its top level: for
    a stored document without that member, as every signed document is,
    the first [checkTimestamp] reports a new timestamp for every served
    version that is an integer, also one below the stored version. *)
Theorem stored_timestamp_seeds_no_version name base_url mp d d' sent w http b w' n :
  construct ext name base_url mp d sent = (Done tt, w) →
  create_directories (mp ++ [name]) d = (true, d') →
  fs_exists (mp ++ [name; "timestamp.json"]) d' = true →
  get "version" (parseJSON ext (read_file (mp ++ [name; "timestamp.json"]) d'))
    = Some nullValue →
  checkTimestamp ext http w = (Done b, w') →
  version_of (signed_of (http_getJson http (timestamp_url (repo w)))) = intValue n →
  timestamp_signed_ (repo w)
    = parseJSON ext (read_file (mp ++ [name; "timestamp.json"]) d') ∧
  b = true.
Proof.
  intros Hc Hm He Hv Hcheck Hn.
  assert (Hts : timestamp_signed_ (repo w)
                = parseJSON ext (read_file (mp ++ [name; "timestamp.json"]) d')).
  { rewrite construct_run in Hc. simpl in Hc. rewrite Hm in Hc. simpl in Hc.
    rewrite <- !(assoc_L (++)) in Hc. simpl in Hc. rewrite He in Hc.
    destruct (fs_exists (mp ++ [name; "root.json"]) d').
    - destruct (initRoot _ _) as [[[]|e] w2]; [|done]. by simplify_eq.
    - by simplify_eq. }
  split; [done|].
  apply checkTimestamp_spec in Hcheck as (_ & _ & _ & _ & _ & _ & H).
  destruct (H b eq_refl) as (_ & -> & _).
  rewrite Hn, Hts. unfold version_of. rewrite Hv. done.
Qed.

End Construction.

(** The repository director over an empty store, and over a store where
    a regular file has the name of the metadata directory. *)
Lemma construction_from_nothing_witness :
  construct Vectors.ext "director" Vectors.base ["meta"] Vectors.empty_fs [] =
    (Done tt,
     mkWorld (mkTufRepository "director" ["meta"; "director"] Vectors.base ∅ ∅ []
                (objectValue [("version"%string, intValue 0)]))
             Vectors.bare_fs []) ∧
  (construct Vectors.ext "director" Vectors.base ["meta"] Cases.blocked []).1
    = Throw filesystem_error.
Proof.
  split.
  - refine (proj1 (proj2 (construction_from_nothing Vectors.ext "director" Vectors.base
                            ["meta"] Vectors.empty_fs [])) _ _ _);
      vm_compute; reflexivity.
  - rewrite (proj1 (construction_from_nothing Vectors.ext "director" Vectors.base
                      ["meta"] Cases.blocked [])); [done|].
    vm_compute; reflexivity.
Defined.

(** The store holds a root without any signature: the key k1 that it
    declares is trusted. *)
Lemma stored_root_is_trusted_unverified_witness :
  signatures_of Cases.first_root = [] ∧
  (construct Cases.store_ext "director" Vectors.base ["meta"] Cases.stored []).1
    = Done tt ∧
  keys_ (repo (construct Cases.store_ext "director" Vectors.base ["meta"]
                 Cases.stored []).2) !! "k1"%string
    = Some (mkPublicKey "pub1" "ed25519").
Proof.
  split; [reflexivity|].
  pose (jk := objectValue [("k1"%string, Vectors.key_decl "ed25519" "pub1")]).
  pose (jr := objectValue [("root"%string, Vectors.threshold_decl 1);
                           ("snapshot"%string, Vectors.threshold_decl 1);
                           ("targets"%string, Vectors.threshold_decl 1);
                           ("timestamp"%string, Vectors.threshold_decl 1)]).
  pose (ks := [("k1"%string, mkPublicKey "pub1" "ed25519")]).
  pose (rs := [("root"%string, 1); ("snapshot"%string, 1);
               ("targets"%string, 1); ("timestamp"%string, 1)]).
  assert (H0 : create_directories (["meta"] ++ ["director"]) Cases.stored
               = (true, Cases.stored)) by (vm_compute; reflexivity).
  assert (H1 : fs_exists (["meta"] ++ ["director"; "root.json"]) Cases.stored = true)
    by (vm_compute; reflexivity).
  assert (H2 : get "signed" (parseJSON Cases.store_ext
                 (read_file (["meta"] ++ ["director"; "root.json"]) Cases.stored))
               ≫= get "keys" = Some jk) by (vm_compute; reflexivity).
  assert (H3 : get "signed" (parseJSON Cases.store_ext
                 (read_file (["meta"] ++ ["director"; "root.json"]) Cases.stored))
               ≫= get "roles" = Some jr) by (vm_compute; reflexivity).
  assert (H4 : mapM key_entry (items jk) = Some ks) by (vm_compute; reflexivity).
  assert (H5 : mapM role_entry (items jr) = Some rs) by (vm_compute; reflexivity).
  destruct (stored_root_is_trusted_unverified Cases.store_ext "director" Vectors.base
              ["meta"] Cases.stored Cases.stored [] jk jr ks rs H0 H1 H2 H3 H4 H5)
    as (Hd & Hk & _).
  split; [exact Hd|]. etrans; [by rewrite Hk|]. vm_compute; reflexivity.
Defined.

(** The store holds a timestamp of version 7 and the server one of
    version 2: the first check after construction reports it as new. *)
Lemma stored_timestamp_seeds_no_version_witness :
  let w := (construct Cases.store_ext "director" Vectors.base ["meta"]
              Cases.stored []).2 in
  version_of (signed_of (timestamp_signed_ (repo w))) = intValue 7 ∧
  version_of (signed_of (http_getJson Vectors.plain_server (timestamp_url (repo w))))
    = intValue 2 ∧
  (checkTimestamp Cases.store_ext Vectors.plain_server w).1 = Done true.
Proof.
  intros w.
  split; [vm_compute; reflexivity|]. split; [vm_compute; reflexivity|].
  pose (w' := (checkTimestamp Cases.store_ext Vectors.plain_server w).2).
  pose (b := match (checkTimestamp Cases.store_ext Vectors.plain_server w).1 with
             | Done b => b | Throw _ => false end).
  assert (Hc : checkTimestamp Cases.store_ext Vectors.plain_server w = (Done b, w'))
    by (vm_compute; reflexivity).
  assert (H1 : construct Cases.store_ext "director" Vectors.base ["meta"]
                 Cases.stored [] = (Done tt, w)) by (vm_compute; reflexivity).
  assert (H0 : create_directories (["meta"] ++ ["director"]) Cases.stored
               = (true, Cases.stored)) by (vm_compute; reflexivity).
  assert (H2 : fs_exists (["meta"] ++ ["director"; "timestamp.json"]) Cases.stored
               = true) by (vm_compute; reflexivity).
  assert (H3 : get "version"
                 (parseJSON Cases.store_ext
                    (read_file (["meta"] ++ ["director"; "timestamp.json"])
                       Cases.stored)) = Some nullValue) by (vm_compute; reflexivity).
  assert (H5 : version_of (signed_of (http_getJson Vectors.plain_server
                                        (timestamp_url (repo w)))) = intValue 2)
    by (vm_compute; reflexivity).
  destruct (stored_timestamp_seeds_no_version Cases.store_ext "director" Vectors.base
              ["meta"] Cases.stored Cases.stored [] w Vectors.plain_server b w' 2
              H1 H0 H2 H3 Hc H5)
    as [_ Hb].
  rewrite Hc. simpl. by rewrite Hb.
Defined.

(** ** The verdicts of the test driver *)

Section Verdicts.

Variable ext : Externals.
Variable http : HttpClient.
Variable what : Exception → string.
Variable metadata_path : path.

Lemma match_entries_true entries e :
  match_entries what entries e = Some true →
  ∃ it error_msg,
    it ∈ entries ∧
    asString it.1 = Some (getName e) ∧
    get "error_msg" it.2 ≫= asString = Some error_msg ∧
    error_msg = what e ∧
    passed_over error_msg e = false.
Proof.
  induction entries as [|it rest IH]; simpl; [done|].
  destruct (asString it.1) as [key|] eqn:Ek; [|done]. csimpl.
  destruct (get "error_msg" it.2 ≫= asString) as [msg|] eqn:Em; [|done]. csimpl.
  assert (Hrest : match_entries what rest e = Some true →
    ∃ it0 error_msg, it0 ∈ it :: rest ∧ asString it0.1 = Some (getName e) ∧
      get "error_msg" it0.2 ≫= asString = Some error_msg ∧
      error_msg = what e ∧ passed_over error_msg e = false).
  { intros (it0 & m & Hin & ?)%IH. exists it0, m. split; [|done].
    by apply list_elem_of_further. }
  destruct (passed_over msg e) eqn:Ep; [done|].
  destruct (String.eqb key (getName e)) eqn:En; [|done].
  destruct (String.eqb msg (what e)) eqn:Ew; [|done].
  intros _. apply String.eqb_eq in En, Ew. subst key.
  exists it, msg. repeat split; try done. apply list_elem_of_here.
Qed.

(** X24: a vector that expects success passes exactly when the
    constructor, [updateRoot] and [refresh] all end normally; any
    exception, of whatever class, fails it. *)
Theorem vector_expecting_success vector d repo_name :
  get "repo" vector ≫= asString = Some repo_name →
  get "is_success" vector ≫= asBool = Some true →
  ∃ verdict,
    (run_test ext http what metadata_path vector d).1 = Some verdict ∧
    (verdict = true ↔
       (run ext http metadata_path
            ("http://127.0.0.1:8080/" +:+ repo_name +:+ "/director/repo") d).1
       = Done tt).
Proof.
  intros Hrepo Hs. unfold run_test. rewrite Hrepo. simpl.
  destruct (run ext http metadata_path _ d) as [[[]|e] w]; simpl.
  - rewrite Hs. by exists true.
  - exists false. rewrite Hs. split; [by destruct e|done].
Qed.

(** X25: a vector that expects failure passes only when the run threw
    one of the exceptions of the verifier and [errors] has an entry under
    the name of the repository whose message is the message of the
    exception, and which does not begin with the name of another of the
    three classes that [match_error] tells apart; a run that ends
    normally, with a [Json::LogicError] or with the error of
    [create_directories] fails it. *)
Theorem vector_expecting_failure vector d repo_name :
  get "repo" vector ≫= asString = Some repo_name →
  get "is_success" vector ≫= asBool = Some false →
  (run_test ext http what metadata_path vector d).1 = Some true →
  ∃ e errors it,
    (run ext http metadata_path
         ("http://127.0.0.1:8080/" +:+ repo_name +:+ "/director/repo") d).1 = Throw e ∧
    e ≠ LogicError ∧ e ≠ filesystem_error ∧
    get "errors" vector = Some errors ∧
    it ∈ items errors ∧
    asString it.1 = Some (getName e) ∧
    get "error_msg" it.2 ≫= asString = Some (what e) ∧
    passed_over (what e) e = false.
Proof.
  intros Hrepo Hs. unfold run_test. rewrite Hrepo. simpl.
  destruct (run ext http metadata_path _ d) as [[[]|e] w]; simpl.
  { by rewrite Hs. }
  assert (Hmatch : (get "errors" vector ≫= λ errors, match_error what errors e)
                   = Some true →
    ∃ errors it, get "errors" vector = Some errors ∧ it ∈ items errors ∧
      asString it.1 = Some (getName e) ∧
      get "error_msg" it.2 ≫= asString = Some (what e) ∧
      passed_over (what e) e = false).
  { destruct (get "errors" vector) as [errors|]; [|done]. csimpl.
    intros (it & m & Hin & Hn & Hm & -> & Hp)%match_entries_true.
    by exists errors, it. }
  destruct e; rewrite ?Hs; csimpl; try done;
    intros (errors & it & ?)%Hmatch; eexists _, errors, it; split; done.
Qed.

End Verdicts.

(** The vector of a repository whose four documents are in order. *)
Lemma vector_expecting_success_witness :
  (run_test Vectors.ext (Cases.driven_server Cases.signed_first_root) Cases.what
     ["meta"] (Cases.vector_expecting true []) Vectors.empty_fs).1 = Some true.
Proof.
  destruct (vector_expecting_success Vectors.ext
              (Cases.driven_server Cases.signed_first_root) Cases.what ["meta"]
              (Cases.vector_expecting true []) Vectors.empty_fs "full")
    as (verdict & Hv & Hiff).
  { vm_compute; reflexivity. }
  { vm_compute; reflexivity. }
  rewrite Hv. f_equal. apply Hiff. vm_compute; reflexivity.
Defined.

(** The vector of a repository whose root does not declare the key that
    signs the timestamp, with the error that this raises. *)
Lemma vector_expecting_failure_witness :
  let vector := Cases.vector_expecting false
                  [("director"%string, Cases.error_entry "Couldn't find a key: k1")] in
  (run_test Vectors.ext (Cases.driven_server Vectors.rotated_root) Cases.what
     ["meta"] vector Vectors.empty_fs).1 = Some true ∧
  ∃ e, (run Vectors.ext (Cases.driven_server Vectors.rotated_root) ["meta"]
            Cases.driven_url Vectors.empty_fs).1 = Throw e ∧
       Cases.what e = "Couldn't find a key: k1"%string.
Proof.
  intros vector.
  assert (H : (run_test Vectors.ext (Cases.driven_server Vectors.rotated_root)
                 Cases.what ["meta"] vector Vectors.empty_fs).1 = Some true)
    by (vm_compute; reflexivity).
  split; [exact H|].
  assert (H1 : get "repo" vector ≫= asString = Some "full"%string)
    by (vm_compute; reflexivity).
  assert (H2 : get "is_success" vector ≫= asBool = Some false)
    by (vm_compute; reflexivity).
  destruct (vector_expecting_failure Vectors.ext
              (Cases.driven_server Vectors.rotated_root) Cases.what ["meta"]
              vector Vectors.empty_fs "full" H1 H2 H)
    as (e & errors & it & He & _ & _ & Herr & Hin & _ & Hmsg & _).
  exists e. split; [exact He|].
  vm_compute in Herr. injection Herr as <-.
  apply list_elem_of_singleton in Hin. subst it.
  change (Some "Couldn't find a key: k1"%string = Some (Cases.what e)) in Hmsg.
  by injection Hmsg as <-.
Defined.

(** ** The descriptor of a target *)

Section Descriptors.

Variable ext : Externals.
Variable http : HttpClient.

(** X26: the descriptor that the loop over [signed.targets] hands to
    [saveTarget] carries the SHA-512 digest whenever the entry gives one,
    also when it gives a SHA-256 digest as well; the SHA-256 digest when
    that is the only one; and a hash without algorithm when the entry
    gives neither. *)
Theorem sha512_is_preferred t_it w hashes custom filename len :
  get "hashes" t_it.2 = Some hashes →
  get "custom" t_it.2 = Some custom →
  asString t_it.1 = Some filename →
  get "length" t_it.2 ≫= asUInt64 = Some len →
  (∀ h, isMember "sha512" hashes = Some true →
        get "sha512" hashes ≫= asString = Some h →
        ingest_target ext http t_it w =
          saveTarget ext http (mkTarget custom filename len (mkHasher sha512 h)) w) ∧
  (∀ h, isMember "sha512" hashes = Some false →
        isMember "sha256" hashes = Some true →
        get "sha256" hashes ≫= asString = Some h →
        ingest_target ext http t_it w =
          saveTarget ext http (mkTarget custom filename len (mkHasher sha256 h)) w) ∧
  (isMember "sha512" hashes = Some false →
   isMember "sha256" hashes = Some false →
   ingest_target ext http t_it w =
     saveTarget ext http (mkTarget custom filename len Hasher_default) w).
Proof.
  intros Hh Hc Hf Hl. unfold ingest_target, select_hash. munfold.
  rewrite Hh. simpl. split; [|split].
  - intros h H512 Hd. rewrite H512. simpl. rewrite Hd. simpl.
    rewrite Hc. simpl. rewrite Hf. simpl. by rewrite Hl.
  - intros h H512 H256 Hd. rewrite H512. simpl. rewrite H256. simpl.
    rewrite Hd. simpl. rewrite Hc. simpl. rewrite Hf. simpl. by rewrite Hl.
  - intros H512 H256. rewrite H512. simpl. rewrite H256. simpl.
    rewrite Hc. simpl. rewrite Hf. simpl. by rewrite Hl.
Qed.

(** X27: a download whose target has a plain name spares the role
    documents: under a path and a repository name without a character
    0, [saveTarget] leaves the file where [saveRole] puts the document
    of a role whose name is plain as it was, and, under a repository
    name that is plain, also the file from which the constructor loads
    the document of such a role. *)
Theorem download_spares_role_documents target w doc role p l :
  clean (path_ (repo w) ++ [name_ (repo w)]) = true →
  plain (filename_ target) = true →
  role_of doc = Some role → plain (role +:+ ".json") = true →
  save_path (repo w) doc = Some p →
  locate p (fs w) = Some l →
  files (fs (saveTarget ext http target w).2) !! l = files (fs w) !! l ∧
  (plain (name_ (repo w)) = true →
   ∀ role' l', plain (role' +:+ ".json") = true →
     locate (load_path (repo w) role') (fs w) = Some l' →
     files (fs (saveTarget ext http target w).2) !! l' = files (fs w) !! l').
Proof.
  intros Hclean Hf Hrole Hfile Hp Hl.
  assert (Hclean0 : clean (path_ (repo w)) = true).
  { unfold clean in *. rewrite forallb_app in Hclean. by apply andb_prop in Hclean as [? _]. }
  assert (Hother : ∀ q,
    (∀ dir, reach (path_ (repo w) ++ [name_ (repo w)]) (fs w) = Some dir →
            q ≠ dir ++ ["targets"%string; filename_ target]) →
    files (fs (saveTarget ext http target w).2) !! q = files (fs w) !! q).
  { intros q Hq. destruct (saveTarget_store ext http target w) as [->|(_ & _ & ->)];
      [done|].
    apply write_file_other. intros Ho%opens_locate. unfold target_path in Ho.
    change [name_ (repo w); "targets"%string; filename_ target]
      with ([name_ (repo w)] ++ ["targets"%string; filename_ target]) in Ho.
    rewrite (assoc_L (++)) in Ho.
    apply locate_two in Ho as (dir & Hr & _ & _ & ->); [|done|done|done].
    by apply (Hq dir). }
  unfold save_path in Hp. rewrite Hrole in Hp. simpl in Hp. injection Hp as <-.
  rewrite (cons_middle (name_ (repo w))), (assoc_L (++)) in Hl.
  apply locate_one in Hl as (dir0 & Hr0 & _ & ->); [|done|done].
  split.
  - apply Hother. intros dir Hr Heq. rewrite Hr0 in Hr. injection Hr as <-.
    apply (f_equal length) in Heq. rewrite !length_app in Heq. simpl in Heq. lia.
  - intros Hname role' l' Hfile' Hl'. unfold load_path in Hl'.
    apply locate_one in Hl' as (top & Ht & _ & ->); [|done|done].
    apply Hother. intros dir Hr Heq. rewrite reach_snoc in Hr by done.
    rewrite Ht in Hr. simpl in Hr. destruct (is_directory top (fs w)); [|done].
    injection Hr as <-.
    apply (f_equal length) in Heq. rewrite !length_app in Heq. simpl in Heq. lia.
Qed.

(** X29: the name of a target is not confined to the targets directory.
    For a target named [../f], [f] being a plain name, whose content
    passes the checks, [saveTarget] writes the served content to [f] in
    the directory that holds the targets directory, where the role
    documents are saved, unless [f] is a directory there: a target named
    ../timestamp.json replaces the saved timestamp.  The path and the
    name of the repository are taken to hold no character 0. *)
Theorem target_name_leaves_targets_directory target w f dir :
  clean (path_ (repo w) ++ [name_ (repo w)]) = true →
  filename_ target = "../" +:+ f → plain f = true →
  reach (path_ (repo w) ++ [name_ (repo w); "targets"]) (fs w) = Some dir →
  is_directory dir (fs w) = true →
  is_directory (parent_path dir) (fs w) = true →
  is_directory (parent_path dir ++ [f]) (fs w) = false →
  0 < length_ target →
  passes_checks ext http (base_url_ (repo w)) target →
  (saveTarget ext http target w).1 = Done tt ∧
  files (fs (saveTarget ext http target w).2) !! (parent_path dir ++ [f])
    = Some (served http target w).
Proof.
  intros Hclean Hname Hf Hr Hd Hp Hfile Hpos [Hlen Hhash].
  assert (Hclean' : clean (path_ (repo w) ++ [name_ (repo w); "targets"]) = true).
  { change [name_ (repo w); "targets"%string]
      with ([name_ (repo w)] ++ ["targets"%string]).
    rewrite (assoc_L (++)). by apply clean_snoc. }
  assert (Ho : opens (target_path (repo w) target) (fs w) = Some (parent_path dir ++ [f])).
  { unfold opens, target_path.
    change [name_ (repo w); "targets"%string; filename_ target]
      with ([name_ (repo w); "targets"%string] ++ [filename_ target]).
    rewrite (assoc_L (++)), Hname.
    rewrite (locate_upwards _ _ _ _ Hclean' Hf Hr Hd Hp). simpl. by rewrite Hfile. }
  unfold saveTarget, served. munfold. simpl.
  apply Z.ltb_lt in Hpos. rewrite Hpos. simpl.
  assert ((length_ target <?
           Z.of_nat (String.length
                       (http_get http (base_url_ (repo w) +:+ "/" +:+ filename_ target))))
          = false) as -> by (by apply Z.ltb_ge).
  rewrite Hhash. simpl. split; [done|]. by apply write_file_at.
Qed.

End Descriptors.

(** An entry with both digests. *)
Lemma sha512_is_preferred_witness :
  getTargets (ingest_target Vectors.ext Vectors.plain_server Cases.both_hashes
                Vectors.start).2
  = [mkTarget nullValue "blob.bin" 0 (mkHasher sha512 "long digest")].
Proof.
  pose (hashes := objectValue [("sha256"%string, stringValue "short digest");
                               ("sha512"%string, stringValue "long digest")]).
  assert (H1 : get "hashes" Cases.both_hashes.2 = Some hashes) by reflexivity.
  assert (H2 : get "custom" Cases.both_hashes.2 = Some nullValue) by reflexivity.
  assert (H3 : asString Cases.both_hashes.1 = Some "blob.bin"%string) by reflexivity.
  assert (H4 : get "length" Cases.both_hashes.2 ≫= asUInt64 = Some 0) by reflexivity.
  assert (H5 : isMember "sha512" hashes = Some true) by (vm_compute; reflexivity).
  assert (H6 : get "sha512" hashes ≫= asString = Some "long digest"%string)
    by (vm_compute; reflexivity).
  rewrite (proj1 (sha512_is_preferred Vectors.ext Vectors.plain_server Cases.both_hashes
                    Vectors.start hashes nullValue "blob.bin" 0 H1 H2 H3 H4)
             "long digest"%string H5 H6).
  vm_compute; reflexivity.
Defined.

(** The firmware, downloaded where the timestamp has been saved. *)
Lemma download_spares_role_documents_witness :
  let w := (saveRole Vectors.ext (Vectors.timestamp_doc 2) Vectors.prepared).2 in
  files (fs (saveTarget Vectors.ext Vectors.plain_server Vectors.firmware_target w).2)
    !! ["meta"; "director"; "director"; "timestamp.json"]
  = Some (stream_write Vectors.ext (Vectors.timestamp_doc 2)).
Proof.
  intros w.
  assert (Hp : save_path (repo w) (Vectors.timestamp_doc 2)
               = Some ["meta"; "director"; "director"; "timestamp.json"]%string)
    by (vm_compute; reflexivity).
  etrans; [refine (proj1 (download_spares_role_documents Vectors.ext
                            Vectors.plain_server Vectors.firmware_target w
                            (Vectors.timestamp_doc 2) "timestamp" _ _ _ _ _ _ Hp _));
           vm_compute; reflexivity|].
  vm_compute; reflexivity.
Defined.

(** A target named ../timestamp.json, downloaded where the timestamp has
    been saved: the file of the timestamp holds the target afterwards. *)
Lemma target_name_leaves_targets_directory_witness :
  let w := (saveRole Vectors.ext (Vectors.timestamp_doc 2) Vectors.prepared).2 in
  files (fs w) !! ["meta"; "director"; "director"; "timestamp.json"]
    = Some (stream_write Vectors.ext (Vectors.timestamp_doc 2)) ∧
  files (fs (saveTarget Vectors.ext Cases.climbing_server Cases.climbing_target w).2)
    !! ["meta"; "director"; "director"; "timestamp.json"]
    = Some "not a timestamp!"%string.
Proof.
  intros w. split; [vm_compute; reflexivity|].
  etrans; [refine (proj2 (target_name_leaves_targets_directory Vectors.ext
                            Cases.climbing_server Cases.climbing_target w
                            "timestamp.json"
                            ["meta"; "director"; "director"; "targets"]%string
                            _ _ _ _ _ _ _ _ _));
           try (vm_compute; reflexivity)|].
  - split; [vm_compute; discriminate|vm_compute; reflexivity].
  - vm_compute; reflexivity.
Defined.
